(** * texture-networks: shape bookkeeping of the generator and the training loop

    A shallow embedding of [texture_network.py].  The TensorFlow default
    graph is an explicit store of nodes, threaded through the construction
    code; a tensor is a handle into that store and carries the static shape
    TensorFlow infers when the node is added.  NumPy's global random state and
    the training loop's file output are threaded in the same way.  Python
    exceptions are the [Raise] results of the monad. *)

From stdpp Require Import base tactics option list numbers strings pretty gmap.
From Stdlib Require Import QArith Qminmax Qround Lqa.

Open Scope Z_scope.

(** ** Exceptions and the state-and-exception monad *)

Inductive exception : Type :=
| ValueError
| IndexError
| ZeroDivisionError.

Inductive result (A : Type) : Type :=
| Ok (a : A)
| Raise (e : exception).
Arguments Ok {A} a.
Arguments Raise {A} e.

(** A computation that reads and writes a store [S] and may raise. *)
Definition state_exn (S A : Type) : Type := S → result (A * S).

#[global] Instance state_exn_ret {S} : MRet (state_exn S) :=
  λ A a s, Ok (a, s).
#[global] Instance state_exn_bind {S} : MBind (state_exn S) :=
  λ A B f m s,
    match m s with
    | Ok (a, s') => f a s'
    | Raise e => Raise e
    end.

Definition raise {S A} (e : exception) : state_exn S A := λ _, Raise e.

Definition is_ok {A} (r : result A) : bool :=
  match r with Ok _ => true | Raise _ => false end.

(** Python's [range(k)]: empty when [k <= 0]. *)
Definition range (k : Z) : list Z := seqZ 0 k.

Definition product (shape : list Z) : Z := foldr Z.mul 1 shape.
Definition sum_list (l : list Z) : Z := foldr Z.add 0 l.

Definition nonneg_dims (shape : list Z) : bool := forallb (λ d, 0 <=? d) shape.

(** ** NumPy arrays and the global random state *)

(** An array is its shape and its elements by flat (row-major) index. *)
Record ndarray : Type := { nd_shape : list Z; nd_data : Z → Q }.

(** The generator behind [np.random]: a stream of samples and how many of
    them have been drawn. *)
Record RandomState : Type := { rs_stream : Z → Q; rs_pos : Z }.

Module np.

(** The largest [npy_intp] of a 64-bit build: no array may have more
    bytes. *)
Definition NPY_MAX_INTP : Z := 2 ^ 63 - 1.

(** The size in bytes that array creation computes for [shape] before it
    allocates: the item size times every dimension that is not zero. *)
Definition nbytes (itemsize : Z) (shape : list Z) : Z :=
  foldr (λ d n, if bool_decide (d = 0) then n else d * n) itemsize shape.

(** Whether an array of 8-byte samples of [shape] passes the size check. *)
Definition fits (shape : list Z) : bool :=
  bool_decide (nbytes 8 shape ≤ NPY_MAX_INTP).

(** [np.random.rand(d0, ..., dn)]: fresh samples, in [shape].  A negative
    dimension is a [ValueError], and so is a shape whose size in bytes
    exceeds [NPY_MAX_INTP] ("array is too big"; a dimension of size zero does
    not lower that size).  The machine is taken to have the memory for every
    array that passes the check. *)
Definition random_rand (shape : list Z) : state_exn RandomState ndarray :=
  λ rs,
    if nonneg_dims shape && fits shape then
      Ok ({| nd_shape := shape;
             nd_data := λ i, rs_stream rs (rs_pos rs + i) |},
          {| rs_stream := rs_stream rs;
             rs_pos := rs_pos rs + product shape |})
    else Raise ValueError.

(** [a.reshape(shape)]: same elements, new shape, when the sizes agree. *)
Definition reshape (a : ndarray) (shape : list Z) : result ndarray :=
  if bool_decide (product (nd_shape a) = product shape) then
    Ok {| nd_shape := shape; nd_data := nd_data a |}
  else Raise ValueError.

End np.

(** [noise_pyramid(M, batch_size, k=5)]: the comprehension draws the levels
    for [x = 0, 1, ..., k-1] (finest first); [[::-1]] reverses the list. *)
Definition noise_pyramid (M batch_size : Z) (k : Z)
  : state_exn RandomState (list ndarray) :=
  l ← mapM (λ x, np.random_rand [batch_size; M / 2 ^ x; M / 2 ^ x; 3]) (range k);
  mret (reverse l).

(** ** The TensorFlow graph *)

(** A tensor is a handle: the index of the node that produces it. *)
Abbreviation tensor := nat.

(** The bounds [-sqrt(6.0/n)] and [sqrt(6.0/n)] of the parameter
    initialisation, kept symbolic. *)
Inductive init_bound : Type :=
| NegSqrt6Over (n : Z)
| Sqrt6Over (n : Z).

Inductive op : Type :=
| Placeholder (name : string)
| Constant (value : ndarray)
| ToFloat (x : tensor)
| RandomUniform (minval maxval : init_bound)
| Var (initial_value : tensor) (name : string)
| Conv2D (input weights biases : tensor)
| SpatialBatchNorm (input : tensor) (name : option string)
| Mul (x : tensor) (y : Q)
| Maximum (x y : tensor)
| ResizeNearestNeighbor (images : tensor) (size : list Z)
| Concat (concat_dim : Z) (values : list tensor)
| VGGNetworkNode (name : string) (images : tensor) (i1 i2 i3 : Z)
| StyleLoss (vgg : tensor) (layers : list (Z * Z)).

(** A node: the name scopes open when it was added (innermost first), the
    operation and the static shape of its output. *)
Record node : Type := { n_scope : list string; n_op : op; n_shape : list Z }.

Record graph : Type := { g_nodes : list node; g_scope : list string }.

Definition empty_graph : graph := {| g_nodes := []; g_scope := [] |}.

(** Graph construction: the default graph is the store. *)
Abbreviation build := (state_exn graph).

Definition op_of (g : graph) (t : tensor) : option op := n_op <$> (g_nodes g !! t).

(** [t.get_shape().as_list()], read off the store. *)
Definition get_shape (g : graph) (t : tensor) : list Z :=
  default [] (n_shape <$> (g_nodes g !! t)).

Definition add_node (o : op) (shape : list Z) : build tensor :=
  λ g, Ok (length (g_nodes g),
           {| g_nodes := g_nodes g ++ [{| n_scope := g_scope g; n_op := o; n_shape := shape |}];
              g_scope := g_scope g |}).

(** [with tf.get_default_graph().name_scope(name): body] *)
Definition name_scope {A} (name : string) (body : build A) : build A :=
  λ g,
    match body {| g_nodes := g_nodes g; g_scope := name :: g_scope g |} with
    | Ok (a, g') => Ok (a, {| g_nodes := g_nodes g'; g_scope := g_scope g |})
    | Raise e => Raise e
    end.

(** The shape of the concatenation along axis [d]: every input has the rank
    of the first and agrees with it off the axis; the axis sizes add up. *)
Definition concat_shape (d : nat) (shapes : list (list Z)) : option (list Z) :=
  match shapes with
  | [] => None
  | s0 :: _ =>
      if bool_decide ((d < length s0)%nat ∧ Forall (λ s, <[d:=0]> s = <[d:=0]> s0) shapes)
      then Some (<[d := sum_list ((λ s, default 0 (s !! d)) <$> shapes)]> s0)
      else None
  end.

Module tf.

Definition shape_of (t : tensor) : build (list Z) := λ g, Ok (get_shape g t, g).

(** [tf.placeholder(tf.float32, shape, name=name)] *)
Definition placeholder (shape : list Z) (name : string) : build tensor :=
  if nonneg_dims shape then add_node (Placeholder name) shape else raise ValueError.

(** [tf.constant(value)] *)
Definition constant (value : ndarray) : build tensor :=
  add_node (Constant value) (nd_shape value).

(** [tf.to_float(x)] *)
Definition to_float (x : tensor) : build tensor :=
  s ← shape_of x; add_node (ToFloat x) s.

(** [tf.random_uniform(shape, minval=, maxval=)] *)
Definition random_uniform (shape : list Z) (minval maxval : init_bound) : build tensor :=
  if nonneg_dims shape then add_node (RandomUniform minval maxval) shape
  else raise ValueError.

(** [tf.Variable(initial_value, name=name)] ([Variable] is reserved). *)
Definition variable (initial_value : tensor) (name : string) : build tensor :=
  s ← shape_of initial_value; add_node (Var initial_value name) s.

(** [tf.mul(x, y)] with a Python scalar [y]. *)
Definition mul (x : tensor) (y : Q) : build tensor :=
  s ← shape_of x; add_node (Mul x y) s.

(** [tf.maximum(x, y)]; the operands here always have one shape, so
    broadcasting between different shapes is left out as an error. *)
Definition maximum (x y : tensor) : build tensor :=
  sx ← shape_of x; sy ← shape_of y;
  if bool_decide (sx = sy) then add_node (Maximum x y) sx else raise ValueError.

(** [tf.image.resize_nearest_neighbor(images, size)]: 4-D input,
    [size = [new_height, new_width]]. *)
Definition image_resize_nearest_neighbor (images : tensor) (size : list Z) : build tensor :=
  s ← shape_of images;
  match s, size with
  | [b; _; _; c], [new_height; new_width] =>
      add_node (ResizeNearestNeighbor images size) [b; new_height; new_width; c]
  | _, _ => raise ValueError
  end.

(** [tf.concat(concat_dim, values)] *)
Definition concat (concat_dim : Z) (values : list tensor) : build tensor :=
  shapes ← mapM shape_of values;
  if bool_decide (0 ≤ concat_dim) then
    match concat_shape (Z.to_nat concat_dim) shapes with
    | Some s => add_node (Concat concat_dim values) s
    | None => raise ValueError
    end
  else raise ValueError.

End tf.

(** ** network_helpers and vgg_network: the imported helpers *)

(** Modelled from the spec: [network_helpers.conv2d] is imported but absent.
    Spec 4.2: a learned convolution, bias included, that preserves the spatial
    dimensions (same-padding) and yields the weights' output channel count.
    The input is 4-D, the weights are
    [[kernel, kernel, in_channels, out_channels]] and must match the input's
    channels, the biases are [[out_channels]]. *)
Definition conv2d (input_layer weights biases : tensor) : build tensor :=
  si ← tf.shape_of input_layer;
  sw ← tf.shape_of weights;
  sb ← tf.shape_of biases;
  match si, sw, sb with
  | [b; h; w; c], [_; _; cin; cout], [cb] =>
      if bool_decide (c = cin ∧ cb = cout)
      then add_node (Conv2D input_layer weights biases) [b; h; w; cout]
      else raise ValueError
  | _, _, _ => raise ValueError
  end.

(** Modelled from the spec: [network_helpers.spatial_batch_norm] is imported
    but absent.  Spec 4.2: per-channel normalisation over the batch and
    spatial axes; the shape is unchanged.  The optional second argument is
    the name the caller gives. *)
Definition spatial_batch_norm (input_layer : tensor) (name : option string) : build tensor :=
  s ← tf.shape_of input_layer; add_node (SpatialBatchNorm input_layer name) s.

(** Modelled from the spec: [vgg_network.VGGNetwork] is imported but absent.
    Spec 6: the Style Statistics Extractor takes a batched image tensor; it
    is a black box, recorded as one node that remembers its arguments. *)
Definition VGGNetwork (name : string) (images : tensor) (i1 i2 i3 : Z) : build tensor :=
  add_node (VGGNetworkNode name images i1 i2 i3) [].

(** Modelled from the spec: [VGGNetwork.style_loss] is absent.  Spec 4.6: a
    scalar computed from (layer-index, weight) pairs. *)
Definition style_loss (vgg : tensor) (layers : list (Z * Z)) : build tensor :=
  add_node (StyleLoss vgg layers) [].

(** ** texture_network.py: graph construction *)

(** [leaky_relu(input_layer, alpha)] *)
Definition leaky_relu (input_layer : tensor) (alpha : Q) : build tensor :=
  scaled ← tf.mul input_layer alpha;
  tf.maximum scaled input_layer.

(** The default of the parameter [k] of both pyramid functions. *)
Definition k_default : Z := 5.

(** [input_pyramid(name, M, batch_size, k=5)]: placeholders named [str(x)]
    for [x = 0 .. k-1], then [return_val.reverse()]. *)
Definition input_pyramid (name : string) (M batch_size : Z) (k : Z) : build (list tensor) :=
  name_scope name (
    return_val ← mapM (λ x, tf.placeholder [batch_size; M / 2 ^ x; M / 2 ^ x; 3] (pretty x))
                      (range k);
    mret (reverse return_val)).

(** [input_layer.get_shape().as_list()[-1]] *)
Definition last_dim (shape : list Z) : build Z :=
  match last shape with
  | Some c => mret c
  | None => raise IndexError
  end.

(** [conv_block(name, input_layer, kernel_size, out_channels)].  The float
    division [6.0/(in_channels + out_channels)] raises on a zero sum. *)
Definition conv_block (name : string) (input_layer : tensor) (kernel_size out_channels : Z)
  : build tensor :=
  name_scope name (
    shape ← tf.shape_of input_layer;
    in_channels ← last_dim shape;
    _ ← (if bool_decide (in_channels + out_channels = 0)
         then raise ZeroDivisionError else mret ());
    let low := NegSqrt6Over (in_channels + out_channels) in
    let high := Sqrt6Over (in_channels + out_channels) in
    w0 ← tf.random_uniform [kernel_size; kernel_size; in_channels; out_channels] low high;
    weights ← tf.variable w0 "weights";
    b0 ← tf.random_uniform [out_channels] low high;
    biases ← tf.variable b0 "biases";
    conv ← conv2d input_layer weights biases;
    batch_norm ← spatial_batch_norm conv None;
    relu ← leaky_relu batch_norm (1 # 100);
    mret relu).

(** [conv_chain(name, input_layer, out_channels)]; all three blocks are
    given the name ["layer1"]. *)
Definition conv_chain (name : string) (input_layer : tensor) (out_channels : Z) : build tensor :=
  name_scope name (
    block1 ← conv_block "layer1" input_layer 3 out_channels;
    block2 ← conv_block "layer1" block1 3 out_channels;
    block3 ← conv_block "layer1" block2 1 out_channels;
    mret block3).

(** [join_block(name, lower_res_layer, higher_res_layer)]; the slice
    [[1:3]] of the higher layer's shape is the target size, and the
    concatenation is added after the name scope is left. *)
Definition join_block (name : string) (lower_res_layer higher_res_layer : tensor) : build tensor :=
  '(batch_norm_lower, batch_norm_higher) ← name_scope name (
    hs ← tf.shape_of higher_res_layer;
    upsampled ← tf.image_resize_nearest_neighbor lower_res_layer (take 2 (drop 1 hs));
    batch_norm_lower ← spatial_batch_norm upsampled (Some "normLower");
    batch_norm_higher ← spatial_batch_norm higher_res_layer (Some "normHigher");
    mret (batch_norm_lower, batch_norm_higher));
  tf.concat 3 [batch_norm_lower; batch_norm_higher].

(** The class attributes of [TextureNetwork]. *)
Record TextureNetwork_class : Type := {
  inputDimension : Z;
  channelStepSize : Z;
  batchSize : Z;
  epochs : Z
}.

Definition TextureNetwork_attrs : TextureNetwork_class :=
  {| inputDimension := 224; channelStepSize := 8; batchSize := 1; epochs := 1000 |}.

(** An instance: its class, the graph it owns and the tensors [__init__]
    stores on [self]. *)
Record TextureNetwork : Type := {
  tn_class : TextureNetwork_class;
  tn_graph : graph;
  noise_inputs : list tensor;
  output : tensor;
  texture_image : tensor;
  loss : tensor
}.

(** One turn of the loop over [self.noise_inputs[1:]]; the loop state is
    [(current_channels, current_noise_aggregate)]. *)
Definition level_body (self : TextureNetwork_class) (st : Z * tensor) (noise_frame : tensor)
  : build (Z * tensor) :=
  let '(current_channels, current_noise_aggregate) := st in
  low_res_out ← conv_chain ("chain_lower_" +:+ pretty current_channels)
                           current_noise_aggregate current_channels;
  high_res_out ← conv_chain "chain_higher" noise_frame (channelStepSize self);
  let current_channels := current_channels + channelStepSize self in
  current_noise_aggregate ←
    join_block ("join_" +:+ pretty (current_channels + channelStepSize self))
               low_res_out high_res_out;
  mret (current_channels, current_noise_aggregate).

Fixpoint level_loop (self : TextureNetwork_class) (st : Z * tensor) (frames : list tensor)
  : build (Z * tensor) :=
  match frames with
  | [] => mret st
  | noise_frame :: frames' =>
      st' ← level_body self st noise_frame;
      level_loop self st' frames'
  end.

(** [self.noise_inputs[0]] *)
Definition first_item {A} (l : list A) : build A :=
  match l with
  | x :: _ => mret x
  | [] => raise IndexError
  end.

(** The first half of [__init__]: the texture network graph structure. *)
Definition build_generator (self : TextureNetwork_class) : build (list tensor * tensor) :=
  noise_inputs ← input_pyramid "noise" (inputDimension self) (batchSize self) k_default;
  let current_channels := 8 in
  current_noise_aggregate ← first_item noise_inputs;
  '(current_channels, current_noise_aggregate) ←
    level_loop self (current_channels, current_noise_aggregate) (drop 1 noise_inputs);
  final_chain ← conv_chain "output_chain" current_noise_aggregate current_channels;
  output ← conv_block "output" final_chain 1 3;
  mret (noise_inputs, output).

(** The second half of [__init__]: the style loss.  [style_img] is what
    [load_image(style_img_path)] returned; [range(1, 6)] is written out. *)
Definition build_style_loss (self : TextureNetwork_class) (style_img : ndarray) (output : tensor)
  : build (tensor * tensor * tensor) :=
  match np.reshape style_img [1; 224; 224; 3] with
  | Raise e => raise e
  | Ok img =>
      c ← tf.constant img;
      texture_image ← tf.to_float c;
      batched ← tf.concat 0 [texture_image; output; output];
      image_vgg ← VGGNetwork "image_vgg" batched 1 (batchSize self) (batchSize self);
      loss ← style_loss image_vgg ((λ i, (i, 1)) <$> seqZ 1 5);
      mret (texture_image, batched, loss)
  end.

(** [TextureNetwork.__init__(self, style_img_path)], in a fresh graph. *)
Definition TextureNetwork_init (self : TextureNetwork_class) (style_img : ndarray)
  : result TextureNetwork :=
  match (gen ← build_generator self;
         sl ← build_style_loss self style_img gen.2;
         mret (gen, sl)) empty_graph with
  | Ok ((noise_inputs, output, (texture_image, _, loss)), g) =>
      Ok {| tn_class := self; tn_graph := g; noise_inputs := noise_inputs;
            output := output; texture_image := texture_image; loss := loss |}
  | Raise e => Raise e
  end.

(** ** texture_network.py: the training loop *)

(** A byte image as [skimage.io.imsave] receives it. *)
Record uint8_array : Type := { u8_shape : list Z; u8_data : Z → Z }.

(** What the loop does to the outside world, in order. *)
Inductive event : Type :=
| TrainStepRun (feed_dict : gmap tensor ndarray)
| SaverSave (path : string)
| ImSave (path : string) (img : uint8_array).

Record world : Type := { w_random : RandomState; w_log : list event }.

Definition with_random {A} (m : state_exn RandomState A) : state_exn world A :=
  λ w,
    match m (w_random w) with
    | Ok (a, rs) => Ok (a, {| w_random := rs; w_log := w_log w |})
    | Raise e => Raise e
    end.

Definition emit (e : event) : state_exn world unit :=
  λ w, Ok ((), {| w_random := w_random w; w_log := w_log w ++ [e] |}).

Definition lift_result {S A} (r : result A) : state_exn S A :=
  λ s, match r with Ok a => Ok (a, s) | Raise e => Raise e end.

(** [for x in l: body(x)] *)
Fixpoint for_each {S A} (l : list A) (body : A → state_exn S unit) : state_exn S unit :=
  match l with
  | [] => mret ()
  | x :: l' => _ ← body x; for_each l' body
  end.

(** [np.clip(x, lo, hi)] on one element. *)
Definition np_clip (x lo hi : Q) : Q := Qmin (Qmax x lo) hi.

(** The integer part of [x], towards zero, as a C cast takes it. *)
Definition Qtruncate (x : Q) : Z := Z.quot (Qnum x) (Z.pos (Qden x)).

(** [.astype('uint8')] on one element: the fraction is dropped; a value
    outside the byte range wraps (not reached after [np_clip]). *)
Definition astype_uint8 (x : Q) : Z := Qtruncate x `mod` 256.

(** [np.clip(np.array(network_out) * 255.0, 0, 255).astype('uint8')] on one
    element; element values are exact rationals. *)
Definition img_out_pixel (v : Q) : Z := astype_uint8 (np_clip (v * 255) 0 255).

(** [for index, noise_frame in enumerate(self.noise_inputs):
       feed_dict[noise_frame] = noise[index]] *)
Fixpoint bind_feed (inputs : list tensor) (index : nat) (noise : list ndarray)
    (feed_dict : gmap tensor ndarray) : result (gmap tensor ndarray) :=
  match inputs with
  | [] => Ok feed_dict
  | noise_frame :: inputs' =>
      match noise !! index with
      | Some a => bind_feed inputs' (S index) noise (<[noise_frame := a]> feed_dict)
      | None => Raise IndexError
      end
  end.

(** Feeding a value whose shape differs from its placeholder's is refused. *)
Definition feed_ok (g : graph) (feed_dict : gmap tensor ndarray) : bool :=
  bool_decide (map_Forall (λ t a, get_shape g t = nd_shape a) feed_dict).

Section Training.

(** The session is external: [sess_run_output i] is the flattened value
    [sess.run(self.output, ...)] returns in iteration [i]. *)
Variable sess_run_output : Z → Z → Q.

(** [train_step.run(feed_dict=feed_dict)] *)
Definition train_step_run (self : TextureNetwork) (feed_dict : gmap tensor ndarray)
  : state_exn world unit :=
  if feed_ok (tn_graph self) feed_dict then emit (TrainStepRun feed_dict)
  else raise ValueError.

(** [sess.run(self.output, feed_dict=feed_dict)] *)
Definition sess_run (self : TextureNetwork) (i : Z) (feed_dict : gmap tensor ndarray)
  : state_exn world ndarray :=
  if feed_ok (tn_graph self) feed_dict then
    mret {| nd_shape := get_shape (tn_graph self) (output self);
            nd_data := sess_run_output i |}
  else raise ValueError.

(** The body of [for i in range(self.epochs)]. *)
Definition train_iteration (self : TextureNetwork) (i : Z) : state_exn world unit :=
  noise ← with_random (noise_pyramid (inputDimension (tn_class self))
                                     (batchSize (tn_class self)) k_default);
  feed_dict ← lift_result (bind_feed (noise_inputs self) 0 noise ∅);
  _ ← train_step_run self feed_dict;
  if bool_decide (0 < i) && bool_decide (i `mod` 20 = 0) then
    _ ← emit (SaverSave ("models/snapshot-" +:+ pretty i +:+ ".ckpt"));
    out ← sess_run self i feed_dict;
    network_out ← lift_result (np.reshape out [224; 224; 3]);
    let img_out := {| u8_shape := nd_shape network_out;
                      u8_data := λ p, img_out_pixel (nd_data network_out p) |} in
    emit (ImSave ("img/aa-iteration-" +:+ pretty i +:+ ".jpeg") img_out)
  else mret ().

(** [TextureNetwork.run_train(self)].  The optimizer, the saver and the
    initialisation of the variables belong to the session and leave no event
    of their own. *)
Definition run_train (self : TextureNetwork) : state_exn world unit :=
  for_each (range (epochs (tn_class self))) (train_iteration self).

End Training.

(** The files a log names. *)
Definition saved_checkpoints (log : list event) : list string :=
  omap (λ e, match e with SaverSave p => Some p | _ => None end) log.

Definition saved_images (log : list event) : list string :=
  omap (λ e, match e with ImSave p _ => Some p | _ => None end) log.

Definition train_steps (log : list event) : list (gmap tensor ndarray) :=
  omap (λ e, match e with TrainStepRun f => Some f | _ => None end) log.

(** * Specification vocabulary *)

(** ** Weakest preconditions *)

(** [wp m s Q]: from [s], [m] returns (does not raise) and [Q] holds of
    the value and the final store. *)
Definition wp {S A} (m : state_exn S A) (s : S) (Q : A → S → Prop) : Prop :=
  match m s with
  | Ok (a, s') => Q a s'
  | Raise _ => False
  end.

(** The trivial relation between stores, for loops that keep no invariant. *)
Definition any_store {S} (s s' : S) : Prop := True.

(** ** Facts about the graph store *)

(** The store only grows: every node stays where it is. *)
Definition grows (g g' : graph) : Prop := g_nodes g `prefix_of` g_nodes g'.

Definition has_shape (g : graph) (t : tensor) (s : list Z) : Prop :=
  n_shape <$> (g_nodes g !! t) = Some s.

Definition is_conv (n : node) : bool :=
  match n_op n with Conv2D _ _ _ => true | _ => false end.

(** The number of convolutions in the graph. *)
Definition conv_count (g : graph) : nat := length (List.filter is_conv (g_nodes g)).

(** The graph after [add_node]. *)
Definition snoc_node (g : graph) (o : op) (s : list Z) : graph :=
  {| g_nodes := g_nodes g ++ [{| n_scope := g_scope g; n_op := o; n_shape := s |}];
     g_scope := g_scope g |}.

(** ** Shapes and structure of what the construction code builds *)

(** The shapes both pyramid functions ask for, coarsest first. *)
Definition pyramid_shapes (M batch_size k : Z) : list (list Z) :=
  reverse ((λ x, [batch_size; M / 2 ^ x; M / 2 ^ x; 3]) <$> range k).

(** What [add_node o s] establishes, as a postcondition. *)
Definition added (g : graph) (o : op) (s : list Z) (t : tensor) (g' : graph) : Prop :=
  grows g g' ∧ has_shape g' t s ∧ op_of g' t = Some o
  ∧ conv_count g' = (conv_count g + match o with Conv2D _ _ _ => 1 | _ => 0 end)%nat.

(** [y] is the output of a convolutional block over [x]: a convolution
    with its own [k] by [k] weights from [cin] to [cout] channels and its own
    biases, then spatial batch normalisation, then leaky rectification with
    slope 0.01. *)
Definition is_conv_block (g : graph) (x : tensor) (k cin cout : Z) (y : tensor) : Prop :=
  ∃ w0 weights b0 biases conv batch_norm scaled,
    op_of g w0 = Some (RandomUniform (NegSqrt6Over (cin + cout)) (Sqrt6Over (cin + cout)))
    ∧ op_of g weights = Some (Var w0 "weights")
    ∧ has_shape g weights [k; k; cin; cout]
    ∧ op_of g b0 = Some (RandomUniform (NegSqrt6Over (cin + cout)) (Sqrt6Over (cin + cout)))
    ∧ op_of g biases = Some (Var b0 "biases")
    ∧ has_shape g biases [cout]
    ∧ op_of g conv = Some (Conv2D x weights biases)
    ∧ op_of g batch_norm = Some (SpatialBatchNorm conv None)
    ∧ op_of g scaled = Some (Mul batch_norm (1 # 100))
    ∧ op_of g y = Some (Maximum scaled batch_norm).

(** [y] is the fusion of [lower] and [higher]: [lower] resized by nearest
    neighbour to [size], each of the two normalised by a node of its own, the
    two results concatenated along axis 3. *)
Definition is_join_block (g : graph) (lower higher : tensor) (size : list Z) (y : tensor) : Prop :=
  ∃ upsampled batch_norm_lower batch_norm_higher,
    op_of g upsampled = Some (ResizeNearestNeighbor lower size)
    ∧ op_of g batch_norm_lower = Some (SpatialBatchNorm upsampled (Some "normLower"))
    ∧ op_of g batch_norm_higher = Some (SpatialBatchNorm higher (Some "normHigher"))
    ∧ batch_norm_lower ≠ batch_norm_higher
    ∧ op_of g y = Some (Concat 3 [batch_norm_lower; batch_norm_higher]).

(** [y] is the output of a convolutional chain over [x]: three blocks in
    sequence with kernels 3, 3 and 1, all with [cout] output channels. *)
Definition is_conv_chain (g : graph) (x : tensor) (cin cout : Z) (y : tensor) : Prop :=
  ∃ block1 block2,
    is_conv_block g x 3 cin cout block1
    ∧ is_conv_block g block1 3 cout cout block2
    ∧ is_conv_block g block2 1 cout cout y.

(** [agg'] is what one level makes of the aggregate [agg] and the noise
    frame [frame]: a chain of declared width [cc] over [agg], a chain of
    declared width [step] over [frame], and the fusion of the two. *)
Definition is_level (g : graph) (agg frame : tensor) (cc step : Z) (agg' : tensor) : Prop :=
  ∃ low_res_out high_res_out cin cin' b h w h' w',
    is_conv_chain g agg cin cc low_res_out
    ∧ is_conv_chain g frame cin' step high_res_out
    ∧ has_shape g low_res_out [b; h; w; cc]
    ∧ has_shape g high_res_out [b; h'; w'; step]
    ∧ is_join_block g low_res_out high_res_out [h'; w'] agg'
    ∧ has_shape g agg' [b; h'; w'; cc + step].

(** The texture sample has as many elements as a 1 x 224 x 224 x 3 batch. *)
Definition style_img_fits (style_img : ndarray) : Prop :=
  product (nd_shape style_img) = 1 * 224 * 224 * 3.

(** [batched] is the extractor's input and [l] the loss computed from it. *)
Definition is_style_loss (g : graph) (self : TextureNetwork_class) (style_img : ndarray)
    (output texture batched l : tensor) : Prop :=
  ∃ img c vgg,
    np.reshape style_img [1; 224; 224; 3] = Ok img
    ∧ op_of g c = Some (Constant img)
    ∧ op_of g texture = Some (ToFloat c)
    ∧ op_of g batched = Some (Concat 0 [texture; output; output])
    ∧ op_of g vgg = Some (VGGNetworkNode "image_vgg" batched 1 (batchSize self) (batchSize self))
    ∧ op_of g l = Some (StyleLoss vgg [(1, 1); (2, 1); (3, 1); (4, 1); (5, 1)]).

(** ** What the training loop writes *)

(** A checkpoint and an image are written in iteration [i]. *)
Definition due (i : Z) : Prop := 0 < i ∧ i `mod` 20 = 0.

#[global] Instance due_dec i : Decision (due i).
Proof. unfold due. apply _. Defined.

Definition checkpoint_path (i : Z) : string := "models/snapshot-" +:+ pretty i +:+ ".ckpt".
Definition image_path (i : Z) : string := "img/aa-iteration-" +:+ pretty i +:+ ".jpeg".

(** The image written in iteration [i], from the session's output. *)
Definition exported_image (sess_run_output : Z → Z → Q) (i : Z) : uint8_array :=
  {| u8_shape := [224; 224; 3]; u8_data := λ p, img_out_pixel (sess_run_output i p) |}.

(** The events of iteration [i], given the feed it built. *)
Definition iteration_events (sess_run_output : Z → Z → Q) (i : Z)
    (feed_dict : gmap tensor ndarray) : list event :=
  TrainStepRun feed_dict ::
  (if decide (due i)
   then [SaverSave (checkpoint_path i); ImSave (image_path i) (exported_image sess_run_output i)]
   else []).

(** An instance as [__init__] leaves it for the class constants 224 and 1. *)
Definition trainable (net : TextureNetwork) : Prop :=
  inputDimension (tn_class net) = 224 ∧ batchSize (tn_class net) = 1
  ∧ Forall2 (has_shape (tn_graph net)) (noise_inputs net) (pyramid_shapes 224 1 k_default)
  ∧ has_shape (tn_graph net) (output net) [1; 224; 224; 3].

(** Every image in the log was exported from the session's output of the
    iteration its path names. *)
Definition images_exported (sess_run_output : Z → Z → Q) (log : list event) : Prop :=
  ∀ path img, ImSave path img ∈ log →
    ∃ i, due i ∧ path = image_path i ∧ img = exported_image sess_run_output i.

(** ** Class variants and concrete inputs *)

Definition TextureNetwork_with_epochs (E : Z) : TextureNetwork_class :=
  {| inputDimension := inputDimension TextureNetwork_attrs;
     channelStepSize := channelStepSize TextureNetwork_attrs;
     batchSize := batchSize TextureNetwork_attrs;
     epochs := E |}.

Definition fresh_world (rs : RandomState) : world := {| w_random := rs; w_log := [] |}.

(** A texture sample of the expected size, all zero, and a random stream and a
    session that only return zero: concrete inputs to run the model on. *)
Definition blank_style_img : ndarray := {| nd_shape := [224; 224; 3]; nd_data := λ _, 0%Q |}.
Definition zero_random : RandomState := {| rs_stream := λ _, 0%Q; rs_pos := 0 |}.
Definition zero_session : Z → Z → Q := λ _ _, 0%Q.

(** A random stream whose samples are pairwise different and lie in [0, 1):
    sample [i] is [1 / (i + 2)]. *)
Definition harmonic_random : RandomState :=
  {| rs_stream := λ i, 1 # Z.to_pos (i + 2); rs_pos := 0 |}.

(** The graph after [input_pyramid] with the class constants, where the
    level loop starts. *)
Definition default_inputs : list tensor * graph :=
  match input_pyramid "noise" 224 1 k_default empty_graph with
  | Ok r => r
  | Raise _ => ([], empty_graph)
  end.

(** The class with another target size. *)
Definition TextureNetwork_with_dimension (M : Z) : TextureNetwork_class :=
  {| inputDimension := M;
     channelStepSize := channelStepSize TextureNetwork_attrs;
     batchSize := batchSize TextureNetwork_attrs;
     epochs := epochs TextureNetwork_attrs |}.

(** What a run leaves behind: the number of training steps and the
    checkpoint and image files written. *)
Definition run_files (sess_run_output : Z → Z → Q) (self : TextureNetwork_class)
    (style_img : ndarray) (rs : RandomState) : option (nat * list string * list string) :=
  match TextureNetwork_init self style_img with
  | Ok net =>
      match run_train sess_run_output net (fresh_world rs) with
      | Ok (_, w) =>
          Some (length (train_steps (w_log w)), saved_checkpoints (w_log w),
                saved_images (w_log w))
      | Raise _ => None
      end
  | Raise _ => None
  end.

(** ** The export in the words of the spec *)

(** The nearest integer, halves upwards. *)
Definition Qround_nearest (x : Q) : Z := Qfloor (x + (1 # 2)).

(** The export as the claim words it: the value clipped to [0, 255], then
    rounded. *)
Definition clip_and_round (v : Q) : Z := Qround_nearest (np_clip v 0 255).

(** * Vocabulary of the further properties *)

(** ** Random samples drawn by the pyramid *)

(** The number of elements of level [x], the array drawn for [M // 2**x]. *)
Definition level_elems (M batch_size x : Z) : Z :=
  product [batch_size; M / 2 ^ x; M / 2 ^ x; 3].

(** The number of samples drawn for the levels [m, m+1, ..., m+n-1]. *)
Definition drawn_from (M batch_size m n : Z) : Z :=
  sum_list (level_elems M batch_size <$> seqZ m n).

(** The number of samples drawn for the levels [0 .. n-1]. *)
Definition drawn (M batch_size n : Z) : Z := drawn_from M batch_size 0 n.

(** The random state after [n] more samples. *)
Definition advance (rs : RandomState) (n : Z) : RandomState :=
  {| rs_stream := rs_stream rs; rs_pos := rs_pos rs + n |}.

(** The placeholder node [input_pyramid] adds for level [x]. *)
Definition placeholder_node (sc : list string) (M batch_size x : Z) : node :=
  {| n_scope := sc; n_op := Placeholder (pretty x);
     n_shape := [batch_size; M / 2 ^ x; M / 2 ^ x; 3] |}.

(** ** The training loop, iteration by iteration *)

(** An instance as [__init__] leaves it for the target size 224 and any
    batch size of which NumPy can hold the noise: the placeholders are the
    first five nodes, coarsest first. *)
Definition constructed (net : TextureNetwork) : Prop :=
  inputDimension (tn_class net) = 224
  ∧ (0 ≤ batchSize (tn_class net)
     ∧ np.fits [batchSize (tn_class net); 224; 224; 3] = true)
  ∧ noise_inputs net = [4; 3; 2; 1; 0]%nat
  ∧ Forall2 (has_shape (tn_graph net)) (noise_inputs net)
            (pyramid_shapes 224 (batchSize (tn_class net)) k_default)
  ∧ has_shape (tn_graph net) (output net) [batchSize (tn_class net); 224; 224; 3].

(** [feed_dict] binds the placeholder of every level [x] (the node [x]) to
    an array of that level's shape, filled with the samples that follow
    position [rs_pos rs + drawn 224 B x] of the stream. *)
Definition fed (rs : RandomState) (B : Z) (feed_dict : gmap tensor ndarray) : Prop :=
  ∀ x, 0 ≤ x < 5 →
    ∃ a, feed_dict !! Z.to_nat x = Some a
         ∧ nd_shape a = [B; 224 / 2 ^ x; 224 / 2 ^ x; 3]
         ∧ ∀ p, nd_data a p = rs_stream rs (rs_pos rs + drawn 224 B x + p).

(** The log of the iterations [steps], given the feed of each. *)
Definition run_events (sess_run_output : Z → Z → Q) (steps : list Z)
    (feeds : list (gmap tensor ndarray)) : list event :=
  concat (zip_with (iteration_events sess_run_output) steps feeds).

(** The class with another batch size (the source notes 16 for the paper). *)
Definition TextureNetwork_with_batch (B : Z) : TextureNetwork_class :=
  {| inputDimension := inputDimension TextureNetwork_attrs;
     channelStepSize := channelStepSize TextureNetwork_attrs;
     batchSize := B;
     epochs := epochs TextureNetwork_attrs |}.

(** The class with another channel step. *)
Definition TextureNetwork_with_step (step : Z) : TextureNetwork_class :=
  {| inputDimension := inputDimension TextureNetwork_attrs;
     channelStepSize := step;
     batchSize := batchSize TextureNetwork_attrs;
     epochs := epochs TextureNetwork_attrs |}.

(** The error a channel step that is not positive ends in. *)
Definition step_error (step : Z) : exception :=
  if decide (step = 0 ∨ step = -3) then ZeroDivisionError else ValueError.

(** ** Values of elementwise nodes *)

(** The value of one element of the tensor [t], when the element at the
    same position of [input] is [v] and [t] is computed from [input] by
    [tf.mul] with a scalar and [tf.maximum] only.  TensorFlow computes in
    float32: [fl] is the rounding of a real number to the float that stands
    for it; the scalar is rounded when it becomes a constant, the product is
    rounded, the larger of two floats is one of them.  Finite values only.
    [fuel] bounds the depth of the expression. *)
Fixpoint elem_value (fl : Q → Q) (fuel : nat) (g : graph) (input : tensor) (v : Q)
    (t : tensor) : option Q :=
  if decide (t = input) then Some v
  else
    match fuel with
    | O => None
    | S fuel' =>
        match op_of g t with
        | Some (Mul x y) => (λ a, fl (a * fl y))%Q <$> elem_value fl fuel' g input v x
        | Some (Maximum x y) =>
            match elem_value fl fuel' g input v x, elem_value fl fuel' g input v y with
            | Some a, Some b => Some (Qmax a b)
            | _, _ => None
            end
        | _ => None
        end
    end.

(** A rounding to run the model on: to the nearest multiple of [2^-24]. *)
Definition round_to_grid (q : Q) : Q :=
  Qfloor (q * 16777216 + (1 # 2)) # 16777216.

(** ** Nodes and variables a block adds *)

(** The nodes [conv_block] adds to a graph of [n] nodes, for an input [x] of
    shape [[b; h; w; c]], in the order of the calls in the source. *)
Definition conv_block_nodes (sc : list string) (n : nat) (x : tensor) (b h w c k out : Z)
  : list node :=
  let low := NegSqrt6Over (c + out) in
  let high := Sqrt6Over (c + out) in
  [ {| n_scope := sc; n_op := RandomUniform low high; n_shape := [k; k; c; out] |};
    {| n_scope := sc; n_op := Var n "weights"; n_shape := [k; k; c; out] |};
    {| n_scope := sc; n_op := RandomUniform low high; n_shape := [out] |};
    {| n_scope := sc; n_op := Var (n + 2) "biases"; n_shape := [out] |};
    {| n_scope := sc; n_op := Conv2D x (n + 1) (n + 3); n_shape := [b; h; w; out] |};
    {| n_scope := sc; n_op := SpatialBatchNorm (n + 4) None; n_shape := [b; h; w; out] |};
    {| n_scope := sc; n_op := Mul (n + 5) (1 # 100); n_shape := [b; h; w; out] |};
    {| n_scope := sc; n_op := Maximum (n + 6) (n + 5); n_shape := [b; h; w; out] |} ].

(** [v] is a variable named [name] of shape [s]. *)
Definition is_variable (g : graph) (v : tensor) (name : string) (s : list Z) : Prop :=
  (∃ initial_value, op_of g v = Some (Var initial_value name)) ∧ has_shape g v s.

(** The nodes [conv_chain] adds to a graph of [n] nodes, for an input [x] of
    shape [[b; h; w; c]]: those of its three blocks. *)
Definition conv_chain_nodes (sc : list string) (n : nat) (x : tensor) (b h w c out : Z)
  : list node :=
  conv_block_nodes ("layer1" :: sc) n x b h w c 3 out
  ++ conv_block_nodes ("layer1" :: sc) (n + 8) (n + 7) b h w out 3 out
  ++ conv_block_nodes ("layer1" :: sc) (n + 16) (n + 15) b h w out 1 out.

(** * Lemmas *)

(** ** Rules of the weakest precondition *)

Lemma wp_ret {S A} (a : A) (s : S) Q : Q a s → wp (mret a) s Q.
Proof. done. Qed.

Lemma wp_bind {S A B} (m : state_exn S A) (f : A → state_exn S B) s Q :
  wp m s (λ a s', wp (f a) s' Q) → wp (m ≫= f) s Q.
Proof.
  unfold wp, mbind, state_exn_bind. by destruct (m s) as [[a s']|e].
Qed.

Lemma wp_mono {S A} (m : state_exn S A) s (Q Q' : A → S → Prop) :
  wp m s Q → (∀ a s', Q a s' → Q' a s') → wp m s Q'.
Proof.
  unfold wp. destruct (m s) as [[a s']|e]; [|done]. intros HQ HQ'. by apply HQ'.
Qed.

Lemma wp_elim {S A} (m : state_exn S A) s Q :
  wp m s Q → ∃ a s', m s = Ok (a, s') ∧ Q a s'.
Proof.
  unfold wp. destruct (m s) as [[a s']|e]; [|done]. intros HQ. by exists a, s'.
Qed.

Lemma wp_intro {S A} (m : state_exn S A) s (Q : A → S → Prop) a s' :
  m s = Ok (a, s') → Q a s' → wp m s Q.
Proof. unfold wp. by intros ->. Qed.

(** [mapM] keeps a preorder [R] on stores and collects a stable fact [P]
    about every element. *)
Lemma wp_mapM {S A B} (f : A → state_exn S B) (R : S → S → Prop)
    (P : A → B → S → Prop) (l : list A) (s : S) :
  PreOrder R →
  (∀ x y s1 s2, P x y s1 → R s1 s2 → P x y s2) →
  (∀ x s0, x ∈ l → R s s0 → wp (f x) s0 (λ y s1, R s0 s1 ∧ P x y s1)) →
  wp (mapM f l) s (λ ys s', R s s' ∧ Forall2 (λ x y, P x y s') l ys).
Proof.
  intros HR Hstable. revert s. induction l as [|x l IH]; intros s Hf.
  - apply wp_ret. split; [reflexivity | constructor].
  - cbn [mapM]. apply wp_bind.
    eapply wp_mono; [apply Hf; [left | reflexivity]|].
    intros y s1 [HR1 HP]. apply wp_bind.
    eapply wp_mono.
    { apply IH. intros x' s0 Hx' HR'. apply Hf; [by right | by etrans]. }
    intros ys s2 [HR2 HF]. apply wp_ret. split; [by etrans|].
    constructor; [by eapply Hstable | done].
Qed.

#[global] Instance any_store_preorder {S} : PreOrder (@any_store S).
Proof. by split. Qed.

#[global] Instance grows_preorder : PreOrder grows.
Proof.
  split.
  - intros g. unfold grows. reflexivity.
  - intros g1 g2 g3. unfold grows. by etrans.
Qed.

(** ** The graph only grows *)

Lemma has_shape_get_shape g t s : has_shape g t s → get_shape g t = s.
Proof. unfold has_shape, get_shape. by intros ->. Qed.

Lemma get_shape_has_shape g t d s : get_shape g t = d :: s → has_shape g t (d :: s).
Proof.
  unfold has_shape, get_shape. destruct (g_nodes g !! t) as [n|]; simpl; [|done].
  by intros ->.
Qed.

Lemma has_shape_grows g g' t s : has_shape g t s → grows g g' → has_shape g' t s.
Proof.
  unfold has_shape, grows. intros Hs Hg.
  destruct (g_nodes g !! t) as [n|] eqn:Hn; [|done].
  by rewrite (prefix_lookup_Some _ _ _ _ Hn Hg).
Qed.

Lemma op_of_grows g g' t o : op_of g t = Some o → grows g g' → op_of g' t = Some o.
Proof.
  unfold op_of, grows. intros Ho Hg.
  destruct (g_nodes g !! t) as [n|] eqn:Hn; [|done].
  by rewrite (prefix_lookup_Some _ _ _ _ Hn Hg).
Qed.

Lemma snoc_node_grows g o s : grows g (snoc_node g o s).
Proof. by apply prefix_app_r. Qed.

Lemma snoc_node_has_shape g o s : has_shape (snoc_node g o s) (length (g_nodes g)) s.
Proof. unfold has_shape, snoc_node. simpl. by rewrite list_lookup_middle. Qed.

Lemma snoc_node_op_of g o s : op_of (snoc_node g o s) (length (g_nodes g)) = Some o.
Proof. unfold op_of, snoc_node. simpl. by rewrite list_lookup_middle. Qed.

Lemma snoc_node_conv_count g o s :
  conv_count (snoc_node g o s)
  = (conv_count g + match o with Conv2D _ _ _ => 1 | _ => 0 end)%nat.
Proof.
  unfold conv_count, snoc_node. simpl. rewrite List.filter_app, length_app.
  f_equal. unfold is_conv. simpl. by destruct o.
Qed.

(** The four facts every added node brings. *)
Lemma wp_add_node o s g (Q : tensor → graph → Prop) :
  (∀ t g', grows g g' → has_shape g' t s → op_of g' t = Some o →
           conv_count g' = (conv_count g + match o with Conv2D _ _ _ => 1 | _ => 0 end)%nat →
           g_scope g' = g_scope g → Q t g') →
  wp (add_node o s) g Q.
Proof.
  intros HQ. unfold wp, add_node. apply HQ.
  - apply snoc_node_grows.
  - apply snoc_node_has_shape.
  - apply snoc_node_op_of.
  - apply snoc_node_conv_count.
  - done.
Qed.

Lemma wp_shape_of t g (Q : list Z → graph → Prop) :
  Q (get_shape g t) g → wp (tf.shape_of t) g Q.
Proof. done. Qed.

Lemma wp_name_scope {A} name (body : build A) g (Q : A → graph → Prop) :
  wp body {| g_nodes := g_nodes g; g_scope := name :: g_scope g |}
     (λ a g', Q a {| g_nodes := g_nodes g'; g_scope := g_scope g |}) →
  wp (name_scope name body) g Q.
Proof.
  unfold wp, name_scope.
  by destruct (body _) as [[a g']|e].
Qed.

(** ** The pyramids *)

Lemma Forall2_fmap_eq {A B C} (f : B → C) (h : A → C) (l1 : list A) (l2 : list B) :
  Forall2 (λ x y, f y = h x) l1 l2 → f <$> l2 = h <$> l1.
Proof. induction 1 as [|x y l1 l2 Hxy _ IH]; [done|]. csimpl. by rewrite Hxy, IH. Qed.

Lemma pyramid_shapes_length M B k : length (pyramid_shapes M B k) = Z.to_nat k.
Proof. unfold pyramid_shapes, range. by rewrite length_reverse, length_fmap, length_seqZ. Qed.

Lemma pyramid_shapes_lookup M B k j :
  0 ≤ j < k →
  pyramid_shapes M B k !! Z.to_nat j
  = Some [B; M / 2 ^ (k - 1 - j); M / 2 ^ (k - 1 - j); 3].
Proof.
  intros Hj. unfold pyramid_shapes, range.
  rewrite reverse_lookup by (rewrite length_fmap, length_seqZ; lia).
  rewrite length_fmap, length_seqZ, list_lookup_fmap.
  replace (Z.to_nat k - S (Z.to_nat j))%nat with (Z.to_nat (k - 1 - j)) by lia.
  rewrite lookup_seqZ_lt by lia. simpl.
  by rewrite Z2Nat.id by lia.
Qed.

Lemma nonneg_dims_pyramid M B x :
  0 ≤ M → 0 ≤ B → 0 ≤ x → nonneg_dims [B; M / 2 ^ x; M / 2 ^ x; 3] = true.
Proof.
  intros HM HB Hx. unfold nonneg_dims. simpl.
  assert (0 ≤ M / 2 ^ x) by (apply Z.div_pos; [done | by apply Z.pow_pos_nonneg]).
  repeat (apply andb_true_intro; split); try done; by apply Z.leb_le.
Qed.

Lemma nbytes_cons_mono d d' n n' :
  0 ≤ d ≤ d' → 0 < n ≤ n' →
  0 < (if bool_decide (d = 0) then n else d * n)
    ≤ (if bool_decide (d' = 0) then n' else d' * n').
Proof. intros Hd Hn. repeat case_bool_decide; nia. Qed.

(** The finest level is the largest: when it passes NumPy's size check,
    every level does. *)
Lemma fits_pyramid M B x :
  0 ≤ M → 0 ≤ B → 0 ≤ x → np.fits [B; M; M; 3] = true →
  np.fits [B; M / 2 ^ x; M / 2 ^ x; 3] = true.
Proof.
  intros HM HB Hx Hfits.
  assert (0 < 2 ^ x) as Hpow by (by apply Z.pow_pos_nonneg).
  assert (0 ≤ M / 2 ^ x ≤ M) as Hs.
  { split; [by apply Z.div_pos|]. apply Z.div_le_upper_bound; [done|]. nia. }
  unfold np.fits in *. apply bool_decide_eq_true. apply bool_decide_eq_true in Hfits.
  etrans; [|exact Hfits]. unfold np.nbytes. cbn [foldr].
  apply nbytes_cons_mono; [lia|].
  apply nbytes_cons_mono; [lia|].
  apply nbytes_cons_mono; [lia|].
  apply nbytes_cons_mono; lia.
Qed.

Lemma random_rand_ok shape rs :
  nonneg_dims shape = true → np.fits shape = true →
  np.random_rand shape rs
  = Ok ({| nd_shape := shape; nd_data := λ i, rs_stream rs (rs_pos rs + i) |},
        {| rs_stream := rs_stream rs; rs_pos := rs_pos rs + product shape |}).
Proof. intros Hd Hf. unfold np.random_rand. by rewrite Hd, Hf. Qed.

Lemma noise_pyramid_shapes M B k rs :
  0 ≤ M → 0 ≤ B → np.fits [B; M; M; 3] = true →
  wp (noise_pyramid M B k) rs (λ arrs _, nd_shape <$> arrs = pyramid_shapes M B k).
Proof.
  intros HM HB Hfits. unfold noise_pyramid. apply wp_bind.
  eapply wp_mono.
  { apply (wp_mapM _ any_store (λ x a _, nd_shape a = [B; M / 2 ^ x; M / 2 ^ x; 3])).
    - apply _.
    - done.
    - intros x s0 Hx _. unfold range in Hx. apply elem_of_seqZ in Hx.
      unfold wp. rewrite random_rand_ok; [done | | ].
      + apply nonneg_dims_pyramid; lia.
      + apply fits_pyramid; (done || lia). }
  intros l rs' [_ HF]. apply wp_ret.
  unfold pyramid_shapes. rewrite fmap_reverse. f_equal.
  by apply Forall2_fmap_eq.
Qed.

Lemma input_pyramid_shapes name M B k g :
  0 ≤ M → 0 ≤ B →
  wp (input_pyramid name M B k) g
     (λ phs g', grows g g' ∧ Forall2 (has_shape g') phs (pyramid_shapes M B k)
                ∧ conv_count g' = conv_count g).
Proof.
  intros HM HB. unfold input_pyramid. apply wp_name_scope, wp_bind.
  eapply wp_mono.
  { apply (wp_mapM _ (λ g1 g2, grows g1 g2 ∧ conv_count g2 = conv_count g1)
             (λ x t g', has_shape g' t [B; M / 2 ^ x; M / 2 ^ x; 3])).
    - split; [done|]. intros g1 g2 g3 [? ?] [? ?]. split; [by etrans | congruence].
    - intros x t g1 g2 Hs [Hg _]. by eapply has_shape_grows.
    - intros x g0 Hx _. unfold range in Hx. apply elem_of_seqZ in Hx.
      unfold tf.placeholder. rewrite nonneg_dims_pyramid by lia.
      apply wp_add_node. intros t g' Hg Hs _ Hc _. repeat split; try done.
      by rewrite Hc, Nat.add_0_r. }
  intros l g' [[Hg Hc] HF]. apply wp_ret. split; [done|]. split; [|done].
  unfold pyramid_shapes. apply Forall2_reverse. apply Forall2_fmap_r.
  eapply Forall2_flip, Forall2_impl; [apply HF|]. done.
Qed.

Lemma nonneg_dims_pyramid_neg M B x :
  0 ≤ x → ¬ (0 ≤ M ∧ 0 ≤ B) → nonneg_dims [B; M / 2 ^ x; M / 2 ^ x; 3] = false.
Proof.
  intros Hx Hneg. unfold nonneg_dims. simpl.
  destruct (Z.leb_spec 0 B) as [HB|HB]; [|done]. simpl.
  assert (M / 2 ^ x < 0) as Hlt.
  { apply Z.div_lt_upper_bound; [by apply Z.pow_pos_nonneg | lia]. }
  by destruct (Z.leb_spec 0 (M / 2 ^ x)) as [?|_]; [lia|].
Qed.

Lemma noise_pyramid_raises M B k rs :
  1 ≤ k → ¬ (0 ≤ M ∧ 0 ≤ B) → noise_pyramid M B k rs = Raise ValueError.
Proof.
  intros Hk Hneg. unfold noise_pyramid, range. rewrite seqZ_cons by lia.
  unfold mbind, state_exn_bind. cbn [mapM]. unfold mbind, state_exn_bind, np.random_rand.
  by rewrite nonneg_dims_pyramid_neg.
Qed.

Lemma input_pyramid_raises name M B k g :
  1 ≤ k → ¬ (0 ≤ M ∧ 0 ≤ B) → input_pyramid name M B k g = Raise ValueError.
Proof.
  intros Hk Hneg. unfold input_pyramid, name_scope, range. rewrite seqZ_cons by lia.
  unfold mbind, state_exn_bind. cbn [mapM]. unfold mbind, state_exn_bind, tf.placeholder.
  by rewrite nonneg_dims_pyramid_neg.
Qed.

Lemma noise_pyramid_too_big M B k rs :
  1 ≤ k → np.fits [B; M; M; 3] = false → noise_pyramid M B k rs = Raise ValueError.
Proof.
  intros Hk Hbig. unfold noise_pyramid, range. rewrite seqZ_cons by lia.
  unfold mbind, state_exn_bind. cbn [mapM]. unfold mbind, state_exn_bind, np.random_rand.
  rewrite Z.pow_0_r, Z.div_1_r, Hbig. by rewrite andb_false_r.
Qed.

(** What [noise_pyramid] returns has the shapes asked for. *)
Lemma mapM_random_rand_shapes (f : Z → list Z) (l : list Z) : ∀ rs arrs rs',
  mapM (λ x, np.random_rand (f x)) l rs = Ok (arrs, rs') → nd_shape <$> arrs = f <$> l.
Proof.
  induction l as [|x l IH]; intros rs arrs rs' E.
  - injection E as <- _. reflexivity.
  - cbn [mapM] in E. unfold mbind, state_exn_bind in E.
    unfold np.random_rand at 1 in E.
    destruct (nonneg_dims (f x) && np.fits (f x)); [|discriminate E].
    match type of E with
    | context [mapM ?h l ?st] =>
        destruct (mapM h l st) as [[arrs' rs'']|e] eqn:El; [|discriminate E]
    end.
    injection E as <- _. csimpl. f_equal. by eapply IH.
Qed.

Lemma noise_pyramid_returns M B k rs noise rs' :
  noise_pyramid M B k rs = Ok (noise, rs') →
  nd_shape <$> noise = pyramid_shapes M B k
  ∧ (1 ≤ k → 0 ≤ M ∧ 0 ≤ B ∧ np.fits [B; M; M; 3] = true).
Proof.
  intros E. split.
  - unfold noise_pyramid, mbind, state_exn_bind in E.
    match type of E with
    | context [mapM ?h (range k) rs] =>
        destruct (mapM h (range k) rs) as [[l rs1]|e] eqn:El; [|discriminate E]
    end.
    injection E as <- _. unfold pyramid_shapes. rewrite fmap_reverse. f_equal.
    exact (mapM_random_rand_shapes (λ x, [B; M / 2 ^ x; M / 2 ^ x; 3]) _ _ _ _ El).
  - intros Hk.
    destruct (decide (0 ≤ M ∧ 0 ≤ B)) as [[HM HB]|Hneg].
    + split; [exact HM|]. split; [exact HB|].
      destruct (np.fits [B; M; M; 3]) eqn:Hf; [reflexivity|].
      rewrite noise_pyramid_too_big in E by done. discriminate E.
    + rewrite noise_pyramid_raises in E by done. discriminate E.
Qed.

Lemma pyramids_empty name M B k g rs :
  k ≤ 0 →
  noise_pyramid M B k rs = Ok ([], rs) ∧ input_pyramid name M B k g = Ok ([], g).
Proof.
  intros Hk. unfold noise_pyramid, input_pyramid, name_scope, range.
  rewrite seqZ_nil by done. split; [done|]. simpl. by destruct g.
Qed.

(** Index-wise binding of shape-consistent arrays gives a feed that
    [train_step.run] accepts. *)
Lemma bind_feed_ok g noise inputs : ∀ (index : nat) feed_dict,
  (∀ j p, inputs !! j = Some p →
          ∃ a, noise !! (index + j)%nat = Some a ∧ get_shape g p = nd_shape a) →
  map_Forall (λ t a, get_shape g t = nd_shape a) feed_dict →
  ∃ feed', bind_feed inputs index noise feed_dict = Ok feed'
           ∧ map_Forall (λ t a, get_shape g t = nd_shape a) feed'.
Proof.
  induction inputs as [|p inputs IH]; intros index feed_dict Hin Hfeed.
  - by exists feed_dict.
  - simpl. destruct (Hin 0%nat p eq_refl) as (a & Ha & Hpa).
    rewrite Nat.add_0_r in Ha. rewrite Ha. apply IH.
    + intros j q Hq. destruct (Hin (S j) q Hq) as (b & Hb & Hqb).
      exists b. split; [|done]. by rewrite <- Hb, Nat.add_succ_r.
    + by apply map_Forall_insert_2.
Qed.

Lemma bind_feed_Forall2 g noise inputs :
  Forall2 (λ p a, get_shape g p = nd_shape a) inputs noise →
  ∃ feed, bind_feed inputs 0 noise ∅ = Ok feed ∧ feed_ok g feed = true.
Proof.
  intros HF.
  destruct (bind_feed_ok g noise inputs 0 ∅) as (feed & Hfeed & Hok).
  - intros j p Hp. destruct (Forall2_lookup_l _ _ _ _ _ HF Hp) as (a & Ha & Hpa).
    by exists a.
  - apply map_Forall_empty.
  - exists feed. split; [done|]. unfold feed_ok. by apply bool_decide_eq_true.
Qed.

Lemma pyramids_agree name M B k g rs phs g' noise rs' :
  0 ≤ M → 0 ≤ B →
  input_pyramid name M B k g = Ok (phs, g') →
  noise_pyramid M B k rs = Ok (noise, rs') →
  Forall2 (λ p a, get_shape g' p = nd_shape a) phs noise.
Proof.
  intros HM HB Hin Hnoise.
  pose proof (input_pyramid_shapes name M B k g HM HB) as Hwp1.
  destruct (noise_pyramid_returns _ _ _ _ _ _ Hnoise) as [Hwp2 _].
  unfold wp in Hwp1. rewrite Hin in Hwp1.
  destruct Hwp1 as (_ & HF & _).
  rewrite <- Hwp2 in HF. rewrite Forall2_fmap_r in HF.
  eapply Forall2_impl; [apply HF|]. intros p a Hpa. simpl in Hpa.
  by apply has_shape_get_shape.
Qed.

(** Both pyramids, with the sizes written as floor quotients. *)
Lemma pyramids_ok name M B K g rs :
  0 ≤ M → 0 ≤ B → np.fits [B; M; M; 3] = true →
  ∃ noise rs' phs g',
    noise_pyramid M B K rs = Ok (noise, rs')
    ∧ input_pyramid name M B K g = Ok (phs, g')
    ∧ length noise = Z.to_nat K ∧ length phs = Z.to_nat K
    ∧ ∀ j, 0 ≤ j < K →
        nd_shape <$> (noise !! Z.to_nat j)
          = Some [B; M / 2 ^ (K - 1 - j); M / 2 ^ (K - 1 - j); 3]
        ∧ get_shape g' <$> (phs !! Z.to_nat j)
          = Some [B; M / 2 ^ (K - 1 - j); M / 2 ^ (K - 1 - j); 3].
Proof.
  intros HM HB Hfits.
  destruct (wp_elim _ _ _ (noise_pyramid_shapes M B K rs HM HB Hfits))
    as (noise & rs' & Hn & Hns).
  destruct (wp_elim _ _ _ (input_pyramid_shapes name M B K g HM HB))
    as (phs & g' & Hp & _ & Hps & _).
  exists noise, rs', phs, g'. repeat split; try done.
  - by rewrite <- (length_fmap nd_shape), Hns, pyramid_shapes_length.
  - by rewrite (Forall2_length _ _ _ Hps), pyramid_shapes_length.
  - by rewrite <- list_lookup_fmap, Hns, pyramid_shapes_lookup.
  - destruct (Forall2_lookup_r _ _ _ _ _ Hps (pyramid_shapes_lookup M B K j H))
      as (p & Hpj & Hsh).
    rewrite Hpj. simpl. f_equal. by apply has_shape_get_shape.
Qed.

(** ** Blocks, chains and joins *)

Lemma is_conv_block_grows g g' x k cin cout y :
  is_conv_block g x k cin cout y → grows g g' → is_conv_block g' x k cin cout y.
Proof.
  intros (w0 & weights & b0 & biases & conv & bn & scaled & H) Hg.
  exists w0, weights, b0, biases, conv, bn, scaled.
  repeat match goal with H : _ ∧ _ |- _ => destruct H end.
  repeat split; eauto using op_of_grows, has_shape_grows.
Qed.

Lemma is_join_block_grows g g' lower higher size y :
  is_join_block g lower higher size y → grows g g' → is_join_block g' lower higher size y.
Proof.
  intros (up & bl & bh & H) Hg. exists up, bl, bh.
  repeat match goal with H : _ ∧ _ |- _ => destruct H end.
  repeat split; eauto using op_of_grows.
Qed.

Lemma wp_added o s g : wp (add_node o s) g (added g o s).
Proof. apply wp_add_node. intros t g' ? ? ? ? _. by repeat split. Qed.

(** Run the next statement by its specification [lem]. *)
Ltac wp_next lem := apply wp_bind; eapply wp_mono; [eapply lem|].

(** Carry every known fact over to the grown graph. *)
Ltac carry Hg :=
  repeat match goal with
    | H : has_shape ?g0 _ _ |- _ =>
        lazymatch type of Hg with grows g0 _ => apply (λ H', has_shape_grows _ _ _ _ H' Hg) in H end
    | H : op_of ?g0 _ = Some _ |- _ =>
        lazymatch type of Hg with grows g0 _ => apply (λ H', op_of_grows _ _ _ _ H' Hg) in H end
    | H : is_conv_block ?g0 _ _ _ _ _ |- _ =>
        lazymatch type of Hg with grows g0 _ =>
          apply (λ H', is_conv_block_grows _ _ _ _ _ _ _ H' Hg) in H end
    | H : is_join_block ?g0 _ _ _ _ |- _ =>
        lazymatch type of Hg with grows g0 _ =>
          apply (λ H', is_join_block_grows _ _ _ _ _ _ H' Hg) in H end
    | H : grows ?g1 ?g0 |- _ =>
        lazymatch type of Hg with grows g0 ?g2 =>
          assert (grows g1 g2) by (etrans; [exact H | exact Hg]); clear H end
    end.

Lemma wp_random_uniform shape lo hi g :
  nonneg_dims shape = true →
  wp (tf.random_uniform shape lo hi) g (added g (RandomUniform lo hi) shape).
Proof. intros Hs. unfold tf.random_uniform. rewrite Hs. apply wp_added. Qed.

Lemma wp_variable init name s g :
  has_shape g init s → wp (tf.variable init name) g (added g (Var init name) s).
Proof.
  intros Hs. unfold tf.variable. apply wp_bind, wp_shape_of.
  rewrite (has_shape_get_shape _ _ _ Hs). apply wp_added.
Qed.

Lemma wp_mul x y s g :
  has_shape g x s → wp (tf.mul x y) g (added g (Mul x y) s).
Proof.
  intros Hs. unfold tf.mul. apply wp_bind, wp_shape_of.
  rewrite (has_shape_get_shape _ _ _ Hs). apply wp_added.
Qed.

Lemma wp_maximum x y s g :
  has_shape g x s → has_shape g y s → wp (tf.maximum x y) g (added g (Maximum x y) s).
Proof.
  intros Hx Hy. unfold tf.maximum. apply wp_bind, wp_shape_of, wp_bind, wp_shape_of.
  rewrite (has_shape_get_shape _ _ _ Hx), (has_shape_get_shape _ _ _ Hy).
  rewrite bool_decide_eq_true_2 by done. apply wp_added.
Qed.

Lemma wp_spatial_batch_norm x name s g :
  has_shape g x s →
  wp (spatial_batch_norm x name) g (added g (SpatialBatchNorm x name) s).
Proof.
  intros Hs. unfold spatial_batch_norm. apply wp_bind, wp_shape_of.
  rewrite (has_shape_get_shape _ _ _ Hs). apply wp_added.
Qed.

Lemma wp_conv2d x weights biases g b h w c k1 k2 cout :
  has_shape g x [b; h; w; c] → has_shape g weights [k1; k2; c; cout] →
  has_shape g biases [cout] →
  wp (conv2d x weights biases) g (added g (Conv2D x weights biases) [b; h; w; cout]).
Proof.
  intros Hx Hw Hb. unfold conv2d.
  apply wp_bind, wp_shape_of, wp_bind, wp_shape_of, wp_bind, wp_shape_of.
  rewrite (has_shape_get_shape _ _ _ Hx), (has_shape_get_shape _ _ _ Hw),
    (has_shape_get_shape _ _ _ Hb).
  rewrite bool_decide_eq_true_2 by done. apply wp_added.
Qed.

Lemma wp_resize_nearest_neighbor x new_height new_width g b h w c :
  has_shape g x [b; h; w; c] →
  wp (tf.image_resize_nearest_neighbor x [new_height; new_width]) g
     (added g (ResizeNearestNeighbor x [new_height; new_width]) [b; new_height; new_width; c]).
Proof.
  intros Hx. unfold tf.image_resize_nearest_neighbor. apply wp_bind, wp_shape_of.
  rewrite (has_shape_get_shape _ _ _ Hx). apply wp_added.
Qed.

Lemma wp_leaky_relu x alpha s g :
  has_shape g x s →
  wp (leaky_relu x alpha) g
     (λ y g', ∃ scaled, grows g g' ∧ has_shape g' y s
                        ∧ op_of g' scaled = Some (Mul x alpha)
                        ∧ op_of g' y = Some (Maximum scaled x)
                        ∧ conv_count g' = conv_count g).
Proof.
  intros Hx. unfold leaky_relu.
  wp_next wp_mul; [exact Hx|]. intros scaled g1 (Hg1 & Hs1 & Ho1 & Hc1). carry Hg1.
  eapply wp_mono; [by eapply wp_maximum|].
  intros y g2 (Hg2 & Hs2 & Ho2 & Hc2). carry Hg2.
  exists scaled. repeat split; try done. lia.
Qed.

Lemma conv_block_spec name x k out g b h w c :
  has_shape g x [b; h; w; c] → 0 ≤ k → 0 ≤ c → 0 < out →
  wp (conv_block name x k out) g
     (λ y g', grows g g' ∧ has_shape g' y [b; h; w; out]
              ∧ is_conv_block g' x k c out y
              ∧ conv_count g' = S (conv_count g)).
Proof.
  intros Hx Hk Hc Hout. unfold conv_block. apply wp_name_scope.
  set (g0 := {| g_nodes := g_nodes g; g_scope := name :: g_scope g |}).
  assert (grows g g0) as Hg0 by (unfold grows; reflexivity).
  assert (conv_count g0 = conv_count g) as Hc0 by done.
  carry Hg0.
  apply wp_bind, wp_shape_of. rewrite (has_shape_get_shape _ _ _ Hx).
  apply wp_bind. unfold last_dim. simpl last. apply wp_ret.
  apply wp_bind. rewrite bool_decide_eq_false_2 by lia. apply wp_ret.
  wp_next wp_random_uniform.
  { unfold nonneg_dims. simpl. repeat (apply andb_true_intro; split); try done;
      apply Z.leb_le; lia. }
  intros w0 g1 (Hg1 & Hs1 & Ho1 & Hc1). carry Hg1.
  wp_next wp_variable; [exact Hs1|].
  intros weights g2 (Hg2 & Hs2 & Ho2 & Hc2). carry Hg2.
  wp_next wp_random_uniform.
  { unfold nonneg_dims. simpl. repeat (apply andb_true_intro; split); try done;
      apply Z.leb_le; lia. }
  intros b0 g3 (Hg3 & Hs3 & Ho3 & Hc3). carry Hg3.
  wp_next wp_variable; [exact Hs3|].
  intros biases g4 (Hg4 & Hs4 & Ho4 & Hc4). carry Hg4.
  wp_next wp_conv2d; [exact Hx | exact Hs2 | exact Hs4 |].
  intros conv g5 (Hg5 & Hs5 & Ho5 & Hc5). carry Hg5.
  wp_next wp_spatial_batch_norm; [exact Hs5|].
  intros bn g6 (Hg6 & Hs6 & Ho6 & Hc6). carry Hg6.
  wp_next wp_leaky_relu; [exact Hs6|].
  intros relu g7 (scaled & Hg7 & Hs7 & Ho7 & Ho7' & Hc7). carry Hg7.
  apply wp_ret. split; [done|]. split; [exact Hs7|]. split.
  - exists w0, weights, b0, biases, conv, bn, scaled. by repeat split.
  - change (conv_count g7 = S (conv_count g)). lia.
Qed.

Lemma is_conv_chain_grows g g' x cin cout y :
  is_conv_chain g x cin cout y → grows g g' → is_conv_chain g' x cin cout y.
Proof.
  intros (b1 & b2 & H1 & H2 & H3) Hg. exists b1, b2.
  repeat split; by eapply is_conv_block_grows.
Qed.

Lemma conv_chain_spec name x out g b h w c :
  has_shape g x [b; h; w; c] → 0 ≤ c → 0 < out →
  wp (conv_chain name x out) g
     (λ y g', grows g g' ∧ has_shape g' y [b; h; w; out]
              ∧ is_conv_chain g' x c out y
              ∧ conv_count g' = (conv_count g + 3)%nat).
Proof.
  intros Hx Hc Hout. unfold conv_chain. apply wp_name_scope.
  set (g0 := {| g_nodes := g_nodes g; g_scope := name :: g_scope g |}).
  assert (grows g g0) as Hg0 by (unfold grows; reflexivity).
  assert (conv_count g0 = conv_count g) as Hc0 by done.
  carry Hg0.
  wp_next conv_block_spec; [exact Hx | lia.. |].
  intros block1 g1 (Hg1 & Hs1 & Hb1 & Hc1). carry Hg1.
  wp_next conv_block_spec; [exact Hs1 | lia.. |].
  intros block2 g2 (Hg2 & Hs2 & Hb2 & Hc2). carry Hg2.
  wp_next conv_block_spec; [exact Hs2 | lia.. |].
  intros block3 g3 (Hg3 & Hs3 & Hb3 & Hc3). carry Hg3.
  apply wp_ret. split; [done|]. split; [exact Hs3|]. split.
  - by exists block1, block2.
  - change (conv_count g3 = (conv_count g + 3)%nat). lia.
Qed.

Lemma wp_concat_channels x y g b h w c1 c2 :
  has_shape g x [b; h; w; c1] → has_shape g y [b; h; w; c2] →
  wp (tf.concat 3 [x; y]) g (added g (Concat 3 [x; y]) [b; h; w; c1 + c2]).
Proof.
  intros Hx Hy. apply wp_bind.
  apply (wp_intro _ _ _ [[b; h; w; c1]; [b; h; w; c2]] g).
  { unfold mapM, mbind, state_exn_bind, tf.shape_of, mret, state_exn_ret.
    by rewrite (has_shape_get_shape _ _ _ Hx), (has_shape_get_shape _ _ _ Hy). }
  rewrite bool_decide_eq_true_2 by done.
  unfold concat_shape. rewrite bool_decide_eq_true_2.
  - simpl. rewrite Z.add_0_r. apply wp_added.
  - split; [simpl; lia|]. by repeat constructor.
Qed.

Lemma wp_concat_batch x y z g b1 b2 b3 h w c :
  has_shape g x [b1; h; w; c] → has_shape g y [b2; h; w; c] → has_shape g z [b3; h; w; c] →
  wp (tf.concat 0 [x; y; z]) g (added g (Concat 0 [x; y; z]) [b1 + (b2 + b3); h; w; c]).
Proof.
  intros Hx Hy Hz. apply wp_bind.
  apply (wp_intro _ _ _ [[b1; h; w; c]; [b2; h; w; c]; [b3; h; w; c]] g).
  { unfold mapM, mbind, state_exn_bind, tf.shape_of, mret, state_exn_ret.
    by rewrite (has_shape_get_shape _ _ _ Hx), (has_shape_get_shape _ _ _ Hy),
         (has_shape_get_shape _ _ _ Hz). }
  rewrite bool_decide_eq_true_2 by done.
  unfold concat_shape. rewrite bool_decide_eq_true_2.
  - simpl. rewrite Z.add_0_r. apply wp_added.
  - split; [simpl; lia|]. by repeat constructor.
Qed.

Lemma join_block_spec name lower higher g b h1 w1 c1 h2 w2 c2 :
  has_shape g lower [b; h1; w1; c1] → has_shape g higher [b; h2; w2; c2] →
  wp (join_block name lower higher) g
     (λ y g', grows g g' ∧ has_shape g' y [b; h2; w2; c1 + c2]
              ∧ is_join_block g' lower higher [h2; w2] y
              ∧ conv_count g' = conv_count g).
Proof.
  intros Hlo Hhi. unfold join_block. apply wp_bind, wp_name_scope.
  set (g0 := {| g_nodes := g_nodes g; g_scope := name :: g_scope g |}).
  assert (grows g g0) as Hg0 by (unfold grows; reflexivity).
  assert (conv_count g0 = conv_count g) as Hc0 by done.
  carry Hg0.
  apply wp_bind, wp_shape_of. rewrite (has_shape_get_shape _ _ _ Hhi).
  simpl (take _ _).
  wp_next wp_resize_nearest_neighbor; [exact Hlo|].
  intros up g1 (Hg1 & Hs1 & Ho1 & Hc1). carry Hg1.
  wp_next wp_spatial_batch_norm; [exact Hs1|].
  intros bl g2 (Hg2 & Hs2 & Ho2 & Hc2). carry Hg2.
  wp_next wp_spatial_batch_norm; [exact Hhi|].
  intros bh g3 (Hg3 & Hs3 & Ho3 & Hc3). carry Hg3.
  apply wp_ret.
  set (g4 := {| g_nodes := g_nodes g3; g_scope := g_scope g |}).
  assert (grows g3 g4) as Hg4 by (unfold grows; reflexivity).
  assert (conv_count g4 = conv_count g3) as Hc4 by done.
  carry Hg4.
  eapply wp_mono; [by eapply wp_concat_channels|].
  intros y g5 (Hg5 & Hs5 & Ho5 & Hc5). carry Hg5.
  split; [done|]. split; [exact Hs5|]. split; [|lia].
  exists up, bl, bh. repeat split; try done.
  intros ->. congruence.
Qed.

(** ** The level loop of the generator *)

Lemma has_shape_inj g t s1 s2 : has_shape g t s1 → has_shape g t s2 → s1 = s2.
Proof. unfold has_shape. congruence. Qed.

Lemma level_body_spec self cc agg frame g b h w c h' w' c' :
  has_shape g agg [b; h; w; c] → has_shape g frame [b; h'; w'; c'] →
  0 ≤ c → 0 ≤ c' → 0 < cc → 0 < channelStepSize self →
  wp (level_body self (cc, agg) frame) g
     (λ st g', grows g g' ∧ st.1 = cc + channelStepSize self
               ∧ has_shape g' st.2 [b; h'; w'; cc + channelStepSize self]
               ∧ is_level g' agg frame cc (channelStepSize self) st.2
               ∧ conv_count g' = (conv_count g + 6)%nat).
Proof.
  intros Hagg Hframe Hc Hc' Hcc Hstep. unfold level_body.
  assert (grows g g) as Hg0 by reflexivity.
  wp_next conv_chain_spec; [exact Hagg | lia.. |].
  intros lo g1 (Hg1 & Hs1 & Hch1 & Hn1). carry Hg1.
  wp_next conv_chain_spec; [exact Hframe | lia.. |].
  intros hi g2 (Hg2 & Hs2 & Hch2 & Hn2).
  pose proof (is_conv_chain_grows _ _ _ _ _ _ Hch1 Hg2) as Hch1'. clear Hch1.
  carry Hg2.
  wp_next join_block_spec; [exact Hs1 | exact Hs2 |].
  intros y g3 (Hg3 & Hs3 & Hj3 & Hn3).
  pose proof (is_conv_chain_grows _ _ _ _ _ _ Hch1' Hg3) as Hch1.
  pose proof (is_conv_chain_grows _ _ _ _ _ _ Hch2 Hg3) as Hch2'.
  carry Hg3.
  apply wp_ret. simpl. split; [done|]. split; [done|]. split; [done|]. split; [|lia].
  exists lo, hi, c, c', b, h, w, h', w'. by repeat split.
Qed.

Lemma level_loop_snoc self st frames f g :
  level_loop self st (frames ++ [f]) g
  = (st' ← level_loop self st frames; level_body self st' f) g.
Proof.
  revert st g. induction frames as [|f0 frames IH]; intros st g.
  - simpl. unfold mbind, state_exn_bind. simpl.
    by destruct (level_body self st f g) as [[? ?]|?].
  - simpl. unfold mbind, state_exn_bind.
    destruct (level_body self st f0 g) as [[st1 g1]|e]; [|done].
    rewrite IH. done.
Qed.

Lemma level_loop_spec self frames : ∀ g cc agg b h w c,
  0 < channelStepSize self → 0 < cc → 0 ≤ c →
  has_shape g agg [b; h; w; c] →
  Forall (λ f, ∃ h' w' c', has_shape g f [b; h'; w'; c'] ∧ 0 ≤ c') frames →
  wp (level_loop self (cc, agg) frames) g
     (λ st g',
        grows g g'
        ∧ st.1 = cc + channelStepSize self * Z.of_nat (length frames)
        ∧ (∃ hh ww ch, has_shape g' st.2 [b; hh; ww; ch] ∧ 0 ≤ ch
             ∧ (frames ≠ [] → ch = st.1)
             ∧ ∀ f h' w' c', last frames = Some f → has_shape g f [b; h'; w'; c'] →
                             hh = h' ∧ ww = w')
        ∧ conv_count g' = (conv_count g + 6 * length frames)%nat).
Proof.
  induction frames as [|f frames IH]; intros g cc agg b h w c Hstep Hcc Hc Hagg Hfr.
  - apply wp_ret. simpl. split; [reflexivity|]. split; [lia|]. split; [|lia].
    exists h, w, c. by repeat split.
  - apply Forall_cons in Hfr as [(h' & w' & c' & Hf & Hc') Hfr].
    cbn [level_loop]. wp_next level_body_spec; [exact Hagg | exact Hf | lia.. |].
    intros [cc1 agg1] g1 (Hg1 & Hcc1 & Hs1 & _ & Hn1). simpl in Hcc1, Hs1. subst cc1.
    destruct frames as [|f2 frames].
    { apply wp_ret. simpl. split; [done|]. split; [lia|]. split; [|lia].
      exists h', w', (cc + channelStepSize self). split; [done|]. split; [lia|].
      split; [intros _; lia|].
      intros f3 h3 w3 c3 Hl Hf3. injection Hl as <-.
      pose proof (has_shape_inj _ _ _ _ Hf Hf3) as Heq. by injection Heq as <- <- <-. }
    eapply wp_mono.
    { apply (IH g1 _ agg1 b h' w' (cc + channelStepSize self)); [lia.. | exact Hs1 |].
      eapply Forall_impl; [exact Hfr|]. intros f' (h2 & w2 & c2 & Hf' & Hc2).
      exists h2, w2, c2. split; [by eapply has_shape_grows | done]. }
    intros [cc2 agg2] g2 (Hg2 & Hcc2 & (hh & ww & ch & Hs2 & Hch & Hne & Hlast) & Hn2).
    simpl in Hcc2, Hs2, Hne, Hn2. simpl fst. simpl snd.
    split; [by etrans|]. split; [rewrite Hcc2, !length_cons; lia|].
    split; [|rewrite Hn2, !length_cons; lia].
    exists hh, ww, ch. split; [done|]. split; [done|]. split.
    + intros _. by apply Hne.
    + intros f3 h3 w3 c3 Hl Hf3.
      eapply (Hlast f3 h3 w3 c3); [done|]. by eapply has_shape_grows.
Qed.

(** ** The generator as a whole *)

Lemma pyramid_shapes_default M B :
  pyramid_shapes M B k_default
  = [[B; M / 2 ^ 4; M / 2 ^ 4; 3]; [B; M / 2 ^ 3; M / 2 ^ 3; 3];
     [B; M / 2 ^ 2; M / 2 ^ 2; 3]; [B; M / 2 ^ 1; M / 2 ^ 1; 3];
     [B; M / 2 ^ 0; M / 2 ^ 0; 3]].
Proof. reflexivity. Qed.

(** The stages of the first half of [__init__], each with its result. *)
Lemma build_generator_stages self g :
  0 ≤ inputDimension self → 0 ≤ batchSize self → 0 < channelStepSize self →
  ∃ noise_inputs g1 first cc agg g2 final_chain g3 output g4,
    input_pyramid "noise" (inputDimension self) (batchSize self) k_default g
      = Ok (noise_inputs, g1)
    ∧ noise_inputs !! 0%nat = Some first
    ∧ level_loop self (8, first) (drop 1 noise_inputs) g1 = Ok ((cc, agg), g2)
    ∧ cc = 8 + 4 * channelStepSize self
    ∧ conv_chain "output_chain" agg cc g2 = Ok (final_chain, g3)
    ∧ conv_block "output" final_chain 1 3 g3 = Ok (output, g4)
    ∧ build_generator self g = Ok ((noise_inputs, output), g4)
    ∧ grows g g4
    ∧ Forall2 (has_shape g4) noise_inputs
              (pyramid_shapes (inputDimension self) (batchSize self) k_default)
    ∧ has_shape g4 agg [batchSize self; inputDimension self; inputDimension self; cc]
    ∧ is_conv_chain g4 agg cc cc final_chain
    ∧ has_shape g4 final_chain [batchSize self; inputDimension self; inputDimension self; cc]
    ∧ is_conv_block g4 final_chain 1 cc 3 output
    ∧ has_shape g4 output [batchSize self; inputDimension self; inputDimension self; 3]
    ∧ conv_count g4 = (conv_count g + 28)%nat.
Proof.
  intros HM HB Hstep.
  destruct (wp_elim _ _ _ (input_pyramid_shapes "noise" _ _ k_default g HM HB))
    as (phs & g1 & E1 & Hg1 & Hphs & Hn1).
  rewrite pyramid_shapes_default in Hphs.
  destruct phs as [|p4 [|p3 [|p2 [|p1 [|p0 [|]]]]]];
    try (apply Forall2_length in Hphs; discriminate Hphs).
  repeat match goal with
         | H : Forall2 _ (_ :: _) (_ :: _) |- _ => apply Forall2_cons in H as [? H]
         end.
  assert (Forall (λ f, ∃ h' w' c', has_shape g1 f [batchSize self; h'; w'; c'] ∧ 0 ≤ c')
                 [p3; p2; p1; p0]) as Hframes.
  { repeat constructor; eexists _, _, _; (split; [eassumption | lia]). }
  destruct (wp_elim _ _ _ (level_loop_spec self [p3; p2; p1; p0] g1 8 p4 _ _ _ 3
                             Hstep ltac:(lia) ltac:(lia) ltac:(eassumption) Hframes))
    as ([cc agg] & g2 & E2 & Hg2 & Hcc & (hh & ww & ch & Hagg & Hch & Hne & Hlast) & Hn2).
  simpl in Hcc, Hagg, Hne, Hn2.
  specialize (Hne ltac:(done)). subst ch.
  destruct (Hlast p0 _ _ _ eq_refl ltac:(eassumption)) as [-> ->].
  rewrite Z.pow_0_r, Z.div_1_r in Hagg.
  destruct (wp_elim _ _ _ (conv_chain_spec "output_chain" agg cc g2 _ _ _ _
                             Hagg ltac:(lia) ltac:(lia)))
    as (fc & g3 & E3 & Hg3 & Hfc & Hchain & Hn3).
  destruct (wp_elim _ _ _ (conv_block_spec "output" fc 1 3 g3 _ _ _ _
                             Hfc ltac:(lia) ltac:(lia) ltac:(lia)))
    as (out & g4 & E4 & Hg4 & Hout & Hblock & Hn4).
  exists [p4; p3; p2; p1; p0], g1, p4, cc, agg, g2, fc, g3, out, g4.
  split; [exact E1|]. split; [done|]. split; [exact E2|]. split; [lia|].
  split; [exact E3|]. split; [exact E4|]. split.
  { unfold build_generator, mbind, state_exn_bind. rewrite E1. simpl.
    change (level_loop self (8, p4) [p3; p2; p1; p0] g1) with
      (level_loop self (8, p4) (drop 1 [p4; p3; p2; p1; p0]) g1) in E2.
    simpl in E2. rewrite E2, E3, E4. done. }
  assert (grows g1 g4) as Hg14 by (etrans; [exact Hg2|]; etrans; [exact Hg3 | exact Hg4]).
  split; [by etrans|]. split.
  { rewrite pyramid_shapes_default. repeat constructor; by eapply has_shape_grows. }
  split; [eapply has_shape_grows; [exact Hagg | by etrans]|].
  split; [by eapply is_conv_chain_grows|].
  split; [by eapply has_shape_grows|].
  split; [done|]. split; [done|]. lia.
Qed.

(** ** The style loss half of [__init__] *)

Lemma wp_constant value g :
  wp (tf.constant value) g (added g (Constant value) (nd_shape value)).
Proof. apply wp_added. Qed.

Lemma wp_to_float x s g :
  has_shape g x s → wp (tf.to_float x) g (added g (ToFloat x) s).
Proof.
  intros Hs. unfold tf.to_float. apply wp_bind, wp_shape_of.
  rewrite (has_shape_get_shape _ _ _ Hs). apply wp_added.
Qed.

Lemma build_style_loss_spec self style_img output g b :
  style_img_fits style_img → has_shape g output [b; 224; 224; 3] →
  wp (build_style_loss self style_img output) g
     (λ r g', grows g g'
              ∧ has_shape g' r.1.1 [1; 224; 224; 3]
              ∧ has_shape g' r.1.2 [1 + (b + b); 224; 224; 3]
              ∧ is_style_loss g' self style_img output r.1.1 r.1.2 r.2
              ∧ conv_count g' = conv_count g).
Proof.
  intros Himg Hout. unfold build_style_loss, np.reshape.
  rewrite bool_decide_eq_true_2 by exact Himg.
  set (img := {| nd_shape := [1; 224; 224; 3]; nd_data := nd_data style_img |}).
  assert (grows g g) as Hg0 by reflexivity.
  wp_next wp_constant. intros c g1 (Hg1 & Hs1 & Ho1 & Hn1). carry Hg1.
  wp_next wp_to_float; [exact Hs1|]. intros t g2 (Hg2 & Hs2 & Ho2 & Hn2). carry Hg2.
  wp_next wp_concat_batch; [exact Hs2 | exact Hout | exact Hout |].
  intros batched g3 (Hg3 & Hs3 & Ho3 & Hn3). carry Hg3.
  wp_next wp_added. intros vgg g4 (Hg4 & Hs4 & Ho4 & Hn4). carry Hg4.
  wp_next wp_added. intros l g5 (Hg5 & Hs5 & Ho5 & Hn5). carry Hg5.
  apply wp_ret. simpl. split; [done|]. split; [done|]. split; [done|]. split; [|lia].
  exists img, c, vgg. repeat split; try done.
  unfold np.reshape. by rewrite bool_decide_eq_true_2 by exact Himg.
Qed.

(** What [__init__] leaves on [self] for a 224-pixel class. *)
Lemma TextureNetwork_init_spec self style_img :
  inputDimension self = 224 → 0 ≤ batchSize self → 0 < channelStepSize self →
  style_img_fits style_img →
  ∃ net batched,
    TextureNetwork_init self style_img = Ok net
    ∧ tn_class net = self
    ∧ Forall2 (has_shape (tn_graph net)) (noise_inputs net)
              (pyramid_shapes 224 (batchSize self) k_default)
    ∧ has_shape (tn_graph net) (output net) [batchSize self; 224; 224; 3]
    ∧ has_shape (tn_graph net) (texture_image net) [1; 224; 224; 3]
    ∧ has_shape (tn_graph net) batched [1 + (batchSize self + batchSize self); 224; 224; 3]
    ∧ is_style_loss (tn_graph net) self style_img (output net) (texture_image net)
                    batched (loss net).
Proof.
  intros HM HB Hstep Himg.
  destruct (build_generator_stages self empty_graph ltac:(lia) HB Hstep)
    as (phs & g1 & p & cc & agg & g2 & fc & g3 & out & g4 & _ & _ & _ & _ & _ & _
        & Egen & _ & Hphs & _ & _ & _ & _ & Hout & _).
  rewrite HM in Hphs, Hout.
  destruct (wp_elim _ _ _ (build_style_loss_spec self style_img out g4 _ Himg Hout))
    as ([[t batched] l] & g5 & Eloss & Hg5 & Ht & Hb & Hsl & _).
  simpl in Ht, Hb, Hsl.
  exists {| tn_class := self; tn_graph := g5; noise_inputs := phs; output := out;
            texture_image := t; loss := l |}, batched.
  split.
  { unfold TextureNetwork_init, mbind, state_exn_bind. rewrite Egen. simpl.
    by rewrite Eloss. }
  simpl. split; [done|]. split.
  { eapply Forall2_impl; [exact Hphs|]. intros ? ? ?. by eapply has_shape_grows. }
  split; [by eapply has_shape_grows|]. done.
Qed.

(** ** The training loop *)

Lemma wp_with_random {A} (m : state_exn RandomState A) w (Q : A → world → Prop) :
  wp m (w_random w) (λ a rs, Q a {| w_random := rs; w_log := w_log w |}) →
  wp (with_random m) w Q.
Proof. unfold wp, with_random. by destruct (m (w_random w)) as [[a rs]|e]. Qed.

Lemma wp_emit e w (Q : unit → world → Prop) :
  Q () {| w_random := w_random w; w_log := w_log w ++ [e] |} → wp (emit e) w Q.
Proof. done. Qed.

Lemma wp_lift_result {S A} (r : result A) a (s : S) (Q : A → S → Prop) :
  r = Ok a → Q a s → wp (lift_result r) s Q.
Proof. by intros ->. Qed.

Lemma train_iteration_spec sess_run_output net i w :
  trainable net →
  wp (train_iteration sess_run_output net i) w
     (λ _ w', ∃ feed_dict,
        feed_ok (tn_graph net) feed_dict = true
        ∧ w_log w' = w_log w ++ iteration_events sess_run_output i feed_dict).
Proof.
  intros (HM & HB & Hin & Hout). unfold train_iteration. rewrite HM, HB.
  apply wp_bind, wp_with_random.
  eapply wp_mono; [apply noise_pyramid_shapes; (lia || reflexivity)|].
  intros noise rs Hnoise. simpl.
  destruct (bind_feed_Forall2 (tn_graph net) noise (noise_inputs net))
    as (feed & Efeed & Hfeed).
  { rewrite <- Hnoise in Hin. rewrite Forall2_fmap_r in Hin.
    eapply Forall2_impl; [exact Hin|]. intros p a Hpa. by apply has_shape_get_shape. }
  apply wp_bind. eapply wp_lift_result; [exact Efeed|].
  apply wp_bind. unfold train_step_run. rewrite Hfeed. apply wp_emit.
  unfold iteration_events, due.
  destruct (decide (0 < i ∧ i `mod` 20 = 0)) as [[Hpos Hmod]|Hnot].
  - rewrite !bool_decide_eq_true_2 by done. simpl.
    apply wp_bind, wp_emit. apply wp_bind. unfold sess_run. rewrite Hfeed.
    apply wp_ret. rewrite (has_shape_get_shape _ _ _ Hout).
    apply wp_bind. eapply wp_lift_result; [reflexivity|].
    apply wp_emit. exists feed. split; [done|]. simpl.
    by rewrite <- !app_assoc.
  - assert (bool_decide (0 < i) && bool_decide (i `mod` 20 = 0) = false) as ->.
    { apply andb_false_iff.
      destruct (decide (0 < i)); [right | left]; apply bool_decide_eq_false_2; tauto. }
    apply wp_ret. exists feed. by split.
Qed.

Lemma saved_checkpoints_events sess_run_output i feed_dict :
  saved_checkpoints (iteration_events sess_run_output i feed_dict)
  = checkpoint_path <$> filter due [i].
Proof.
  unfold iteration_events. rewrite filter_cons, filter_nil.
  by destruct (decide (due i)).
Qed.

Lemma saved_images_events sess_run_output i feed_dict :
  saved_images (iteration_events sess_run_output i feed_dict)
  = image_path <$> filter due [i].
Proof.
  unfold iteration_events. rewrite filter_cons, filter_nil.
  by destruct (decide (due i)).
Qed.

Lemma train_steps_events sess_run_output i feed_dict :
  length (train_steps (iteration_events sess_run_output i feed_dict)) = 1%nat.
Proof. unfold iteration_events. by destruct (decide (due i)). Qed.

Lemma saved_checkpoints_app l1 l2 :
  saved_checkpoints (l1 ++ l2) = saved_checkpoints l1 ++ saved_checkpoints l2.
Proof. apply omap_app. Qed.

Lemma saved_images_app l1 l2 :
  saved_images (l1 ++ l2) = saved_images l1 ++ saved_images l2.
Proof. apply omap_app. Qed.

Lemma train_steps_app l1 l2 : train_steps (l1 ++ l2) = train_steps l1 ++ train_steps l2.
Proof. apply omap_app. Qed.

Lemma for_each_train_spec sess_run_output net steps : ∀ w,
  trainable net →
  wp (for_each steps (train_iteration sess_run_output net)) w
     (λ _ w',
        saved_checkpoints (w_log w')
          = saved_checkpoints (w_log w) ++ (checkpoint_path <$> filter due steps)
        ∧ saved_images (w_log w')
          = saved_images (w_log w) ++ (image_path <$> filter due steps)
        ∧ length (train_steps (w_log w'))
          = (length (train_steps (w_log w)) + length steps)%nat
        ∧ (images_exported sess_run_output (w_log w) →
           images_exported sess_run_output (w_log w'))).
Proof.
  induction steps as [|i steps IH]; intros w Hnet.
  - apply wp_ret. rewrite filter_nil, !app_nil_r. simpl. by rewrite Nat.add_0_r.
  - cbn [for_each]. wp_next train_iteration_spec; [exact Hnet|].
    intros [] w1 (feed & _ & Hlog1).
    eapply wp_mono; [by apply IH|].
    intros [] w2 (Hck & Him & Hts & Hex). rewrite Hlog1 in Hck, Him, Hts, Hex.
    rewrite saved_checkpoints_app, saved_checkpoints_events in Hck.
    rewrite saved_images_app, saved_images_events in Him.
    rewrite train_steps_app, length_app, train_steps_events in Hts.
    replace (filter due (i :: steps)) with (filter due [i] ++ filter due steps)
      by (by rewrite <- filter_app).
    rewrite !fmap_app, !app_assoc. split; [done|]. split; [done|].
    split; [simpl; lia|].
    intros Hw. apply Hex. intros path img Hin.
    apply elem_of_app in Hin as [Hin|Hin]; [by apply Hw|].
    unfold iteration_events in Hin.
    destruct (decide (due i)) as [Hdue|Hdue].
    + apply elem_of_cons in Hin as [Hin|Hin]; [done|].
      apply elem_of_cons in Hin as [Hin|Hin]; [done|].
      apply list_elem_of_singleton in Hin. injection Hin as -> ->. by exists i.
    + apply list_elem_of_singleton in Hin. done.
Qed.

(** ** Export of a pixel *)

Lemma np_clip_range x : (0 <= np_clip x 0 255)%Q ∧ (np_clip x 0 255 <= 255)%Q.
Proof.
  unfold np_clip. split.
  - apply Q.min_glb; [apply Q.le_max_r | done].
  - apply Q.le_min_r.
Qed.

Lemma Qtruncate_nonneg x : (0 <= x)%Q → Qtruncate x = Qfloor x.
Proof.
  destruct x as [n d]. unfold Qle, Qtruncate, Qfloor. simpl. intros Hn.
  apply Z.quot_div_nonneg; lia.
Qed.

Lemma img_out_pixel_floor v : img_out_pixel v = Qfloor (np_clip (v * 255) 0 255).
Proof.
  unfold img_out_pixel, astype_uint8.
  destruct (np_clip_range (v * 255)) as [Hlo Hhi].
  rewrite Qtruncate_nonneg by done.
  apply Qfloor_resp_le in Hlo, Hhi.
  change (Qfloor 0) with 0 in Hlo. change (Qfloor 255) with 255 in Hhi.
  apply Z.mod_small. lia.
Qed.

Lemma img_out_pixel_range v : 0 ≤ img_out_pixel v ≤ 255.
Proof.
  rewrite img_out_pixel_floor.
  destruct (np_clip_range (v * 255)) as [Hlo Hhi].
  apply Qfloor_resp_le in Hlo, Hhi.
  change (Qfloor 0) with 0 in Hlo. change (Qfloor 255) with 255 in Hhi. lia.
Qed.

(** ** Construction followed by training *)

Lemma init_trainable self style_img :
  inputDimension self = 224 → batchSize self = 1 → 0 < channelStepSize self →
  style_img_fits style_img →
  ∃ net, TextureNetwork_init self style_img = Ok net ∧ tn_class net = self ∧ trainable net.
Proof.
  intros HM HB Hstep Himg.
  destruct (TextureNetwork_init_spec self style_img HM ltac:(lia) Hstep Himg)
    as (net & batched & Einit & Hcls & Hin & Hout & _).
  exists net. split; [done|]. split; [done|].
  unfold trainable. rewrite Hcls, HB in *. done.
Qed.

(** Construction, then the whole loop from a fresh world. *)
Lemma run_train_spec sess_run_output self style_img rs :
  inputDimension self = 224 → batchSize self = 1 → 0 < channelStepSize self →
  style_img_fits style_img →
  ∃ net w',
    TextureNetwork_init self style_img = Ok net
    ∧ run_train sess_run_output net (fresh_world rs) = Ok ((), w')
    ∧ length (train_steps (w_log w')) = Z.to_nat (epochs self)
    ∧ saved_checkpoints (w_log w') = checkpoint_path <$> filter due (range (epochs self))
    ∧ saved_images (w_log w') = image_path <$> filter due (range (epochs self))
    ∧ images_exported sess_run_output (w_log w').
Proof.
  intros HM HB Hstep Himg.
  destruct (init_trainable self style_img HM HB Hstep Himg) as (net & Einit & Hcls & Hnet).
  destruct (wp_elim _ _ _ (for_each_train_spec sess_run_output net (range (epochs self))
                             (fresh_world rs) Hnet))
    as ([] & w' & Erun & Hck & Him & Hts & Hex).
  exists net, w'. split; [done|]. split.
  { unfold run_train. by rewrite Hcls. }
  simpl in Hck, Him, Hts. split.
  { rewrite Hts. unfold range. by rewrite length_seqZ. }
  split; [done|]. split; [done|].
  apply Hex. intros path img Hin. by apply elem_of_nil in Hin.
Qed.

(** ** When the constructor raises *)

Lemma bind_Ok {S A B} (m : state_exn S A) (f : A → state_exn S B) s a s' :
  m s = Ok (a, s') → (m ≫= f) s = f a s'.
Proof. unfold mbind, state_exn_bind. by intros ->. Qed.

Lemma bind_Raise {S A B} (m : state_exn S A) (f : A → state_exn S B) s e :
  m s = Raise e → (m ≫= f) s = Raise e.
Proof. unfold mbind, state_exn_bind. by intros ->. Qed.

Lemma concat_batch_mismatch g t o b1 h w c b2 h' w' c' :
  has_shape g t [b1; h; w; c] → has_shape g o [b2; h'; w'; c'] →
  [h; w; c] ≠ [h'; w'; c'] →
  tf.concat 0 [t; o; o] g = Raise ValueError.
Proof.
  intros Ht Ho Hne. unfold tf.concat.
  erewrite bind_Ok; last first.
  { unfold mapM, mbind, state_exn_bind, tf.shape_of, mret, state_exn_ret.
    rewrite (has_shape_get_shape _ _ _ Ht), (has_shape_get_shape _ _ _ Ho). reflexivity. }
  rewrite bool_decide_eq_true_2 by done.
  unfold concat_shape. rewrite bool_decide_eq_false_2; [reflexivity|].
  intros [_ HF]. apply Forall_cons in HF as [_ HF]. apply Forall_cons in HF as [Heq _].
  simpl in Heq. apply Hne. by injection Heq as -> -> ->.
Qed.

Lemma init_raises_negative self style_img :
  inputDimension self < 0 → TextureNetwork_init self style_img = Raise ValueError.
Proof.
  intros HM. unfold TextureNetwork_init.
  erewrite bind_Raise; [reflexivity|].
  unfold build_generator. erewrite bind_Raise; [reflexivity|].
  apply input_pyramid_raises; [done | lia].
Qed.

Lemma init_raises_style self style_img :
  0 ≤ inputDimension self → 0 ≤ batchSize self → 0 < channelStepSize self →
  ¬ style_img_fits style_img →
  TextureNetwork_init self style_img = Raise ValueError.
Proof.
  intros HM HB Hstep Himg.
  destruct (build_generator_stages self empty_graph HM HB Hstep)
    as (phs & g1 & p & cc & agg & g2 & fc & g3 & out & g4 & _ & _ & _ & _ & _ & _
        & Egen & _).
  unfold TextureNetwork_init. rewrite (bind_Ok _ _ _ _ _ Egen).
  erewrite bind_Raise; [reflexivity|].
  unfold build_style_loss, np.reshape.
  by rewrite bool_decide_eq_false_2.
Qed.

Lemma init_raises_dimension self style_img :
  0 ≤ inputDimension self → 0 ≤ batchSize self → 0 < channelStepSize self →
  style_img_fits style_img → inputDimension self ≠ 224 →
  TextureNetwork_init self style_img = Raise ValueError.
Proof.
  intros HM HB Hstep Himg Hne.
  destruct (build_generator_stages self empty_graph HM HB Hstep)
    as (phs & g1 & p & cc & agg & g2 & fc & g3 & out & g4 & _ & _ & _ & _ & _ & _
        & Egen & _ & _ & _ & _ & _ & _ & Hout & _).
  unfold TextureNetwork_init. rewrite (bind_Ok _ _ _ _ _ Egen).
  erewrite bind_Raise; [reflexivity|].
  unfold build_style_loss, np.reshape. simpl snd.
  rewrite bool_decide_eq_true_2 by exact Himg.
  destruct (wp_elim _ _ _ (wp_constant
              {| nd_shape := [1; 224; 224; 3]; nd_data := nd_data style_img |} g4))
    as (c & g5 & E5 & Hg5 & Hs5 & _).
  rewrite (bind_Ok _ _ _ _ _ E5).
  destruct (wp_elim _ _ _ (wp_to_float c _ g5 Hs5)) as (t & g6 & E6 & Hg6 & Hs6 & _).
  rewrite (bind_Ok _ _ _ _ _ E6).
  erewrite bind_Raise; [reflexivity|].
  eapply concat_batch_mismatch; [exact Hs6 | |].
  - eapply has_shape_grows; [exact Hout|]. etrans; [exact Hg5 | exact Hg6].
  - intros Heq. injection Heq as H1 H2. lia.
Qed.

(** * The claims *)

(** C1: with the class constants (5 pyramid levels, target size 224, batch
    size 1) the generator half of [TextureNetwork.__init__] succeeds and its
    output tensor has shape (1, 224, 224, 3).  After the level loop has
    consumed all pyramid levels (final channel width 40) it applies one
    convolutional chain of width 40 to the aggregate and then one
    convolutional block with a 1x1 kernel and exactly 3 output channels, whose
    result is the output. *)
Theorem generator_output_shape :
  ∃ noise_inputs g1 first cc agg g2 final_chain g3 output g4,
    input_pyramid "noise" 224 1 k_default empty_graph = Ok (noise_inputs, g1)
    ∧ noise_inputs !! 0%nat = Some first
    ∧ level_loop TextureNetwork_attrs (8, first) (drop 1 noise_inputs) g1 = Ok ((cc, agg), g2)
    ∧ cc = 40
    ∧ conv_chain "output_chain" agg cc g2 = Ok (final_chain, g3)
    ∧ conv_block "output" final_chain 1 3 g3 = Ok (output, g4)
    ∧ build_generator TextureNetwork_attrs empty_graph = Ok ((noise_inputs, output), g4)
    ∧ length noise_inputs = 5%nat
    ∧ get_shape g4 agg = [1; 224; 224; 40]
    ∧ is_conv_chain g4 agg 40 40 final_chain
    ∧ get_shape g4 final_chain = [1; 224; 224; 40]
    ∧ is_conv_block g4 final_chain 1 40 3 output
    ∧ get_shape g4 output = [1; 224; 224; 3]
    ∧ conv_count g4 = 28%nat.
Proof.
  destruct (build_generator_stages TextureNetwork_attrs empty_graph)
    as (phs & g1 & p & cc & agg & g2 & fc & g3 & out & g4 & E1 & Hp & E2 & Hcc & E3 & E4
        & Egen & _ & Hphs & Hagg & Hchain & Hfc & Hblock & Hout & Hn); [done.. |].
  change (8 + 4 * channelStepSize TextureNetwork_attrs) with 40 in Hcc. subst cc.
  exists phs, g1, p, 40, agg, g2, fc, g3, out, g4.
  split; [exact E1|]. split; [exact Hp|]. split; [exact E2|]. split; [reflexivity|].
  split; [exact E3|]. split; [exact E4|]. split; [exact Egen|].
  split; [exact (Forall2_length _ _ _ Hphs)|].
  split; [exact (has_shape_get_shape _ _ _ Hagg)|]. split; [exact Hchain|].
  split; [exact (has_shape_get_shape _ _ _ Hfc)|]. split; [exact Hblock|].
  split; [exact (has_shape_get_shape _ _ _ Hout)|]. exact Hn.
Qed.

(** C2: in the level loop, started with [current_channels = 8] and step size
    8, level [i] (counted from 1) runs a chain of declared width
    [current_channels = 8 * i] over the aggregate and a chain of declared
    width 8 over the noise frame, and the fused aggregate has the sum of the
    two declared widths, [8 * (i + 1)] channels, which is also the new
    [current_channels]; the count grows strictly at every level. *)
Theorem level_channel_invariant g agg frames b h w c (i : nat) :
  get_shape g agg = [b; h; w; c] → 0 ≤ c →
  Forall (λ f, ∃ h' w' c', get_shape g f = [b; h'; w'; c'] ∧ 0 ≤ c') frames →
  (1 ≤ i ≤ length frames)%nat →
  ∃ cc_before agg_before g1 frame cc agg' g',
    level_loop TextureNetwork_attrs (8, agg) (take (i - 1) frames) g
      = Ok ((cc_before, agg_before), g1)
    ∧ frames !! (i - 1)%nat = Some frame
    ∧ level_body TextureNetwork_attrs (cc_before, agg_before) frame g1 = Ok ((cc, agg'), g')
    ∧ level_loop TextureNetwork_attrs (8, agg) (take i frames) g = Ok ((cc, agg'), g')
    ∧ cc_before = 8 * Z.of_nat i
    ∧ cc = cc_before + 8
    ∧ cc = 8 * (Z.of_nat i + 1)
    ∧ cc_before < cc
    ∧ is_level g' agg_before frame cc_before 8 agg'
    ∧ last (get_shape g' agg') = Some (8 * (Z.of_nat i + 1)).
Proof.
  intros Hagg Hc Hframes [Hi1 Hi2].
  apply get_shape_has_shape in Hagg.
  assert (Forall (λ f, ∃ h' w' c', has_shape g f [b; h'; w'; c'] ∧ 0 ≤ c') frames) as Hfr.
  { eapply Forall_impl; [exact Hframes|]. intros f (h' & w' & c' & Hf & Hc').
    exists h', w', c'. split; [by apply get_shape_has_shape | done]. }
  destruct (lookup_lt_is_Some_2 frames (i - 1)) as [frame Hframe]; [lia|].
  destruct (wp_elim _ _ _ (level_loop_spec TextureNetwork_attrs (take (i - 1) frames)
                             g 8 agg b h w c ltac:(done) ltac:(lia) Hc Hagg
                             (Forall_take _ _ _ Hfr)))
    as ([cc0 agg0] & g1 & E1 & Hg1 & Hcc0 & (hh & ww & ch & Hagg0 & Hch & _ & _) & _).
  simpl in Hcc0, Hagg0. rewrite length_take in Hcc0.
  change (channelStepSize TextureNetwork_attrs) with 8 in Hcc0.
  assert (cc0 = 8 * Z.of_nat i) as -> by lia.
  pose proof (proj1 (Forall_lookup _ _) Hfr _ _ Hframe) as (h' & w' & c' & Hf & Hc').
  destruct (wp_elim _ _ _ (level_body_spec TextureNetwork_attrs (8 * Z.of_nat i) agg0 frame
                             g1 b hh ww ch h' w' c' Hagg0 (has_shape_grows _ _ _ _ Hf Hg1)
                             Hch Hc' ltac:(lia) ltac:(done)))
    as ([cc agg'] & g' & E2 & Hg' & Hcc & Hs' & Hlevel & _).
  simpl in Hcc, Hs', Hlevel. change (channelStepSize TextureNetwork_attrs) with 8 in *.
  exists (8 * Z.of_nat i), agg0, g1, frame, cc, agg', g'.
  split; [exact E1|]. split; [exact Hframe|]. split; [exact E2|]. split.
  { replace i with (S (i - 1)) at 1 by lia.
    rewrite (take_S_r _ _ _ Hframe), level_loop_snoc.
    unfold mbind, state_exn_bind. by rewrite E1. }
  split; [done|]. split; [done|]. split; [lia|]. split; [lia|]. split; [done|].
  rewrite (has_shape_get_shape _ _ _ Hs'). simpl. f_equal. lia.
Qed.

Lemma level_channel_invariant_witness :
  ∃ cc_before agg_before g1 frame cc agg' g',
    level_loop TextureNetwork_attrs (8, 4%nat) (take (4 - 1) [3; 2; 1; 0]%nat) default_inputs.2
      = Ok ((cc_before, agg_before), g1)
    ∧ [3; 2; 1; 0]%nat !! (4 - 1)%nat = Some frame
    ∧ level_body TextureNetwork_attrs (cc_before, agg_before) frame g1 = Ok ((cc, agg'), g')
    ∧ level_loop TextureNetwork_attrs (8, 4%nat) (take 4 [3; 2; 1; 0]%nat) default_inputs.2
      = Ok ((cc, agg'), g')
    ∧ cc_before = 8 * Z.of_nat 4
    ∧ cc = cc_before + 8
    ∧ cc = 8 * (Z.of_nat 4 + 1)
    ∧ cc_before < cc
    ∧ is_level g' agg_before frame cc_before 8 agg'
    ∧ last (get_shape g' agg') = Some (8 * (Z.of_nat 4 + 1)).
Proof.
  apply (level_channel_invariant default_inputs.2 4%nat [3; 2; 1; 0]%nat 1 14 14 3 4%nat).
  - vm_compute. reflexivity.
  - lia.
  - repeat constructor; eexists _, _, _; (split; [vm_compute; reflexivity | lia]).
  - simpl. lia.
Defined.

(** C6: for a lower-resolution and a higher-resolution feature tensor of one
    batch, with any channel counts, [join_block] succeeds; its result has the
    spatial size of the higher-resolution input and the sum of the two channel
    counts, and it is the concatenation along the channel axis (3) of two
    separately batch-normalised tensors: the lower input resized by nearest
    neighbour to the higher input's spatial size, and the higher input. *)
Theorem join_block_shape name lower higher g b h1 w1 c1 h2 w2 c2 :
  get_shape g lower = [b; h1; w1; c1] → get_shape g higher = [b; h2; w2; c2] →
  ∃ y g',
    join_block name lower higher g = Ok (y, g')
    ∧ get_shape g' y = [b; h2; w2; c1 + c2]
    ∧ is_join_block g' lower higher [h2; w2] y
    ∧ get_shape g' lower = [b; h1; w1; c1]
    ∧ get_shape g' higher = [b; h2; w2; c2].
Proof.
  intros Hlo Hhi. apply get_shape_has_shape in Hlo, Hhi.
  destruct (wp_elim _ _ _ (join_block_spec name lower higher g _ _ _ _ _ _ _ Hlo Hhi))
    as (y & g' & E & Hg & Hy & Hjoin & _).
  exists y, g'. split; [exact E|]. split; [by apply has_shape_get_shape|].
  split; [exact Hjoin|].
  split; apply has_shape_get_shape; by eapply has_shape_grows.
Qed.

Lemma join_block_shape_witness :
  ∃ y g',
    join_block "join_24" 4%nat 3%nat default_inputs.2 = Ok (y, g')
    ∧ get_shape g' y = [1; 28; 28; 3 + 3]
    ∧ is_join_block g' 4%nat 3%nat [28; 28] y
    ∧ get_shape g' 4%nat = [1; 14; 14; 3]
    ∧ get_shape g' 3%nat = [1; 28; 28; 3].
Proof.
  apply (join_block_shape "join_24" 4%nat 3%nat default_inputs.2 1 14 14 3 28 28 3).
  - vm_compute. reflexivity.
  - vm_compute. reflexivity.
Defined.

(** C7: for a 4-D input tensor and a positive target channel count,
    [conv_chain] succeeds and applies exactly three convolutional blocks in
    sequence, with kernels 3x3, 3x3 and 1x1, all with the target channel
    count; its output has the input's batch and spatial sizes and exactly the
    target channel count. *)
Theorem conv_chain_three_blocks name x out g b h w c :
  get_shape g x = [b; h; w; c] → 0 ≤ c → 0 < out →
  ∃ y g' block1 block2,
    conv_chain name x out g = Ok (y, g')
    ∧ is_conv_block g' x 3 c out block1
    ∧ is_conv_block g' block1 3 out out block2
    ∧ is_conv_block g' block2 1 out out y
    ∧ conv_count g' = (conv_count g + 3)%nat
    ∧ get_shape g' y = [b; h; w; out].
Proof.
  intros Hx Hc Hout. apply get_shape_has_shape in Hx.
  destruct (wp_elim _ _ _ (conv_chain_spec name x out g _ _ _ _ Hx Hc Hout))
    as (y & g' & E & _ & Hy & (block1 & block2 & H1 & H2 & H3) & Hn).
  exists y, g', block1, block2. split; [exact E|].
  split; [exact H1|]. split; [exact H2|]. split; [exact H3|]. split; [exact Hn|].
  by apply has_shape_get_shape.
Qed.

Lemma conv_chain_three_blocks_witness :
  ∃ y g' block1 block2,
    conv_chain "chain_higher" 3%nat 8 default_inputs.2 = Ok (y, g')
    ∧ is_conv_block g' 3%nat 3 3 8 block1
    ∧ is_conv_block g' block1 3 8 8 block2
    ∧ is_conv_block g' block2 1 8 8 y
    ∧ conv_count g' = (conv_count default_inputs.2 + 3)%nat
    ∧ get_shape g' y = [1; 28; 28; 8].
Proof.
  apply (conv_chain_three_blocks "chain_higher" 3%nat 8 default_inputs.2 1 28 28 3).
  - vm_compute. reflexivity.
  - lia.
  - lia.
Defined.

(** C9: the tensor [__init__] passes to [VGGNetwork] is the concatenation
    along the batch axis (0) of the reference texture image followed by two
    copies of the generated output tensor, so its batch size is one plus twice
    the generator's; the loss is computed from that extractor. *)
Theorem vgg_input_has_output_twice self style_img :
  inputDimension self = 224 → 0 ≤ batchSize self → 0 < channelStepSize self →
  style_img_fits style_img →
  ∃ net batched vgg,
    TextureNetwork_init self style_img = Ok net
    ∧ op_of (tn_graph net) batched
      = Some (Concat 0 [texture_image net; output net; output net])
    ∧ op_of (tn_graph net) vgg
      = Some (VGGNetworkNode "image_vgg" batched 1 (batchSize self) (batchSize self))
    ∧ op_of (tn_graph net) (loss net)
      = Some (StyleLoss vgg [(1, 1); (2, 1); (3, 1); (4, 1); (5, 1)])
    ∧ get_shape (tn_graph net) (texture_image net) = [1; 224; 224; 3]
    ∧ get_shape (tn_graph net) (output net) = [batchSize self; 224; 224; 3]
    ∧ get_shape (tn_graph net) batched = [1 + 2 * batchSize self; 224; 224; 3].
Proof.
  intros HM HB Hstep Himg.
  destruct (TextureNetwork_init_spec self style_img HM HB Hstep Himg)
    as (net & batched & E & _ & _ & Hout & Ht & Hb
        & (img & c & vgg & _ & _ & _ & Hcat & Hvgg & Hloss)).
  exists net, batched, vgg. split; [exact E|]. split; [exact Hcat|].
  split; [exact Hvgg|]. split; [exact Hloss|].
  split; [exact (has_shape_get_shape _ _ _ Ht)|].
  split; [exact (has_shape_get_shape _ _ _ Hout)|].
  rewrite (has_shape_get_shape _ _ _ Hb). do 4 f_equal. lia.
Qed.

Lemma vgg_input_has_output_twice_witness :
  ∃ net batched vgg,
    TextureNetwork_init TextureNetwork_attrs blank_style_img = Ok net
    ∧ op_of (tn_graph net) batched
      = Some (Concat 0 [texture_image net; output net; output net])
    ∧ op_of (tn_graph net) vgg = Some (VGGNetworkNode "image_vgg" batched 1 1 1)
    ∧ op_of (tn_graph net) (loss net)
      = Some (StyleLoss vgg [(1, 1); (2, 1); (3, 1); (4, 1); (5, 1)])
    ∧ get_shape (tn_graph net) (texture_image net) = [1; 224; 224; 3]
    ∧ get_shape (tn_graph net) (output net) = [1; 224; 224; 3]
    ∧ get_shape (tn_graph net) batched = [1 + 2 * 1; 224; 224; 3].
Proof.
  apply (vgg_input_has_output_twice TextureNetwork_attrs blank_style_img).
  - reflexivity.
  - simpl. lia.
  - simpl. lia.
  - reflexivity.
Defined.

(** C10: for every [M], batch size and level count [k], whenever
    [noise_pyramid] returns its arrays, [input_pyramid] returns as many
    placeholders ([k] of each, none for [k <= 0]), and the placeholder and
    the array at every index have identical shapes (both use [M // 2**x],
    reversed); so the index-wise binding of the noise arrays to the
    placeholders succeeds and gives a feed that is accepted.  The arrays are
    returned whenever no level is asked for, or [M] and the batch size are not
    negative and the finest level passes NumPy's size check. *)
Theorem pyramids_same_shapes name M B k g rs :
  (∀ noise rs', noise_pyramid M B k rs = Ok (noise, rs') →
     ∃ placeholders g',
       input_pyramid name M B k g = Ok (placeholders, g')
       ∧ length placeholders = Z.to_nat k ∧ length noise = Z.to_nat k
       ∧ (∀ (j : nat) p a, placeholders !! j = Some p → noise !! j = Some a →
                           get_shape g' p = nd_shape a)
       ∧ ∃ feed_dict, bind_feed placeholders 0 noise ∅ = Ok feed_dict
                      ∧ feed_ok g' feed_dict = true)
  ∧ (k ≤ 0 ∨ (0 ≤ M ∧ 0 ≤ B ∧ np.fits [B; M; M; 3] = true) →
     is_ok (noise_pyramid M B k rs) = true).
Proof.
  split.
  - intros noise rs' En.
    destruct (decide (k ≤ 0)) as [Hk|Hk].
    { destruct (pyramids_empty name M B k g rs Hk) as [E2 E1].
      rewrite E2 in En. injection En as <- _.
      exists [], g. split; [exact E1|]. split; [simpl; lia|]. split; [simpl; lia|].
      split; [done|]. by exists ∅. }
    destruct (noise_pyramid_returns _ _ _ _ _ _ En) as [_ Hvalid].
    destruct (Hvalid ltac:(lia)) as (HM & HB & Hfits).
    destruct (pyramids_ok name M B k g rs HM HB Hfits)
      as (noise2 & rs2 & phs & g' & E2 & E1 & Hlen2 & Hlen1 & _).
    rewrite E2 in En. injection En as <- _.
    pose proof (pyramids_agree _ _ _ _ _ _ _ _ _ _ HM HB E1 E2) as HF.
    exists phs, g'. split; [exact E1|]. split; [exact Hlen1|]. split; [exact Hlen2|].
    split.
    + intros j p a Hp Ha. by eapply (Forall2_lookup_lr _ _ _ _ _ _ HF).
    + by apply bind_feed_Forall2.
  - intros [Hk|(HM & HB & Hfits)].
    + destruct (pyramids_empty name M B k g rs Hk) as [-> _]. reflexivity.
    + destruct (pyramids_ok name M B k g rs HM HB Hfits)
        as (noise & rs' & _ & _ & -> & _). reflexivity.
Qed.

Lemma pyramids_same_shapes_witness :
  is_ok (noise_pyramid 224 1 5 zero_random) = true
  ∧ ∀ noise rs', noise_pyramid 224 1 5 zero_random = Ok (noise, rs') →
      ∃ placeholders g',
        input_pyramid "noise" 224 1 5 empty_graph = Ok (placeholders, g')
        ∧ length placeholders = Z.to_nat 5 ∧ length noise = Z.to_nat 5
        ∧ (∀ (j : nat) p a, placeholders !! j = Some p → noise !! j = Some a →
                            get_shape g' p = nd_shape a)
        ∧ ∃ feed_dict, bind_feed placeholders 0 noise ∅ = Ok feed_dict
                       ∧ feed_ok g' feed_dict = true.
Proof.
  split.
  - apply (proj2 (pyramids_same_shapes "noise" 224 1 5 empty_graph zero_random)).
    right. split; [lia|]. split; [lia | reflexivity].
  - exact (proj1 (pyramids_same_shapes "noise" 224 1 5 empty_graph zero_random)).
Defined.

(** C5: for a positive target size [M], a level count [K >= 1] with
    [M % 2^(K-1) = 0] and a batch size [B >= 0], of a size NumPy can hold
    (the finest level passes its size check), [noise_pyramid(M, B, K)]
    returns exactly [K] arrays; the one at index [j] has shape
    [(B, s, s, 3)] with [s = M / 2^(K-1-j)], an exact quotient; the sizes run
    from [M / 2^(K-1)] at index 0 to [M] at index [K-1] and strictly
    increase. *)
Theorem noise_pyramid_sizes M B K rs :
  0 < M → 0 ≤ B → 1 ≤ K → M `mod` 2 ^ (K - 1) = 0 → np.fits [B; M; M; 3] = true →
  ∃ noise rs',
    noise_pyramid M B K rs = Ok (noise, rs')
    ∧ length noise = Z.to_nat K
    ∧ (∀ j, 0 ≤ j < K →
         nd_shape <$> (noise !! Z.to_nat j)
         = Some [B; M / 2 ^ (K - 1 - j); M / 2 ^ (K - 1 - j); 3])
    ∧ (∀ j, 0 ≤ j < K → M / 2 ^ (K - 1 - j) * 2 ^ (K - 1 - j) = M)
    ∧ M / 2 ^ (K - 1 - (K - 1)) = M
    ∧ (∀ i j, 0 ≤ i → i < j → j < K → M / 2 ^ (K - 1 - i) < M / 2 ^ (K - 1 - j)).
Proof.
  intros HM HB HK Hmod Hfits.
  destruct (pyramids_ok "noise" M B K empty_graph rs ltac:(lia) HB Hfits)
    as (noise & rs' & phs & g' & E & _ & Hlen & _ & Hshapes).
  assert (0 < 2 ^ (K - 1)) as Hpow by (apply Z.pow_pos_nonneg; lia).
  set (q := M / 2 ^ (K - 1)).
  assert (M = 2 ^ (K - 1) * q) as HMq by (apply Z_div_exact_full_2; lia).
  assert (0 < q) as Hq by nia.
  assert (∀ j, 0 ≤ j < K → M / 2 ^ (K - 1 - j) = q * 2 ^ j) as Hsize.
  { intros j Hj.
    assert (2 ^ (K - 1) = 2 ^ j * 2 ^ (K - 1 - j)) as Hsplit.
    { rewrite <- Z.pow_add_r by lia. f_equal. lia. }
    rewrite HMq at 1. rewrite Hsplit.
    replace (2 ^ j * 2 ^ (K - 1 - j) * q) with (q * 2 ^ j * 2 ^ (K - 1 - j)) by lia.
    apply Z.div_mul. apply Z.pow_nonzero; lia. }
  exists noise, rs'. split; [exact E|]. split; [exact Hlen|]. split.
  { intros j Hj. by destruct (Hshapes j Hj). }
  split.
  { intros j Hj. rewrite Hsize by done.
    rewrite <- Z.mul_assoc, <- Z.pow_add_r by lia.
    replace (j + (K - 1 - j)) with (K - 1) by lia. lia. }
  split.
  { rewrite Z.sub_diag. by rewrite Z.pow_0_r, Z.div_1_r. }
  intros i j Hi Hij Hj. rewrite !Hsize by lia.
  apply Z.mul_lt_mono_pos_l; [done|]. apply Z.pow_lt_mono_r; lia.
Qed.

Lemma noise_pyramid_sizes_witness :
  ∃ noise rs',
    noise_pyramid 224 1 5 zero_random = Ok (noise, rs')
    ∧ length noise = Z.to_nat 5
    ∧ (∀ j, 0 ≤ j < 5 →
         nd_shape <$> (noise !! Z.to_nat j)
         = Some [1; 224 / 2 ^ (5 - 1 - j); 224 / 2 ^ (5 - 1 - j); 3])
    ∧ (∀ j, 0 ≤ j < 5 → 224 / 2 ^ (5 - 1 - j) * 2 ^ (5 - 1 - j) = 224)
    ∧ 224 / 2 ^ (5 - 1 - (5 - 1)) = 224
    ∧ (∀ i j, 0 ≤ i → i < j → j < 5 → 224 / 2 ^ (5 - 1 - i) < 224 / 2 ^ (5 - 1 - j)).
Proof.
  apply (noise_pyramid_sizes 224 1 5 zero_random).
  - lia.
  - lia.
  - lia.
  - reflexivity.
  - reflexivity.
Defined.

(** C4, as the code has it: neither pyramid function checks divisibility.
    For every [M >= 0] and [B >= 0] of a size NumPy can hold (the finest
    level passes its size check) and every [K], whether or not [2^(K-1)]
    divides [M], [noise_pyramid] and [input_pyramid] succeed and return [K]
    tensors, the one at index [j] of shape [(B, s, s, 3)] with the floor
    quotient [s = M // 2^(K-1-j)].  A target size that 16 (the [2^(K-1)] of
    the five levels [__init__] asks for) does not divide still stops the
    program before any training step, but later and for another reason: with
    a batch size that is not negative and a positive channel step,
    [__init__] raises [ValueError] where it joins the output to the
    224 x 224 texture, so there is no network to call [run_train] on. *)
Theorem pyramids_floor_sizes name M B K g rs :
  0 ≤ M → 0 ≤ B → np.fits [B; M; M; 3] = true →
  (∃ noise rs' placeholders g',
     noise_pyramid M B K rs = Ok (noise, rs')
     ∧ input_pyramid name M B K g = Ok (placeholders, g')
     ∧ length noise = Z.to_nat K ∧ length placeholders = Z.to_nat K
     ∧ ∀ j, 0 ≤ j < K →
         nd_shape <$> (noise !! Z.to_nat j)
           = Some [B; M / 2 ^ (K - 1 - j); M / 2 ^ (K - 1 - j); 3]
         ∧ get_shape g' <$> (placeholders !! Z.to_nat j)
           = Some [B; M / 2 ^ (K - 1 - j); M / 2 ^ (K - 1 - j); 3])
  ∧ (M `mod` 2 ^ (k_default - 1) ≠ 0 →
     ∀ self style_img,
       inputDimension self = M → 0 ≤ batchSize self → 0 < channelStepSize self →
       TextureNetwork_init self style_img = Raise ValueError).
Proof.
  intros HM HB Hfits. split; [by apply pyramids_ok|].
  intros Hmod self style_img HMself HBself Hstep.
  assert (inputDimension self ≠ 224) as Hne.
  { rewrite HMself. intros ->. apply Hmod. reflexivity. }
  destruct (decide (style_img_fits style_img)) as [Himg|Himg].
  - apply init_raises_dimension; (done || lia).
  - apply init_raises_style; (done || lia).
Qed.

Lemma pyramids_floor_sizes_witness :
  (∃ noise rs' placeholders g',
     noise_pyramid 225 1 5 zero_random = Ok (noise, rs')
     ∧ input_pyramid "noise" 225 1 5 empty_graph = Ok (placeholders, g')
     ∧ length noise = Z.to_nat 5 ∧ length placeholders = Z.to_nat 5
     ∧ ∀ j, 0 ≤ j < 5 →
         nd_shape <$> (noise !! Z.to_nat j)
           = Some [1; 225 / 2 ^ (5 - 1 - j); 225 / 2 ^ (5 - 1 - j); 3]
         ∧ get_shape g' <$> (placeholders !! Z.to_nat j)
           = Some [1; 225 / 2 ^ (5 - 1 - j); 225 / 2 ^ (5 - 1 - j); 3])
  ∧ (225 `mod` 2 ^ (k_default - 1) ≠ 0 →
     ∀ self style_img,
       inputDimension self = 225 → 0 ≤ batchSize self → 0 < channelStepSize self →
       TextureNetwork_init self style_img = Raise ValueError).
Proof.
  apply (pyramids_floor_sizes "noise" 225 1 5 empty_graph zero_random).
  - lia.
  - lia.
  - reflexivity.
Defined.

(** C4 fails as stated: 225 is not divisible by [2^(5-1) = 16], yet both
    pyramid functions return their five tensors (sizes 14, 28, 56, 112, 225),
    and the generator graph is built on them. *)
Lemma pyramid_225_is_built :
  225 `mod` 2 ^ (5 - 1) ≠ 0
  ∧ match noise_pyramid 225 1 5 zero_random with
    | Ok (noise, _) => Some (nd_shape <$> noise)
    | Raise _ => None
    end
    = Some [[1; 14; 14; 3]; [1; 28; 28; 3]; [1; 56; 56; 3]; [1; 112; 112; 3];
            [1; 225; 225; 3]]
  ∧ match input_pyramid "noise" 225 1 5 empty_graph with
    | Ok (placeholders, g) => Some (get_shape g <$> placeholders)
    | Raise _ => None
    end
    = Some [[1; 14; 14; 3]; [1; 28; 28; 3]; [1; 56; 56; 3]; [1; 112; 112; 3];
            [1; 225; 225; 3]]
  ∧ match build_generator (TextureNetwork_with_dimension 225) empty_graph with
    | Ok ((_, output), g) => Some (get_shape g output)
    | Raise _ => None
    end
    = Some [1; 225; 225; 3].
Proof.
  split; [done|]. split; [vm_compute; reflexivity|].
  split; vm_compute; reflexivity.
Qed.

(** Beside the claim: [__init__] as a whole needs the target size 224,
    divisible or not, because the texture image it concatenates with the
    output is reshaped to 224 x 224. *)
Lemma init_needs_224 :
  is_ok (TextureNetwork_init (TextureNetwork_with_dimension 224) blank_style_img) = true
  ∧ is_ok (TextureNetwork_init (TextureNetwork_with_dimension 225) blank_style_img) = false
  ∧ is_ok (TextureNetwork_init (TextureNetwork_with_dimension 240) blank_style_img) = false.
Proof. vm_compute. done. Qed.

(** C3, as the code has it: the loop index runs over [0 .. epochs-1] and a
    checkpoint and an image are written in exactly the iterations [i] with
    [i > 0] and [i % 20 = 0], keyed by [i].  So a run of exactly 21 epochs
    writes exactly one checkpoint and exactly one image, both keyed by step
    index 20, and a run of exactly 20 epochs writes none. *)
Theorem checkpoints_of_run sess_run_output style_img rs E :
  style_img_fits style_img →
  ∃ net w',
    TextureNetwork_init (TextureNetwork_with_epochs E) style_img = Ok net
    ∧ run_train sess_run_output net (fresh_world rs) = Ok ((), w')
    ∧ length (train_steps (w_log w')) = Z.to_nat E
    ∧ saved_checkpoints (w_log w') = checkpoint_path <$> filter due (range E)
    ∧ saved_images (w_log w') = image_path <$> filter due (range E)
    ∧ (E = 21 → saved_checkpoints (w_log w') = ["models/snapshot-20.ckpt"]
                ∧ saved_images (w_log w') = ["img/aa-iteration-20.jpeg"])
    ∧ (E = 20 → saved_checkpoints (w_log w') = [] ∧ saved_images (w_log w') = []).
Proof.
  intros Himg.
  destruct (run_train_spec sess_run_output (TextureNetwork_with_epochs E) style_img rs
              eq_refl eq_refl ltac:(done) Himg)
    as (net & w' & Einit & Erun & Hts & Hck & Him & _).
  exists net, w'. split; [exact Einit|]. split; [exact Erun|]. split; [exact Hts|].
  split; [exact Hck|]. split; [exact Him|].
  split; intros ->; rewrite Hck, Him; split; vm_compute; reflexivity.
Qed.

Lemma checkpoints_of_run_witness :
  ∃ net w',
    TextureNetwork_init (TextureNetwork_with_epochs 21) blank_style_img = Ok net
    ∧ run_train zero_session net (fresh_world zero_random) = Ok ((), w')
    ∧ length (train_steps (w_log w')) = Z.to_nat 21
    ∧ saved_checkpoints (w_log w') = checkpoint_path <$> filter due (range 21)
    ∧ saved_images (w_log w') = image_path <$> filter due (range 21)
    ∧ (21 = 21 → saved_checkpoints (w_log w') = ["models/snapshot-20.ckpt"]
                 ∧ saved_images (w_log w') = ["img/aa-iteration-20.jpeg"])
    ∧ (21 = 20 → saved_checkpoints (w_log w') = [] ∧ saved_images (w_log w') = []).
Proof.
  apply (checkpoints_of_run zero_session blank_style_img zero_random 21).
  reflexivity.
Defined.

(** C3 fails as stated: a run of exactly 20 epochs takes its 20 training
    steps (indices 0 to 19) and writes no checkpoint and no image. *)
Lemma run_of_20_epochs_saves_nothing :
  run_files zero_session (TextureNetwork_with_epochs 20) blank_style_img zero_random
  = Some (20%nat, [], []).
Proof. vm_compute. reflexivity. Qed.

(** C8, as the code has it: only when an image is written (in the
    iterations that also save a checkpoint) each value of the session's
    output is multiplied by 255, clipped to [0, 255] and cut to its integer
    part (the fraction is dropped, not rounded to nearest), giving a byte in
    0..255; the session's output itself is taken as it comes. *)
Theorem export_scales_clips_truncates sess_run_output style_img rs E :
  style_img_fits style_img →
  ∃ net w',
    TextureNetwork_init (TextureNetwork_with_epochs E) style_img = Ok net
    ∧ run_train sess_run_output net (fresh_world rs) = Ok ((), w')
    ∧ saved_images (w_log w') = image_path <$> filter due (range E)
    ∧ (∀ path img, ImSave path img ∈ w_log w' →
         ∃ i, due i ∧ path = image_path i
              ∧ u8_shape img = [224; 224; 3]
              ∧ ∀ p, u8_data img p = img_out_pixel (sess_run_output i p))
    ∧ (∀ v, img_out_pixel v = Qfloor (np_clip (v * 255) 0 255)
            ∧ 0 ≤ img_out_pixel v ≤ 255
            ∧ (inject_Z (img_out_pixel v) <= np_clip (v * 255) 0 255)%Q
            ∧ (np_clip (v * 255) 0 255 < inject_Z (img_out_pixel v + 1))%Q).
Proof.
  intros Himg.
  destruct (run_train_spec sess_run_output (TextureNetwork_with_epochs E) style_img rs
              eq_refl eq_refl ltac:(done) Himg)
    as (net & w' & Einit & Erun & _ & _ & Him & Hex).
  exists net, w'. split; [exact Einit|]. split; [exact Erun|]. split; [exact Him|]. split.
  - intros path img Hin. destruct (Hex path img Hin) as (i & Hdue & -> & ->).
    exists i. split; [exact Hdue|]. split; [reflexivity|]. split; [reflexivity|].
    intros p. reflexivity.
  - intros v. split; [apply img_out_pixel_floor|]. split; [apply img_out_pixel_range|].
    rewrite img_out_pixel_floor. split; [apply Qfloor_le | apply Qlt_floor].
Qed.

Lemma export_scales_clips_truncates_witness :
  ∃ net w',
    TextureNetwork_init (TextureNetwork_with_epochs 41) blank_style_img = Ok net
    ∧ run_train zero_session net (fresh_world zero_random) = Ok ((), w')
    ∧ saved_images (w_log w') = image_path <$> filter due (range 41)
    ∧ (∀ path img, ImSave path img ∈ w_log w' →
         ∃ i, due i ∧ path = image_path i
              ∧ u8_shape img = [224; 224; 3]
              ∧ ∀ p, u8_data img p = img_out_pixel (zero_session i p))
    ∧ (∀ v, img_out_pixel v = Qfloor (np_clip (v * 255) 0 255)
            ∧ 0 ≤ img_out_pixel v ≤ 255
            ∧ (inject_Z (img_out_pixel v) <= np_clip (v * 255) 0 255)%Q
            ∧ (np_clip (v * 255) 0 255 < inject_Z (img_out_pixel v + 1))%Q).
Proof.
  apply (export_scales_clips_truncates zero_session blank_style_img zero_random 41).
  reflexivity.
Defined.

(** C8 fails as stated: for the output value 0.25 the code writes the byte
    63 (0.25 * 255 = 63.75, cut to 63); clipping and rounding gives 0 for the
    value itself and 64 for the scaled value. *)
Lemma export_is_not_clip_and_round :
  img_out_pixel (1 # 4) = 63
  ∧ clip_and_round (1 # 4) = 0
  ∧ clip_and_round ((1 # 4) * 255) = 64
  ∧ img_out_pixel (1 # 4) ≠ clip_and_round (1 # 4)
  ∧ img_out_pixel (1 # 4) ≠ clip_and_round ((1 # 4) * 255).
Proof. by vm_compute. Qed.

(** * Further properties of the code *)

(** ** The pyramids: errors and edges *)

Lemma noise_pyramid_error_kind M B k rs e :
  noise_pyramid M B k rs = Raise e →
  e = ValueError ∧ 1 ≤ k ∧ (M < 0 ∨ B < 0 ∨ np.fits [B; M; M; 3] = false).
Proof.
  intros Hraise.
  destruct (decide (k ≤ 0)) as [Hk|Hk].
  { destruct (pyramids_empty "" M B k empty_graph rs Hk) as [E _]. congruence. }
  destruct (decide (0 ≤ M ∧ 0 ≤ B)) as [[HM HB]|Hneg].
  - destruct (np.fits [B; M; M; 3]) eqn:Hfits.
    + pose proof (noise_pyramid_shapes M B k rs HM HB Hfits) as Hwp.
      unfold wp in Hwp. by rewrite Hraise in Hwp.
    + rewrite noise_pyramid_too_big in Hraise by (done || lia).
      split; [congruence|]. split; [lia|]. by right; right.
  - rewrite noise_pyramid_raises in Hraise by (done || lia).
    split; [congruence|]. lia.
Qed.

Lemma input_pyramid_error_kind name M B k g e :
  input_pyramid name M B k g = Raise e → e = ValueError ∧ 1 ≤ k ∧ (M < 0 ∨ B < 0).
Proof.
  intros Hraise.
  destruct (decide (k ≤ 0)) as [Hk|Hk].
  { destruct (pyramids_empty name M B k g zero_random Hk) as [_ E]. congruence. }
  destruct (decide (0 ≤ M ∧ 0 ≤ B)) as [[HM HB]|Hneg].
  - pose proof (input_pyramid_shapes name M B k g HM HB) as Hwp.
    unfold wp in Hwp. by rewrite Hraise in Hwp.
  - rewrite input_pyramid_raises in Hraise by (done || lia).
    split; [congruence|]. lia.
Qed.

(** X1: [noise_pyramid] raises [ValueError] exactly when at least one
    level is asked for and the target size or the batch size is negative or
    the finest level does not pass NumPy's size check (more than [2^63 - 1]
    bytes, whatever the batch size: "array is too big").  For [k <= 0] it
    returns the empty list and draws nothing. *)
Theorem noise_pyramid_raises_iff M B k rs :
  (noise_pyramid M B k rs = Raise ValueError
   ↔ 1 ≤ k ∧ (M < 0 ∨ B < 0 ∨ np.fits [B; M; M; 3] = false))
  ∧ (k ≤ 0 → noise_pyramid M B k rs = Ok ([], rs)).
Proof.
  split; [split|].
  - intros Hraise. by destruct (noise_pyramid_error_kind _ _ _ _ _ Hraise) as [_ ?].
  - intros [Hk [Hneg|[Hneg|Hbig]]].
    + apply noise_pyramid_raises; [done | lia].
    + apply noise_pyramid_raises; [done | lia].
    + by apply noise_pyramid_too_big.
  - intros Hk. by destruct (pyramids_empty "" M B k empty_graph rs Hk).
Qed.

Lemma noise_pyramid_raises_iff_witness :
  noise_pyramid (2 ^ 31) 0 1 zero_random = Raise ValueError
  ∧ noise_pyramid (-1) 1 5 zero_random = Raise ValueError
  ∧ noise_pyramid 224 1 0 zero_random = Ok ([], zero_random).
Proof.
  split; [|split].
  - apply (proj1 (noise_pyramid_raises_iff (2 ^ 31) 0 1 zero_random)).
    split; [lia|]. right. right. reflexivity.
  - apply (proj1 (noise_pyramid_raises_iff (-1) 1 5 zero_random)).
    split; [lia|]. left. lia.
  - apply (proj2 (noise_pyramid_raises_iff 224 1 0 zero_random)). lia.
Defined.

(** X2: [input_pyramid] raises exactly when at least one level is asked for
    and the target size or the batch size is negative, and then it is a
    [ValueError]; no other exception occurs.  For [k <= 0] it returns the
    empty list and leaves the graph as it was. *)
Theorem input_pyramid_raises_iff name M B k g :
  (input_pyramid name M B k g = Raise ValueError ↔ 1 ≤ k ∧ (M < 0 ∨ B < 0))
  ∧ (∀ e, input_pyramid name M B k g = Raise e → e = ValueError)
  ∧ (k ≤ 0 → input_pyramid name M B k g = Ok ([], g)).
Proof.
  split; [split|split].
  - intros Hraise. by destruct (input_pyramid_error_kind _ _ _ _ _ _ Hraise) as [_ ?].
  - intros [Hk Hneg]. apply input_pyramid_raises; [done | lia].
  - intros e Hraise. by destruct (input_pyramid_error_kind _ _ _ _ _ _ Hraise).
  - intros Hk. by destruct (pyramids_empty name M B k g zero_random Hk).
Qed.

(** ** The pyramids: what is drawn and what is added *)

Lemma seqZ_to_nat m k : seqZ m k = seqZ m (Z.of_nat (Z.to_nat k)).
Proof.
  destruct (decide (0 ≤ k)) as [Hk|Hk].
  - by rewrite Z2Nat.id.
  - rewrite (seqZ_nil m k) by lia. replace (Z.to_nat k) with 0%nat by lia. done.
Qed.

Lemma seqZ_succ m (n : nat) : seqZ m (Z.of_nat (S n)) = m :: seqZ (m + 1) (Z.of_nat n).
Proof.
  rewrite seqZ_cons by lia. f_equal. f_equal; lia.
Qed.

Lemma drawn_from_succ M B m (n : nat) :
  drawn_from M B m (Z.of_nat (S n))
  = level_elems M B m + drawn_from M B (m + 1) (Z.of_nat n).
Proof. unfold drawn_from. by rewrite seqZ_succ. Qed.

Lemma drawn_step M B x :
  0 ≤ x → drawn M B (x + 1) = drawn M B x + level_elems M B x.
Proof.
  intros Hx. unfold drawn, drawn_from.
  rewrite seqZ_app by lia. rewrite fmap_app.
  replace (seqZ (0 + x) 1) with [x] by (rewrite Z.add_0_l; done).
  unfold sum_list. rewrite foldr_app. simpl.
  generalize (level_elems M B <$> seqZ 0 x). intros l.
  induction l as [|y l IH]; simpl; lia.
Qed.

Lemma advance_advance rs a b : advance (advance rs a) b = advance rs (a + b).
Proof. unfold advance. simpl. f_equal. lia. Qed.

Lemma mapM_random_rand M B (n : nat) : ∀ m rs,
  0 ≤ M → 0 ≤ B → np.fits [B; M; M; 3] = true → 0 ≤ m →
  ∃ l,
    mapM (λ x, np.random_rand [B; M / 2 ^ x; M / 2 ^ x; 3]) (seqZ m (Z.of_nat n)) rs
      = Ok (l, advance rs (drawn_from M B m (Z.of_nat n)))
    ∧ length l = n
    ∧ ∀ i : nat, (i < n)%nat →
        ∃ a, l !! i = Some a
             ∧ nd_shape a = [B; M / 2 ^ (m + Z.of_nat i); M / 2 ^ (m + Z.of_nat i); 3]
             ∧ ∀ p, nd_data a p
                    = rs_stream rs (rs_pos rs + drawn_from M B m (Z.of_nat i) + p).
Proof.
  induction n as [|n IH]; intros m rs HM HB Hfits Hm.
  - exists []. split; [|split; [done | intros i Hi; lia]].
    simpl. unfold mret, state_exn_ret, advance, drawn_from. simpl.
    destruct rs as [st pos]. simpl. do 2 f_equal. f_equal. lia.
  - rewrite seqZ_succ. cbn [mapM]. unfold mbind, state_exn_bind.
    rewrite random_rand_ok
      by (apply nonneg_dims_pyramid || apply fits_pyramid; done).
    fold (level_elems M B m).
    change {| rs_stream := rs_stream rs; rs_pos := rs_pos rs + level_elems M B m |}
      with (advance rs (level_elems M B m)).
    destruct (IH (m + 1) (advance rs (level_elems M B m)) HM HB Hfits ltac:(lia))
      as (l & El & Hlen & Hl).
    unfold mbind, state_exn_bind in El. rewrite El.
    eexists. split.
    { unfold mret, state_exn_ret. rewrite advance_advance, drawn_from_succ. reflexivity. }
    split; [simpl; by rewrite Hlen|].
    intros [|i] Hi.
    + eexists. split; [reflexivity|]. simpl. rewrite Z.add_0_r. split; [done|].
      intros p. unfold drawn_from. simpl. f_equal. lia.
    + destruct (Hl i ltac:(lia)) as (a & Ha & Hsh & Hdata).
      exists a. split; [exact Ha|]. split.
      { rewrite Hsh. by replace (m + 1 + Z.of_nat i) with (m + Z.of_nat (S i)) by lia. }
      intros p. rewrite Hdata, drawn_from_succ. simpl. f_equal. lia.
Qed.

Lemma noise_pyramid_levels M B k rs :
  0 ≤ M → 0 ≤ B → np.fits [B; M; M; 3] = true →
  ∃ noise,
    noise_pyramid M B k rs = Ok (noise, advance rs (drawn M B k))
    ∧ length noise = Z.to_nat k
    ∧ ∀ x, 0 ≤ x < k →
        ∃ a, noise !! Z.to_nat (k - 1 - x) = Some a
             ∧ nd_shape a = [B; M / 2 ^ x; M / 2 ^ x; 3]
             ∧ ∀ p, nd_data a p = rs_stream rs (rs_pos rs + drawn M B x + p).
Proof.
  intros HM HB Hfits.
  destruct (mapM_random_rand M B (Z.to_nat k) 0 rs HM HB Hfits ltac:(lia))
    as (l & El & Hlen & Hl).
  rewrite <- seqZ_to_nat in El.
  exists (reverse l). split.
  { unfold noise_pyramid, range. rewrite (bind_Ok _ _ _ _ _ El).
    unfold drawn, drawn_from. by rewrite <- seqZ_to_nat. }
  split; [by rewrite length_reverse|].
  intros x Hx.
  destruct (Hl (Z.to_nat x) ltac:(lia)) as (a & Ha & Hsh & Hdata).
  exists a. split.
  { rewrite reverse_lookup by lia. rewrite Hlen, <- Ha. f_equal. lia. }
  rewrite Z.add_0_l, Z2Nat.id in Hsh by lia. split; [exact Hsh|].
  intros p. rewrite Hdata. unfold drawn. by rewrite Z2Nat.id by lia.
Qed.

(** X3: for non-negative [M] and batch size of a size NumPy can hold (the
    finest level passes its size check), [noise_pyramid] leaves the sample
    stream as it is and moves its position past every element it returns.  The levels are drawn finest first, one after the other: the array
    of level [x] (at index [k-1-x] of the result) holds the samples that start
    right after those of the levels [0 .. x-1]; no sample is used twice. *)
Theorem noise_pyramid_draws M B k rs :
  0 ≤ M → 0 ≤ B → np.fits [B; M; M; 3] = true →
  ∃ noise,
    noise_pyramid M B k rs = Ok (noise, advance rs (drawn M B k))
    ∧ length noise = Z.to_nat k
    ∧ drawn M B 0 = 0
    ∧ (∀ x, 0 ≤ x → drawn M B (x + 1) = drawn M B x + level_elems M B x
                    ∧ 0 ≤ level_elems M B x)
    ∧ ∀ x, 0 ≤ x < k →
        ∃ a, noise !! Z.to_nat (k - 1 - x) = Some a
             ∧ nd_shape a = [B; M / 2 ^ x; M / 2 ^ x; 3]
             ∧ ∀ p, nd_data a p = rs_stream rs (rs_pos rs + drawn M B x + p).
Proof.
  intros HM HB Hfits.
  destruct (noise_pyramid_levels M B k rs HM HB Hfits) as (noise & En & Hlen & Hlevels).
  exists noise. split; [exact En|]. split; [exact Hlen|]. split; [reflexivity|].
  split; [|exact Hlevels].
  intros x Hx. split; [by apply drawn_step|].
  unfold level_elems, product. simpl.
  assert (0 ≤ M / 2 ^ x) by (apply Z.div_pos; [done | by apply Z.pow_pos_nonneg]).
  nia.
Qed.

Lemma noise_pyramid_draws_witness :
  ∃ noise,
    noise_pyramid 224 1 5 harmonic_random
      = Ok (noise, advance harmonic_random (drawn 224 1 5))
    ∧ length noise = Z.to_nat 5
    ∧ drawn 224 1 0 = 0
    ∧ (∀ x, 0 ≤ x → drawn 224 1 (x + 1) = drawn 224 1 x + level_elems 224 1 x
                    ∧ 0 ≤ level_elems 224 1 x)
    ∧ ∀ x, 0 ≤ x < 5 →
        ∃ a, noise !! Z.to_nat (5 - 1 - x) = Some a
             ∧ nd_shape a = [1; 224 / 2 ^ x; 224 / 2 ^ x; 3]
             ∧ ∀ p, nd_data a p
                    = rs_stream harmonic_random
                        (rs_pos harmonic_random + drawn 224 1 x + p).
Proof.
  apply (noise_pyramid_draws 224 1 5 harmonic_random).
  - lia.
  - lia.
  - reflexivity.
Defined.

Lemma mapM_placeholder M B (n : nat) : ∀ m l sc,
  0 ≤ M → 0 ≤ B → 0 ≤ m →
  mapM (λ x, tf.placeholder [B; M / 2 ^ x; M / 2 ^ x; 3] (pretty x))
       (seqZ m (Z.of_nat n)) {| g_nodes := l; g_scope := sc |}
  = Ok (seq (length l) n,
        {| g_nodes := l ++ (placeholder_node sc M B <$> seqZ m (Z.of_nat n));
           g_scope := sc |}).
Proof.
  induction n as [|n IH]; intros m l sc HM HB Hm.
  - simpl. unfold mret, state_exn_ret. by rewrite app_nil_r.
  - rewrite seqZ_succ. cbn [mapM].
    erewrite bind_Ok; last first.
    { unfold tf.placeholder. rewrite nonneg_dims_pyramid by done. reflexivity. }
    simpl g_nodes. simpl g_scope.
    erewrite bind_Ok; last first.
    { apply IH; [done | done | lia]. }
    unfold mret, state_exn_ret. rewrite length_app, <- app_assoc. simpl.
    by rewrite Nat.add_1_r.
Qed.

Lemma input_pyramid_exact name M B k g :
  0 ≤ M → 0 ≤ B →
  input_pyramid name M B k g
  = Ok (reverse (seq (length (g_nodes g)) (Z.to_nat k)),
        {| g_nodes := g_nodes g ++ (placeholder_node (name :: g_scope g) M B <$> range k);
           g_scope := g_scope g |}).
Proof.
  intros HM HB. unfold input_pyramid, name_scope, range.
  rewrite (seqZ_to_nat 0 k).
  erewrite bind_Ok; last first.
  { apply mapM_placeholder; [done | done | lia]. }
  done.
Qed.

(** X4: for non-negative [M] and batch size, [input_pyramid] adds one
    placeholder per level, in the order [x = 0, 1, ..., k-1], each named
    [str(x)] inside the scope [name] and of shape [(B, M//2**x, M//2**x, 3)],
    and nothing else; it leaves the open scopes as they were.  The returned
    list is the reverse of the creation order, so the placeholder of level [x]
    sits at index [k-1-x] (the one named "0" is last), and no placeholder
    occurs twice. *)
Theorem input_pyramid_placeholders name M B k g :
  0 ≤ M → 0 ≤ B →
  ∃ placeholders g',
    input_pyramid name M B k g = Ok (placeholders, g')
    ∧ g_scope g' = g_scope g
    ∧ length (g_nodes g') = (length (g_nodes g) + Z.to_nat k)%nat
    ∧ take (length (g_nodes g)) (g_nodes g') = g_nodes g
    ∧ length placeholders = Z.to_nat k
    ∧ NoDup placeholders
    ∧ ∀ x, 0 ≤ x < k →
        placeholders !! Z.to_nat (k - 1 - x) = Some (length (g_nodes g) + Z.to_nat x)%nat
        ∧ g_nodes g' !! (length (g_nodes g) + Z.to_nat x)%nat
          = Some {| n_scope := name :: g_scope g; n_op := Placeholder (pretty x);
                    n_shape := [B; M / 2 ^ x; M / 2 ^ x; 3] |}.
Proof.
  intros HM HB. eexists _, _. split; [by apply input_pyramid_exact|].
  simpl. split; [done|]. split.
  { unfold range. by rewrite length_app, length_fmap, length_seqZ. }
  split; [by rewrite take_app_length|].
  split; [by rewrite length_reverse, length_seq|].
  split; [rewrite reverse_Permutation; apply NoDup_seq|].
  intros x Hx. split.
  - rewrite reverse_lookup by (rewrite length_seq; lia).
    rewrite length_seq. rewrite lookup_seq_lt by lia. f_equal. lia.
  - rewrite lookup_app_r by lia.
    replace (length (g_nodes g) + Z.to_nat x - length (g_nodes g))%nat
      with (Z.to_nat x) by lia.
    unfold range. rewrite list_lookup_fmap, lookup_seqZ_lt by lia.
    simpl. unfold placeholder_node. do 3 f_equal; try (f_equal; lia).
    all: repeat f_equal; lia.
Qed.

Lemma input_pyramid_placeholders_witness :
  ∃ placeholders g',
    input_pyramid "noise" 224 1 5 empty_graph = Ok (placeholders, g')
    ∧ g_scope g' = g_scope empty_graph
    ∧ length (g_nodes g') = (length (g_nodes empty_graph) + Z.to_nat 5)%nat
    ∧ take (length (g_nodes empty_graph)) (g_nodes g') = g_nodes empty_graph
    ∧ length placeholders = Z.to_nat 5
    ∧ NoDup placeholders
    ∧ ∀ x, 0 ≤ x < 5 →
        placeholders !! Z.to_nat (5 - 1 - x)
          = Some (length (g_nodes empty_graph) + Z.to_nat x)%nat
        ∧ g_nodes g' !! (length (g_nodes empty_graph) + Z.to_nat x)%nat
          = Some {| n_scope := "noise" :: g_scope empty_graph; n_op := Placeholder (pretty x);
                    n_shape := [1; 224 / 2 ^ x; 224 / 2 ^ x; 3] |}.
Proof.
  apply (input_pyramid_placeholders "noise" 224 1 5 empty_graph).
  - lia.
  - lia.
Defined.

(** ** Binding the noise to the placeholders *)

Lemma bind_feed_lookup noise inputs : ∀ (index : nat) (feed_dict : gmap tensor ndarray),
  NoDup inputs → (index + length inputs ≤ length noise)%nat →
  ∃ feed',
    bind_feed inputs index noise feed_dict = Ok feed'
    ∧ (∀ (j : nat) p, inputs !! j = Some p → feed' !! p = noise !! (index + j)%nat)
    ∧ (∀ q, q ∉ inputs → feed' !! q = feed_dict !! q).
Proof.
  induction inputs as [|p inputs IH]; intros index feed_dict Hnd Hlen.
  - exists feed_dict. split; [done|]. split; [intros j p Hj; done | done].
  - apply NoDup_cons in Hnd as [Hp Hnd]. simpl in Hlen |- *.
    destruct (lookup_lt_is_Some_2 noise index ltac:(lia)) as [a Ha]. rewrite Ha.
    destruct (IH (S index) (<[p:=a]> feed_dict) Hnd ltac:(lia)) as (feed' & E & Hin & Hout).
    exists feed'. split; [exact E|]. split.
    + intros [|j] q Hq.
      * simpl in Hq. injection Hq as <-.
        rewrite (Hout p Hp), lookup_insert_eq, Nat.add_0_r. done.
      * simpl in Hq. rewrite (Hin j q Hq). f_equal. lia.
    + intros q Hq. apply not_elem_of_cons in Hq as [Hne Hq].
      rewrite (Hout q Hq). by apply lookup_insert_ne.
Qed.

Lemma bind_feed_bounds noise inputs : ∀ (index : nat) (feed_dict : gmap tensor ndarray),
  (index ≤ length noise)%nat →
  (bind_feed inputs index noise feed_dict = Raise IndexError
   ↔ (length noise < index + length inputs)%nat)
  ∧ (∀ e, bind_feed inputs index noise feed_dict = Raise e → e = IndexError).
Proof.
  induction inputs as [|p inputs IH]; intros index feed_dict Hidx.
  - simpl. split; [split; [done | lia] | done].
  - simpl. destruct (noise !! index) as [a|] eqn:Ha.
    + apply lookup_lt_Some in Ha.
      destruct (IH (S index) (<[p:=a]> feed_dict) ltac:(lia)) as [Hiff Hkind].
      split; [|exact Hkind]. rewrite Hiff. lia.
    + apply lookup_ge_None in Ha. split; [split; [lia | done]|].
      intros e He. congruence.
Qed.

Lemma bind_feed_binds_by_index_lemma inputs noise :
  NoDup inputs → (length inputs ≤ length noise)%nat →
  ∃ feed_dict,
    bind_feed inputs 0 noise ∅ = Ok feed_dict
    ∧ (∀ (j : nat) p, inputs !! j = Some p → feed_dict !! p = noise !! j)
    ∧ (∀ q, q ∉ inputs → feed_dict !! q = None).
Proof.
  intros Hnd Hlen.
  destruct (bind_feed_lookup noise inputs 0 ∅ Hnd ltac:(lia)) as (feed & E & Hin & Hout).
  exists feed. split; [exact E|]. split; [exact Hin|].
  intros q Hq. by rewrite (Hout q Hq).
Qed.

(** X5: when the placeholders are pairwise distinct and there are at least
    as many arrays as placeholders, the loop that fills [feed_dict] binds
    the placeholder at every index to the array at the same index and binds
    nothing else; arrays beyond the last placeholder are ignored. *)
Theorem bind_feed_binds_by_index inputs noise :
  NoDup inputs → (length inputs ≤ length noise)%nat →
  ∃ feed_dict,
    bind_feed inputs 0 noise ∅ = Ok feed_dict
    ∧ (∀ (j : nat) p, inputs !! j = Some p → feed_dict !! p = noise !! j)
    ∧ (∀ q, q ∉ inputs → feed_dict !! q = None)
    ∧ (∀ q, is_Some (feed_dict !! q) ↔ q ∈ inputs).
Proof.
  intros Hnd Hlen.
  destruct (bind_feed_binds_by_index_lemma inputs noise Hnd Hlen)
    as (feed & E & Hin & Hnone).
  exists feed. split; [exact E|]. split; [exact Hin|].
  split; [exact Hnone|].
  intros q. split.
  - intros Hsome. destruct (decide (q ∈ inputs)) as [|Hq]; [done|].
    rewrite (Hnone q Hq) in Hsome. by destruct Hsome.
  - intros Hq. apply list_elem_of_lookup in Hq as [j Hj].
    rewrite (Hin j q Hj). apply lookup_lt_is_Some_2.
    apply lookup_lt_Some in Hj. lia.
Qed.

Lemma bind_feed_binds_by_index_witness :
  ∃ feed_dict,
    bind_feed [4; 3; 2; 1; 0]%nat 0
              [blank_style_img; blank_style_img; blank_style_img; blank_style_img;
               blank_style_img; blank_style_img] ∅ = Ok feed_dict
    ∧ (∀ (j : nat) p, [4; 3; 2; 1; 0]%nat !! j = Some p →
          feed_dict !! p
          = [blank_style_img; blank_style_img; blank_style_img; blank_style_img;
             blank_style_img; blank_style_img] !! j)
    ∧ (∀ q, q ∉ [4; 3; 2; 1; 0]%nat → feed_dict !! q = None)
    ∧ (∀ q, is_Some (feed_dict !! q) ↔ q ∈ [4; 3; 2; 1; 0]%nat).
Proof.
  apply (bind_feed_binds_by_index [4; 3; 2; 1; 0]%nat
           [blank_style_img; blank_style_img; blank_style_img; blank_style_img;
            blank_style_img; blank_style_img]).
  - apply (bool_decide_unpack _). vm_compute. exact I.
  - simpl. lia.
Defined.

(** X6: the loop that fills [feed_dict] raises exactly when there are fewer
    arrays than placeholders ([noise[index]] is out of range), and then it is
    an [IndexError]. *)
Theorem bind_feed_raises_iff inputs noise :
  (bind_feed inputs 0 noise ∅ = Raise IndexError ↔ (length noise < length inputs)%nat)
  ∧ (∀ e, bind_feed inputs 0 noise ∅ = Raise e → e = IndexError).
Proof.
  destruct (bind_feed_bounds noise inputs 0 ∅ ltac:(lia)) as [Hiff Hkind].
  split; [|exact Hkind]. rewrite Hiff. lia.
Qed.

(** ** The exported byte as a function of the output value *)

Lemma np_clip_mono x y : (x <= y)%Q → (np_clip x 0 255 <= np_clip y 0 255)%Q.
Proof.
  intros Hxy. unfold np_clip. apply Q.min_le_compat_r. by apply Q.max_le_compat_r.
Qed.

Lemma np_clip_low x : (x <= 0)%Q → (np_clip x 0 255 == 0)%Q.
Proof.
  intros Hx. apply Qle_antisym; [|by destruct (np_clip_range x)].
  unfold np_clip. eapply Qle_trans; [apply Q.le_min_l|]. by apply Q.max_lub.
Qed.

Lemma np_clip_high x : (255 <= x)%Q → (np_clip x 0 255 == 255)%Q.
Proof.
  intros Hx. apply Qle_antisym; [by destruct (np_clip_range x)|].
  unfold np_clip. apply Q.min_glb; [|done].
  eapply Qle_trans; [exact Hx | apply Q.le_max_l].
Qed.

Lemma np_clip_inside x : (0 <= x)%Q → (x <= 255)%Q → (np_clip x 0 255 == x)%Q.
Proof.
  intros Hlo Hhi. unfold np_clip.
  rewrite (Q.max_l x 0 Hlo). by apply Q.min_l.
Qed.

(** X7: the exported byte never decreases when the output value grows; it
    is 0 for every value up to 0 and 255 for every value from 1 on; for a
    value in between it is the integer part of 255 times the value, so at most
    254. *)
Theorem img_out_pixel_monotone_saturating :
  (∀ v1 v2, (v1 <= v2)%Q → img_out_pixel v1 ≤ img_out_pixel v2)
  ∧ (∀ v, (v <= 0)%Q → img_out_pixel v = 0)
  ∧ (∀ v, (1 <= v)%Q → img_out_pixel v = 255)
  ∧ (∀ v, (0 <= v)%Q → (v < 1)%Q →
          img_out_pixel v = Qfloor (v * 255) ∧ 0 ≤ img_out_pixel v ≤ 254).
Proof.
  split; [|split; [|split]].
  - intros v1 v2 Hv. rewrite !img_out_pixel_floor.
    apply Qfloor_resp_le, np_clip_mono. by apply Qmult_le_compat_r.
  - intros v Hv. rewrite img_out_pixel_floor.
    rewrite (Qfloor_comp _ 0); [done|].
    apply np_clip_low. rewrite <- (Qmult_0_l 255). by apply Qmult_le_compat_r.
  - intros v Hv. rewrite img_out_pixel_floor.
    rewrite (Qfloor_comp _ 255); [done|].
    apply np_clip_high. rewrite <- (Qmult_1_l 255) at 1. by apply Qmult_le_compat_r.
  - intros v Hlo Hhi. rewrite img_out_pixel_floor.
    assert (0 <= v * 255)%Q as Hlo'.
    { rewrite <- (Qmult_0_l 255). by apply Qmult_le_compat_r. }
    assert (v * 255 < 255)%Q as Hhi'.
    { rewrite <- (Qmult_1_l 255) at 2. by apply Qmult_lt_compat_r. }
    rewrite (Qfloor_comp _ (v * 255)) by (apply np_clip_inside; [done | by apply Qlt_le_weak]).
    split; [done|].
    pose proof (Qfloor_resp_le _ _ Hlo') as H0. change (Qfloor 0) with 0 in H0.
    assert (Qfloor (v * 255) < 255); [|lia].
    rewrite Zlt_Qlt. eapply Qle_lt_trans; [apply Qfloor_le | exact Hhi'].
Qed.

(** ** The training loop, iteration by iteration *)

Lemma filter_due_range (n : nat) :
  filter due (seqZ 0 (Z.of_nat n + 1)) = (λ j, 20 * j) <$> seqZ 1 (Z.of_nat n / 20).
Proof.
  induction n as [|n IH]; [done|].
  replace (Z.of_nat (S n) + 1) with (Z.of_nat (S (S n))) by lia.
  rewrite seqZ_S, filter_app.
  replace (Z.of_nat (S n)) with (Z.of_nat n + 1) at 1 by lia.
  rewrite IH, Z.add_0_l.
  destruct (decide (due (Z.of_nat (S n)))) as [Hdue|Hdue].
  - rewrite (filter_cons_True due _ _ Hdue), filter_nil.
    destruct Hdue as [Hpos Hmod].
    assert (Z.of_nat (S n) / 20 = Z.of_nat n / 20 + 1) as -> by (Z.div_mod_to_equations; lia).
    rewrite seqZ_app by (try lia; apply Z.div_pos; lia).
    rewrite fmap_app. f_equal.
    replace (seqZ (1 + Z.of_nat n / 20) 1) with [1 + Z.of_nat n / 20] by done.
    simpl. f_equal. Z.div_mod_to_equations; lia.
  - rewrite (filter_cons_False due _ _ Hdue), filter_nil, app_nil_r.
    unfold due in Hdue.
    assert (Z.of_nat (S n) / 20 = Z.of_nat n / 20) as -> by (Z.div_mod_to_equations; lia).
    done.
Qed.

Lemma filter_due_closed E :
  1 ≤ E → filter due (range E) = (λ j, 20 * j) <$> seqZ 1 ((E - 1) / 20).
Proof.
  intros HE. unfold range.
  replace E with (Z.of_nat (Z.to_nat (E - 1)) + 1) at 1 by lia.
  rewrite filter_due_range. by rewrite Z2Nat.id by lia.
Qed.

(** X8: a run of [E >= 1] epochs writes exactly [(E-1) // 20] checkpoints
    and as many images, keyed 20, 40, ..., [20 * ((E-1) // 20)] in that
    order; what the last [(E-1) % 20] steps change is not saved. *)
Theorem checkpoint_schedule sess_run_output style_img rs E :
  style_img_fits style_img → 1 ≤ E →
  ∃ net w',
    TextureNetwork_init (TextureNetwork_with_epochs E) style_img = Ok net
    ∧ run_train sess_run_output net (fresh_world rs) = Ok ((), w')
    ∧ saved_checkpoints (w_log w')
      = (λ j, checkpoint_path (20 * j)) <$> seqZ 1 ((E - 1) / 20)
    ∧ saved_images (w_log w') = (λ j, image_path (20 * j)) <$> seqZ 1 ((E - 1) / 20)
    ∧ length (saved_checkpoints (w_log w')) = Z.to_nat ((E - 1) / 20)
    ∧ length (saved_images (w_log w')) = Z.to_nat ((E - 1) / 20).
Proof.
  intros Himg HE.
  destruct (run_train_spec sess_run_output (TextureNetwork_with_epochs E) style_img rs
              eq_refl eq_refl ltac:(done) Himg)
    as (net & w' & Einit & Erun & _ & Hck & Him & _).
  change (epochs (TextureNetwork_with_epochs E)) with E in Hck, Him.
  rewrite (filter_due_closed E HE), <- list_fmap_compose in Hck.
  rewrite (filter_due_closed E HE), <- list_fmap_compose in Him.
  exists net, w'. split; [exact Einit|]. split; [exact Erun|].
  split; [exact Hck|]. split; [exact Him|].
  rewrite Hck, Him, !length_fmap, length_seqZ. split; reflexivity.
Qed.

Lemma checkpoint_schedule_witness :
  ∃ net w',
    TextureNetwork_init (TextureNetwork_with_epochs 1000) blank_style_img = Ok net
    ∧ run_train zero_session net (fresh_world zero_random) = Ok ((), w')
    ∧ saved_checkpoints (w_log w')
      = (λ j, checkpoint_path (20 * j)) <$> seqZ 1 ((1000 - 1) / 20)
    ∧ saved_images (w_log w') = (λ j, image_path (20 * j)) <$> seqZ 1 ((1000 - 1) / 20)
    ∧ length (saved_checkpoints (w_log w')) = Z.to_nat ((1000 - 1) / 20)
    ∧ length (saved_images (w_log w')) = Z.to_nat ((1000 - 1) / 20).
Proof.
  apply (checkpoint_schedule zero_session blank_style_img zero_random 1000).
  - reflexivity.
  - lia.
Defined.

Lemma init_fields self style_img net :
  TextureNetwork_init self style_img = Ok net →
  ∃ g, build_generator self empty_graph = Ok ((noise_inputs net, output net), g).
Proof.
  unfold TextureNetwork_init. intros Einit.
  destruct (build_generator self empty_graph) as [[[phs out] g4]|e] eqn:Egen.
  2:{ rewrite (bind_Raise _ _ _ _ Egen) in Einit. discriminate Einit. }
  rewrite (bind_Ok _ _ _ _ _ Egen) in Einit.
  destruct (build_style_loss self style_img (phs, out).2 g4) as [[[[t b] l] g5]|e] eqn:Eloss.
  2:{ rewrite (bind_Raise _ _ _ _ Eloss) in Einit. discriminate Einit. }
  rewrite (bind_Ok _ _ _ _ _ Eloss) in Einit. simpl in Einit.
  injection Einit as <-. simpl. by exists g4.
Qed.

Lemma init_constructed self style_img :
  inputDimension self = 224 → 0 ≤ batchSize self → 0 < channelStepSize self →
  style_img_fits style_img → np.fits [batchSize self; 224; 224; 3] = true →
  ∃ net, TextureNetwork_init self style_img = Ok net ∧ tn_class net = self ∧ constructed net.
Proof.
  intros HM HB Hstep Himg Hfits.
  destruct (TextureNetwork_init_spec self style_img HM HB Hstep Himg)
    as (net & batched & Einit & Hcls & Hin & Hout & _).
  exists net. split; [exact Einit|]. split; [exact Hcls|].
  destruct (init_fields _ _ _ Einit) as (g & Egen).
  destruct (build_generator_stages self empty_graph ltac:(lia) HB Hstep)
    as (phs & g1 & p & cc & agg & g2 & fc & g3 & out & g4 & E1 & _ & _ & _ & _ & _
        & Egen' & _).
  rewrite Egen in Egen'. injection Egen' as Hphs _ _.
  rewrite input_pyramid_exact in E1 by lia. injection E1 as E1 _.
  unfold constructed. rewrite Hcls, HM.
  split; [reflexivity|]. split; [by split|]. split; [by rewrite Hphs, <- E1|].
  split; [exact Hin | exact Hout].
Qed.

Lemma pyramid_feed net rs :
  constructed net →
  ∃ noise feed_dict,
    noise_pyramid 224 (batchSize (tn_class net)) k_default rs
      = Ok (noise, advance rs (drawn 224 (batchSize (tn_class net)) 5))
    ∧ bind_feed (noise_inputs net) 0 noise ∅ = Ok feed_dict
    ∧ feed_ok (tn_graph net) feed_dict = true
    ∧ fed rs (batchSize (tn_class net)) feed_dict.
Proof.
  intros (HM & [HB Hfits] & Hphs & Hin & Hout).
  destruct (noise_pyramid_levels 224 (batchSize (tn_class net)) k_default rs
              ltac:(lia) HB Hfits)
    as (noise & En & Hlen & Hlevels).
  pose proof (noise_pyramid_shapes 224 (batchSize (tn_class net)) k_default rs
                ltac:(lia) HB Hfits) as Hwp.
  unfold wp in Hwp. rewrite En in Hwp.
  destruct (bind_feed_Forall2 (tn_graph net) noise (noise_inputs net))
    as (feed & Efeed & Hfeed).
  { rewrite <- Hwp in Hin. rewrite Forall2_fmap_r in Hin.
    eapply Forall2_impl; [exact Hin|]. intros q a Hqa. by apply has_shape_get_shape. }
  exists noise, feed. split; [exact En|]. split; [exact Efeed|]. split; [exact Hfeed|].
  destruct (bind_feed_binds_by_index_lemma (noise_inputs net) noise)
    as (feed' & Efeed' & Hbind & _).
  { rewrite Hphs. apply (bool_decide_unpack _). vm_compute. exact I. }
  { rewrite Hphs, Hlen. unfold k_default. simpl. lia. }
  rewrite Efeed in Efeed'. injection Efeed' as <-.
  intros x Hx. destruct (Hlevels x Hx) as (a & Ha & Hsh & Hdata).
  exists a. split; [|split; [exact Hsh | exact Hdata]].
  rewrite <- Ha. apply (Hbind (Z.to_nat (k_default - 1 - x))).
  rewrite Hphs. unfold k_default.
  assert (x = 0 ∨ x = 1 ∨ x = 2 ∨ x = 3 ∨ x = 4) as Hcases by lia.
  destruct Hcases as [->|[->|[->|[->| ->]]]]; reflexivity.
Qed.

Lemma reshape_output B (data : Z → Q) :
  np.reshape {| nd_shape := [B; 224; 224; 3]; nd_data := data |} [224; 224; 3]
  = if decide (B = 1) then Ok {| nd_shape := [224; 224; 3]; nd_data := data |}
    else Raise ValueError.
Proof.
  unfold np.reshape. simpl nd_shape.
  assert (product [B; 224; 224; 3] = B * 150528) as -> by (unfold product; simpl; lia).
  change (product [224; 224; 3]) with 150528.
  destruct (decide (B = 1)) as [->|HB].
  - by rewrite bool_decide_eq_true_2.
  - rewrite bool_decide_eq_false_2; [done | lia].
Qed.

(** One iteration, exactly: it raises only when it has to export the output
    of a batch other than one; otherwise it draws one pyramid and appends its
    events. *)
Lemma train_iteration_exact sess_run_output net i w :
  constructed net →
  ∃ feed_dict,
    feed_ok (tn_graph net) feed_dict = true
    ∧ fed (w_random w) (batchSize (tn_class net)) feed_dict
    ∧ train_iteration sess_run_output net i w
      = if decide (due i ∧ batchSize (tn_class net) ≠ 1) then Raise ValueError
        else Ok ((), {| w_random := advance (w_random w)
                                            (drawn 224 (batchSize (tn_class net)) 5);
                        w_log := w_log w ++ iteration_events sess_run_output i feed_dict |}).
Proof.
  intros Hnet.
  destruct (pyramid_feed net (w_random w) Hnet) as (noise & feed & En & Efeed & Hok & Hfed).
  destruct Hnet as (HM & HB & Hphs & Hin & Hout).
  exists feed. split; [exact Hok|]. split; [exact Hfed|].
  unfold train_iteration. rewrite HM.
  erewrite bind_Ok; last first.
  { unfold with_random. rewrite En. reflexivity. }
  erewrite bind_Ok; last first.
  { unfold lift_result. rewrite Efeed. reflexivity. }
  erewrite bind_Ok; last first.
  { unfold train_step_run. rewrite Hok. reflexivity. }
  unfold iteration_events.
  destruct (decide (due i)) as [[Hpos Hmod]|Hnot].
  - rewrite !bool_decide_eq_true_2 by done. cbn [andb].
    erewrite bind_Ok; last first.
    { reflexivity. }
    unfold sess_run. rewrite Hok.
    erewrite bind_Ok; last first.
    { reflexivity. }
    rewrite (has_shape_get_shape _ _ _ Hout), reshape_output.
    destruct (decide (batchSize (tn_class net) = 1)) as [HB1|HB1].
    + rewrite decide_False by tauto.
      erewrite bind_Ok; last first.
      { reflexivity. }
      unfold emit. cbn. by rewrite <- !app_assoc.
    + rewrite decide_True by done.
      by erewrite bind_Raise.
  - rewrite decide_False by tauto.
    assert (bool_decide (0 < i) && bool_decide (i `mod` 20 = 0) = false) as ->.
    { unfold due in Hnot. apply andb_false_iff.
      destruct (decide (0 < i)); [right | left]; apply bool_decide_eq_false_2; tauto. }
    reflexivity.
Qed.

Lemma fed_same_position rs rs' B feed_dict :
  rs_stream rs' = rs_stream rs → rs_pos rs' = rs_pos rs →
  fed rs B feed_dict → fed rs' B feed_dict.
Proof.
  intros Hs Hp Hfed x Hx. destruct (Hfed x Hx) as (a & Ha & Hsh & Hdata).
  exists a. split; [exact Ha|]. split; [exact Hsh|].
  intros p. by rewrite Hdata, Hs, Hp.
Qed.

(** The iterations [steps], none of which has to export a batch other than
    one: every one draws its own pyramid, and the log grows by their events. *)
Lemma for_each_train_exact sess_run_output net steps : ∀ w,
  constructed net →
  (∀ i, i ∈ steps → ¬ (due i ∧ batchSize (tn_class net) ≠ 1)) →
  ∃ feeds,
    length feeds = length steps
    ∧ for_each steps (train_iteration sess_run_output net) w
      = Ok ((), {| w_random := advance (w_random w)
                                 (Z.of_nat (length steps)
                                  * drawn 224 (batchSize (tn_class net)) 5);
                   w_log := w_log w ++ run_events sess_run_output steps feeds |})
    ∧ ∀ (j : nat) feed_dict, feeds !! j = Some feed_dict →
        feed_ok (tn_graph net) feed_dict = true
        ∧ fed (advance (w_random w)
                 (Z.of_nat j * drawn 224 (batchSize (tn_class net)) 5))
              (batchSize (tn_class net)) feed_dict.
Proof.
  induction steps as [|i steps IH]; intros w Hnet Hsteps.
  - exists []. split; [reflexivity|]. split; [|intros j f Hj; discriminate Hj].
    simpl. unfold mret, state_exn_ret, run_events, advance. simpl.
    destruct w as [[st pos] log]. simpl. rewrite app_nil_r, Z.add_0_r. reflexivity.
  - destruct (train_iteration_exact sess_run_output net i w Hnet)
      as (feed & Hok & Hfed & Eit).
    rewrite decide_False in Eit by (apply Hsteps; left).
    match type of Eit with
    | _ = Ok (_, ?w1) =>
        destruct (IH w1 Hnet (λ i' Hi', Hsteps i' (list_elem_of_further _ _ _ Hi')))
          as (feeds & Hlen & Erest & Hfeeds)
    end.
    exists (feed :: feeds). split; [simpl; by rewrite Hlen|]. split.
    + cbn [for_each]. rewrite (bind_Ok _ _ _ _ _ Eit), Erest. cbn [w_random w_log].
      rewrite advance_advance. unfold run_events. cbn [zip_with concat length].
      rewrite <- !app_assoc. do 3 f_equal. f_equal. lia.
    + intros [|j] f Hj.
      * injection Hj as <-. split; [exact Hok|].
        eapply fed_same_position; [| |exact Hfed]; simpl; [reflexivity | lia].
      * destruct (Hfeeds j f Hj) as [Hokj Hfedj]. split; [exact Hokj|].
        eapply fed_same_position; [| |exact Hfedj]; simpl; [reflexivity | lia].
Qed.

Lemma for_each_raises {S A} (body : A → state_exn S unit) l1 x l2 : ∀ s s1 e,
  for_each l1 body s = Ok ((), s1) → body x s1 = Raise e →
  for_each (l1 ++ x :: l2) body s = Raise e.
Proof.
  induction l1 as [|y l1 IH]; intros s s1 e Hl1 Hx.
  - simpl in Hl1. injection Hl1 as <-. simpl. by rewrite (bind_Raise _ _ _ _ Hx).
  - simpl in Hl1 |- *. destruct (body y s) as [[[] s0]|e0] eqn:Ey.
    + rewrite (bind_Ok _ _ _ _ _ Ey) in Hl1. rewrite (bind_Ok _ _ _ _ _ Ey).
      by eapply IH.
    + rewrite (bind_Raise _ _ _ _ Ey) in Hl1. discriminate Hl1.
Qed.

Lemma train_steps_run_events sess_run_output steps : ∀ feeds,
  length feeds = length steps →
  train_steps (run_events sess_run_output steps feeds) = feeds.
Proof.
  induction steps as [|i steps IH]; intros [|f feeds] Hlen; try discriminate Hlen.
  - reflexivity.
  - unfold run_events. cbn [zip_with concat]. rewrite train_steps_app.
    fold (run_events sess_run_output steps feeds). rewrite IH by (simpl in Hlen; lia).
    unfold iteration_events. by destruct (decide (due i)).
Qed.

Lemma saved_checkpoints_run_events sess_run_output steps : ∀ feeds,
  length feeds = length steps →
  saved_checkpoints (run_events sess_run_output steps feeds)
  = checkpoint_path <$> filter due steps.
Proof.
  induction steps as [|i steps IH]; intros [|f feeds] Hlen; try discriminate Hlen.
  - reflexivity.
  - unfold run_events. cbn [zip_with concat]. rewrite saved_checkpoints_app.
    fold (run_events sess_run_output steps feeds). rewrite IH by (simpl in Hlen; lia).
    rewrite saved_checkpoints_events.
    replace (i :: steps) with ([i] ++ steps) by done.
    by rewrite filter_app, fmap_app.
Qed.

Lemma run_events_app sess_run_output steps1 steps2 feeds1 feeds2 :
  length feeds1 = length steps1 →
  run_events sess_run_output (steps1 ++ steps2) (feeds1 ++ feeds2)
  = run_events sess_run_output steps1 feeds1 ++ run_events sess_run_output steps2 feeds2.
Proof.
  intros Hlen. unfold run_events.
  rewrite zip_with_app by done. by rewrite concat_app.
Qed.

(** Construction with the class constants, then the whole loop, exactly. *)
Lemma run_train_exact sess_run_output style_img rs E :
  style_img_fits style_img →
  ∃ net feeds,
    TextureNetwork_init (TextureNetwork_with_epochs E) style_img = Ok net
    ∧ length feeds = Z.to_nat E
    ∧ run_train sess_run_output net (fresh_world rs)
      = Ok ((), {| w_random := advance rs (Z.of_nat (Z.to_nat E) * drawn 224 1 5);
                   w_log := run_events sess_run_output (range E) feeds |})
    ∧ ∀ (j : nat) feed_dict, feeds !! j = Some feed_dict →
        feed_ok (tn_graph net) feed_dict = true
        ∧ fed (advance rs (Z.of_nat j * drawn 224 1 5)) 1 feed_dict.
Proof.
  intros Himg.
  destruct (init_constructed (TextureNetwork_with_epochs E) style_img
              eq_refl ltac:(done) ltac:(done) Himg eq_refl)
    as (net & Einit & Hcls & Hnet).
  destruct (for_each_train_exact sess_run_output net (range E) (fresh_world rs) Hnet)
    as (feeds & Hlen & Erun & Hfeeds).
  { intros i _ [_ HB]. apply HB. by rewrite Hcls. }
  rewrite Hcls in Erun, Hfeeds.
  change (batchSize (TextureNetwork_with_epochs E)) with 1 in Erun, Hfeeds.
  unfold range in Hlen. rewrite length_seqZ in Hlen.
  exists net, feeds. split; [exact Einit|]. split; [exact Hlen|]. split.
  - unfold run_train. rewrite Hcls.
    change (epochs (TextureNetwork_with_epochs E)) with E.
    rewrite Erun. unfold range. rewrite length_seqZ. reflexivity.
  - exact Hfeeds.
Qed.

Lemma run_events_cons sess_run_output i steps f feeds :
  run_events sess_run_output (i :: steps) (f :: feeds)
  = iteration_events sess_run_output i f ++ run_events sess_run_output steps feeds.
Proof. reflexivity. Qed.

(** X9: in a run of [E] epochs, iteration [i] (for [0 <= i < E]) adds its
    events after exactly [i] earlier training steps: first its own training
    step and then, when [i > 0] and [i % 20 = 0], the checkpoint keyed [i]
    followed directly by the image keyed [i].  So the checkpoint keyed [i]
    holds the parameters after [i + 1] training steps. *)
Theorem checkpoint_follows_its_step sess_run_output style_img rs E i :
  style_img_fits style_img → 0 ≤ i < E →
  ∃ net w' l1 l2 feed_dict,
    TextureNetwork_init (TextureNetwork_with_epochs E) style_img = Ok net
    ∧ run_train sess_run_output net (fresh_world rs) = Ok ((), w')
    ∧ w_log w' = l1 ++ iteration_events sess_run_output i feed_dict ++ l2
    ∧ (due i →
       iteration_events sess_run_output i feed_dict
       = [TrainStepRun feed_dict; SaverSave (checkpoint_path i);
          ImSave (image_path i) (exported_image sess_run_output i)])
    ∧ (¬ due i → iteration_events sess_run_output i feed_dict = [TrainStepRun feed_dict])
    ∧ length (train_steps l1) = Z.to_nat i
    ∧ length (train_steps l2) = Z.to_nat (E - 1 - i)
    ∧ saved_checkpoints l1 = checkpoint_path <$> filter due (range i).
Proof.
  intros Himg Hi.
  destruct (run_train_exact sess_run_output style_img rs E Himg)
    as (net & feeds & Einit & Hlen & Erun & _).
  destruct (lookup_lt_is_Some_2 feeds (Z.to_nat i) ltac:(lia)) as [f Hf].
  exists net. eexists.
  exists (run_events sess_run_output (range i) (take (Z.to_nat i) feeds)),
    (run_events sess_run_output (seqZ (i + 1) (E - 1 - i)) (drop (S (Z.to_nat i)) feeds)), f.
  split; [exact Einit|]. split; [exact Erun|].
  assert (length (take (Z.to_nat i) feeds) = length (range i)) as Hl1.
  { unfold range. rewrite length_take, length_seqZ. lia. }
  assert (length (drop (S (Z.to_nat i)) feeds) = length (seqZ (i + 1) (E - 1 - i))) as Hl2.
  { rewrite length_drop, length_seqZ. lia. }
  split.
  { cbn [w_log]. rewrite <- run_events_cons, <- run_events_app by exact Hl1.
    f_equal.
    - unfold range. replace E with (i + (1 + (E - 1 - i))) at 1 by lia.
      rewrite seqZ_app by lia. rewrite seqZ_app by lia. rewrite !Z.add_0_l.
      by replace (seqZ i 1) with [i] by done.
    - by rewrite take_drop_middle. }
  split; [intros Hdue; unfold iteration_events; by rewrite decide_True|].
  split; [intros Hdue; unfold iteration_events; by rewrite decide_False|].
  rewrite !train_steps_run_events by (exact Hl1 || exact Hl2).
  split; [rewrite length_take; lia|]. split; [rewrite length_drop; lia|].
  by apply saved_checkpoints_run_events.
Qed.

Lemma checkpoint_follows_its_step_witness :
  ∃ net w' l1 l2 feed_dict,
    TextureNetwork_init (TextureNetwork_with_epochs 30) blank_style_img = Ok net
    ∧ run_train zero_session net (fresh_world zero_random) = Ok ((), w')
    ∧ w_log w' = l1 ++ iteration_events zero_session 20 feed_dict ++ l2
    ∧ (due 20 →
       iteration_events zero_session 20 feed_dict
       = [TrainStepRun feed_dict; SaverSave (checkpoint_path 20);
          ImSave (image_path 20) (exported_image zero_session 20)])
    ∧ (¬ due 20 → iteration_events zero_session 20 feed_dict = [TrainStepRun feed_dict])
    ∧ length (train_steps l1) = Z.to_nat 20
    ∧ length (train_steps l2) = Z.to_nat (30 - 1 - 20)
    ∧ saved_checkpoints l1 = checkpoint_path <$> filter due (range 20).
Proof.
  apply (checkpoint_follows_its_step zero_session blank_style_img zero_random 30 20).
  - reflexivity.
  - lia.
Defined.

(** Replace the sizes of the concrete levels by their values. *)
Ltac eval_levels :=
  repeat match goal with
    | H : context [level_elems 224 1 ?k] |- _ =>
        let v := eval vm_compute in (level_elems 224 1 k) in
        change (level_elems 224 1 k) with v in H
    | H : context [drawn 224 1 ?k] |- _ =>
        let v := eval vm_compute in (drawn 224 1 k) in
        change (drawn 224 1 k) with v in H
    end.

Lemma drawn_levels x :
  0 ≤ x < 5 →
  0 ≤ drawn 224 1 x ∧ 0 < level_elems 224 1 x
  ∧ drawn 224 1 x + level_elems 224 1 x ≤ 200508.
Proof.
  intros Hx.
  assert (x = 0 ∨ x = 1 ∨ x = 2 ∨ x = 3 ∨ x = 4) as Hcases by lia.
  destruct Hcases as [->|[->|[->|[->| ->]]]]; vm_compute; repeat split; congruence.
Qed.

Lemma constructed_placeholder net x :
  constructed net → 0 ≤ x < 5 →
  noise_inputs net !! Z.to_nat (4 - x) = Some (Z.to_nat x)
  ∧ get_shape (tn_graph net) (Z.to_nat x)
    = [batchSize (tn_class net); 224 / 2 ^ x; 224 / 2 ^ x; 3].
Proof.
  intros (_ & _ & Hphs & Hin & _) Hx.
  rewrite Hphs, pyramid_shapes_default in Hin. rewrite Hphs.
  repeat match goal with
         | H : Forall2 _ (_ :: _) (_ :: _) |- _ => apply Forall2_cons in H as [? H]
         end.
  assert (x = 0 ∨ x = 1 ∨ x = 2 ∨ x = 3 ∨ x = 4) as Hcases by lia.
  destruct Hcases as [->|[->|[->|[->| ->]]]];
    (split; [reflexivity | by apply has_shape_get_shape]).
Qed.

(** X10: with the class constants, every iteration of the loop draws a new
    noise pyramid: each training step advances the random state by 200508
    samples, and step [j] feeds the placeholder of level [x] (the entry
    [4 - x] of [self.noise_inputs]) an array of the placeholder's shape
    holding the samples from position [j * 200508 + drawn 224 1 x] on.  No
    sample of the stream reaches two elements, of one step or of different
    steps. *)
Theorem every_step_draws_fresh_noise sess_run_output style_img rs E :
  style_img_fits style_img → 0 ≤ E →
  ∃ net w',
    TextureNetwork_init (TextureNetwork_with_epochs E) style_img = Ok net
    ∧ run_train sess_run_output net (fresh_world rs) = Ok ((), w')
    ∧ w_random w' = advance rs (E * 200508)
    ∧ length (train_steps (w_log w')) = Z.to_nat E
    ∧ (∀ (j : nat) feed_dict, train_steps (w_log w') !! j = Some feed_dict →
         ∀ x, 0 ≤ x < 5 →
           ∃ ph a, noise_inputs net !! Z.to_nat (4 - x) = Some ph
                ∧ get_shape (tn_graph net) ph = [1; 224 / 2 ^ x; 224 / 2 ^ x; 3]
                ∧ feed_dict !! ph = Some a
                ∧ nd_shape a = [1; 224 / 2 ^ x; 224 / 2 ^ x; 3]
                ∧ ∀ p, nd_data a p
                       = rs_stream rs (rs_pos rs + Z.of_nat j * 200508 + drawn 224 1 x + p))
    ∧ (∀ j x p j' x' p',
         0 ≤ j → 0 ≤ x < 5 → 0 ≤ p < level_elems 224 1 x →
         0 ≤ j' → 0 ≤ x' < 5 → 0 ≤ p' < level_elems 224 1 x' →
         j * 200508 + drawn 224 1 x + p = j' * 200508 + drawn 224 1 x' + p' →
         j = j' ∧ x = x' ∧ p = p').
Proof.
  intros Himg HE.
  destruct (run_train_exact sess_run_output style_img rs E Himg)
    as (net & feeds & Einit & Hlen & Erun & Hfeeds).
  assert (constructed net ∧ batchSize (tn_class net) = 1) as [Hnet HB].
  { destruct (init_constructed (TextureNetwork_with_epochs E) style_img
                eq_refl ltac:(done) ltac:(done) Himg eq_refl)
      as (net' & Einit' & Hcls & Hnet').
    rewrite Einit in Einit'. injection Einit' as <-. split; [exact Hnet'|].
    rewrite Hcls. reflexivity. }
  change (drawn 224 1 5) with 200508 in Erun, Hfeeds.
  rewrite Z2Nat.id in Erun by exact HE.
  exists net. eexists. split; [exact Einit|]. split; [exact Erun|].
  cbn [w_random w_log].
  rewrite train_steps_run_events by (unfold range; rewrite length_seqZ; exact Hlen).
  split; [reflexivity|]. split; [exact Hlen|]. split.
  - intros j feed Hj x Hx. destruct (Hfeeds j feed Hj) as [_ Hfed].
    destruct (Hfed x Hx) as (a & Ha & Hsh & Hdata).
    destruct (constructed_placeholder net x Hnet Hx) as [Hph Hshape].
    rewrite HB in Hshape.
    exists (Z.to_nat x), a. split; [exact Hph|]. split; [exact Hshape|].
    split; [exact Ha|]. split; [exact Hsh|].
    intros p. rewrite Hdata. simpl. reflexivity.
  - intros j x p j' x' p' Hj Hx Hp Hj' Hx' Hp' Heq.
    assert (x = 0 ∨ x = 1 ∨ x = 2 ∨ x = 3 ∨ x = 4) as Hc by lia.
    assert (x' = 0 ∨ x' = 1 ∨ x' = 2 ∨ x' = 3 ∨ x' = 4) as Hc' by lia.
    clear Einit Erun Hfeeds.
    destruct Hc as [->|[->|[->|[->| ->]]]]; destruct Hc' as [->|[->|[->|[->| ->]]]];
      eval_levels; lia.
Qed.

Lemma every_step_draws_fresh_noise_witness :
  ∃ net w',
    TextureNetwork_init (TextureNetwork_with_epochs 3) blank_style_img = Ok net
    ∧ run_train zero_session net (fresh_world zero_random) = Ok ((), w')
    ∧ w_random w' = advance zero_random (3 * 200508)
    ∧ length (train_steps (w_log w')) = Z.to_nat 3
    ∧ (∀ (j : nat) feed_dict, train_steps (w_log w') !! j = Some feed_dict →
         ∀ x, 0 ≤ x < 5 →
           ∃ ph a, noise_inputs net !! Z.to_nat (4 - x) = Some ph
                ∧ get_shape (tn_graph net) ph = [1; 224 / 2 ^ x; 224 / 2 ^ x; 3]
                ∧ feed_dict !! ph = Some a
                ∧ nd_shape a = [1; 224 / 2 ^ x; 224 / 2 ^ x; 3]
                ∧ ∀ p, nd_data a p
                       = rs_stream zero_random
                           (rs_pos zero_random + Z.of_nat j * 200508 + drawn 224 1 x + p))
    ∧ (∀ j x p j' x' p',
         0 ≤ j → 0 ≤ x < 5 → 0 ≤ p < level_elems 224 1 x →
         0 ≤ j' → 0 ≤ x' < 5 → 0 ≤ p' < level_elems 224 1 x' →
         j * 200508 + drawn 224 1 x + p = j' * 200508 + drawn 224 1 x' + p' →
         j = j' ∧ x = x' ∧ p = p').
Proof.
  apply (every_step_draws_fresh_noise zero_session blank_style_img zero_random 3).
  - reflexivity.
  - lia.
Defined.

Lemma not_due_before_20 i : 0 ≤ i < 20 → ¬ due i.
Proof. intros Hi [Hpos Hmod]. Z.div_mod_to_equations. lia. Qed.

(** X11: the loop can only export the output of a batch of one.  For the
    target size 224 and any other batch size, no run that reaches iteration
    20 (that is, with [epochs >= 21]) completes: when the noise can be drawn at
    all, the reshape of the output to (224, 224, 3) raises at iteration 20.
    With batch size one, [run_train] returns. *)
Theorem run_train_needs_batch_one sess_run_output self style_img rs :
  inputDimension self = 224 → 0 ≤ batchSize self → 0 < channelStepSize self →
  style_img_fits style_img →
  ∃ net,
    TextureNetwork_init self style_img = Ok net
    ∧ (batchSize self ≠ 1 → 21 ≤ epochs self →
       is_ok (run_train sess_run_output net (fresh_world rs)) = false)
    ∧ (batchSize self = 1 →
       is_ok (run_train sess_run_output net (fresh_world rs)) = true).
Proof.
  intros HM HB Hstep Himg.
  destruct (TextureNetwork_init_spec self style_img HM HB Hstep Himg)
    as (net & _ & Einit & Hcls & _).
  exists net. split; [exact Einit|].
  unfold run_train. rewrite Hcls.
  destruct (np.fits [batchSize self; 224; 224; 3]) eqn:Hfits.
  - destruct (init_constructed self style_img HM HB Hstep Himg Hfits)
      as (net' & Einit' & _ & Hnet).
    rewrite Einit in Einit'. injection Einit' as <-. clear Einit.
    split.
    + intros HB1 HE.
      assert (for_each (range (epochs self)) (train_iteration sess_run_output net)
                       (fresh_world rs) = Raise ValueError) as ->; [|reflexivity].
      unfold range. replace (epochs self) with (20 + (1 + (epochs self - 21))) by lia.
      rewrite seqZ_app by lia. rewrite seqZ_app by lia. rewrite !Z.add_0_l.
      replace (seqZ 20 1) with [20] by reflexivity.
      destruct (for_each_train_exact sess_run_output net (seqZ 0 20) (fresh_world rs) Hnet)
        as (feeds & _ & Eok & _).
      { intros i Hi [Hdue _]. apply elem_of_seqZ in Hi.
        apply (not_due_before_20 i); [lia | exact Hdue]. }
      eapply for_each_raises; [exact Eok|].
      match goal with
      | |- train_iteration _ _ _ ?w1 = _ =>
          destruct (train_iteration_exact sess_run_output net 20 w1 Hnet) as (f & _ & _ & ->)
      end.
      rewrite decide_True; [reflexivity|].
      split; [split; [lia | reflexivity]|]. by rewrite Hcls.
    + intros HB1.
      destruct (for_each_train_exact sess_run_output net (range (epochs self))
                  (fresh_world rs) Hnet) as (feeds & _ & -> & _); [|reflexivity].
      intros i _ [_ HBne]. apply HBne. by rewrite Hcls.
  - clear Einit. split.
    + intros _ HE.
      assert (for_each (range (epochs self)) (train_iteration sess_run_output net)
                       (fresh_world rs) = Raise ValueError) as ->; [|reflexivity].
      unfold range. rewrite seqZ_cons by lia. cbn [for_each].
      erewrite bind_Raise; [reflexivity|].
      unfold train_iteration. erewrite bind_Raise; [reflexivity|].
      unfold with_random. rewrite Hcls, HM.
      rewrite noise_pyramid_too_big; [reflexivity | unfold k_default; lia | exact Hfits].
    + intros HB1. rewrite HB1 in Hfits. discriminate Hfits.
Qed.

Lemma run_train_needs_batch_one_witness :
  ∃ net,
    TextureNetwork_init (TextureNetwork_with_batch 16) blank_style_img = Ok net
    ∧ is_ok (run_train zero_session net (fresh_world zero_random)) = false.
Proof.
  destruct (run_train_needs_batch_one zero_session (TextureNetwork_with_batch 16)
              blank_style_img zero_random) as (net & Einit & Hfails & _).
  - reflexivity.
  - simpl. lia.
  - simpl. lia.
  - reflexivity.
  - exists net. split; [exact Einit|]. apply Hfails.
    + simpl. lia.
    + simpl. lia.
Defined.

(** ** When the constructor succeeds *)

(** X12: for a non-negative batch size and a positive channel step,
    [__init__] succeeds exactly when the target size is 224 and the loaded
    texture has the 150528 elements of a (1, 224, 224, 3) array; whether the
    target size is divisible by 16 plays no part.  Every failure is a
    [ValueError]. *)
Theorem init_succeeds_iff self style_img :
  0 ≤ batchSize self → 0 < channelStepSize self →
  (is_ok (TextureNetwork_init self style_img) = true
   ↔ inputDimension self = 224 ∧ style_img_fits style_img)
  ∧ (∀ e, TextureNetwork_init self style_img = Raise e → e = ValueError).
Proof.
  intros HB Hstep.
  destruct (decide (inputDimension self = 224)) as [HM|HM].
  - destruct (decide (style_img_fits style_img)) as [Himg|Himg].
    + destruct (TextureNetwork_init_spec self style_img HM HB Hstep Himg)
        as (net & _ & -> & _).
      split; [split; [by split | reflexivity]|]. discriminate.
    + rewrite init_raises_style by (done || lia).
      split; [split; [discriminate | tauto]|]. intros e He. by injection He as <-.
  - assert (TextureNetwork_init self style_img = Raise ValueError) as ->.
    { destruct (decide (inputDimension self < 0)) as [Hneg|Hneg].
      - by apply init_raises_negative.
      - destruct (decide (style_img_fits style_img)) as [Himg|Himg].
        + apply init_raises_dimension; (done || lia).
        + apply init_raises_style; (done || lia). }
    split; [split; [discriminate | tauto]|]. intros e He. by injection He as <-.
Qed.

Lemma init_succeeds_iff_witness :
  (is_ok (TextureNetwork_init (TextureNetwork_with_dimension 240) blank_style_img) = true
   ↔ inputDimension (TextureNetwork_with_dimension 240) = 224
     ∧ style_img_fits blank_style_img)
  ∧ (∀ e, TextureNetwork_init (TextureNetwork_with_dimension 240) blank_style_img = Raise e
          → e = ValueError).
Proof.
  apply (init_succeeds_iff (TextureNetwork_with_dimension 240) blank_style_img).
  - simpl. lia.
  - simpl. lia.
Defined.

(** ** Errors of the blocks *)

Lemma nonneg_dims_false shape d : d ∈ shape → d < 0 → nonneg_dims shape = false.
Proof.
  intros Hin Hd. unfold nonneg_dims. apply not_true_iff_false. intros Hall.
  rewrite forallb_forall in Hall. apply list_elem_of_In in Hin.
  specialize (Hall d Hin). apply Z.leb_le in Hall. lia.
Qed.

Lemma conv_block_zero_division name x k out g c :
  last (get_shape g x) = Some c → c + out = 0 →
  conv_block name x k out g = Raise ZeroDivisionError.
Proof.
  intros Hc Hsum. unfold conv_block, name_scope.
  set (g0 := {| g_nodes := g_nodes g; g_scope := name :: g_scope g |}).
  assert (tf.shape_of x g0 = Ok (get_shape g x, g0)) as Eshape by reflexivity.
  rewrite (bind_Ok _ _ _ _ _ Eshape).
  erewrite bind_Ok; last first.
  { unfold last_dim. rewrite Hc. reflexivity. }
  erewrite bind_Raise; [reflexivity|].
  by rewrite bool_decide_eq_true_2.
Qed.

Lemma conv_block_negative name x k out g c :
  last (get_shape g x) = Some c → c + out ≠ 0 → k < 0 ∨ c < 0 ∨ out < 0 →
  conv_block name x k out g = Raise ValueError.
Proof.
  intros Hc Hsum Hneg. unfold conv_block, name_scope.
  set (g0 := {| g_nodes := g_nodes g; g_scope := name :: g_scope g |}).
  assert (tf.shape_of x g0 = Ok (get_shape g x, g0)) as Eshape by reflexivity.
  rewrite (bind_Ok _ _ _ _ _ Eshape).
  erewrite bind_Ok; last first.
  { unfold last_dim. rewrite Hc. reflexivity. }
  erewrite bind_Ok; last first.
  { rewrite bool_decide_eq_false_2 by done. reflexivity. }
  erewrite bind_Raise; [reflexivity|].
  unfold tf.random_uniform.
  assert (nonneg_dims [k; k; c; out] = false) as ->; [|reflexivity].
  destruct Hneg as [Hk|[Hc'|Ho]].
  - apply (nonneg_dims_false _ k); [set_solver | done].
  - apply (nonneg_dims_false _ c); [set_solver | done].
  - apply (nonneg_dims_false _ out); [set_solver | done].
Qed.

(** X13: [conv_block] on a scalar input raises [IndexError] (there is no
    last dimension); when the input's channel count and [out_channels] add up
    to zero it raises [ZeroDivisionError] (the bound [6.0/(in + out)]), before
    any size is looked at; otherwise a negative kernel size, channel count or
    [out_channels] raises [ValueError]. *)
Theorem conv_block_errors name x k out g :
  (get_shape g x = [] → conv_block name x k out g = Raise IndexError)
  ∧ (∀ c, last (get_shape g x) = Some c → c + out = 0 →
          conv_block name x k out g = Raise ZeroDivisionError)
  ∧ (∀ c, last (get_shape g x) = Some c → c + out ≠ 0 → k < 0 ∨ c < 0 ∨ out < 0 →
          conv_block name x k out g = Raise ValueError).
Proof.
  split; [|split].
  - intros Hs. unfold conv_block, name_scope.
    set (g0 := {| g_nodes := g_nodes g; g_scope := name :: g_scope g |}).
    assert (tf.shape_of x g0 = Ok (get_shape g x, g0)) as Eshape by reflexivity.
    rewrite (bind_Ok _ _ _ _ _ Eshape), Hs. reflexivity.
  - intros c. apply conv_block_zero_division.
  - intros c. apply conv_block_negative.
Qed.

Lemma conv_block_errors_witness :
  conv_block "layer1" 0%nat 3 8
    (snoc_node empty_graph (Constant {| nd_shape := []; nd_data := λ _, 0%Q |}) [])
  = Raise IndexError
  ∧ conv_block "layer1" 0%nat 3 (-3) default_inputs.2 = Raise ZeroDivisionError
  ∧ conv_block "layer1" 0%nat 3 (-1) default_inputs.2 = Raise ValueError.
Proof.
  split; [|split].
  - apply (proj1 (conv_block_errors "layer1" 0%nat 3 8
                    (snoc_node empty_graph
                       (Constant {| nd_shape := []; nd_data := λ _, 0%Q |}) []))).
    reflexivity.
  - apply (proj1 (proj2 (conv_block_errors "layer1" 0%nat 3 (-3) default_inputs.2)) 3).
    + vm_compute. reflexivity.
    + reflexivity.
  - apply (proj2 (proj2 (conv_block_errors "layer1" 0%nat 3 (-1) default_inputs.2)) 3).
    + vm_compute. reflexivity.
    + lia.
    + lia.
Defined.

Lemma resize_raises images size g :
  length (get_shape g images) ≠ 4%nat ∨ length size ≠ 2%nat →
  tf.image_resize_nearest_neighbor images size g = Raise ValueError.
Proof.
  intros Hbad. unfold tf.image_resize_nearest_neighbor.
  erewrite bind_Ok; [|reflexivity].
  destruct (get_shape g images) as [|b [|h [|w [|c [|? ?]]]]]; try reflexivity.
  destruct size as [|nh [|nw [|? ?]]]; try reflexivity.
  simpl in Hbad. lia.
Qed.

Lemma concat_channels_mismatch g x y b1 h w c1 b2 h' w' c2 :
  has_shape g x [b1; h; w; c1] → has_shape g y [b2; h'; w'; c2] →
  [b1; h; w] ≠ [b2; h'; w'] →
  tf.concat 3 [x; y] g = Raise ValueError.
Proof.
  intros Hx Hy Hne. unfold tf.concat.
  erewrite bind_Ok; last first.
  { unfold mapM, mbind, state_exn_bind, tf.shape_of, mret, state_exn_ret.
    rewrite (has_shape_get_shape _ _ _ Hx), (has_shape_get_shape _ _ _ Hy). reflexivity. }
  rewrite bool_decide_eq_true_2 by done.
  unfold concat_shape. rewrite bool_decide_eq_false_2; [reflexivity|].
  intros [_ HF]. apply Forall_cons in HF as [_ HF]. apply Forall_cons in HF as [Heq _].
  simpl in Heq. apply Hne. by injection Heq as -> -> ->.
Qed.

(** X14: [join_block] raises [ValueError] when its two 4-D inputs differ in
    batch size (the concatenation along the channel axis needs equal batch
    sizes), when the lower-resolution input is not 4-D, and when the
    higher-resolution input has fewer than three dimensions (its slice
    [[1:3]] is then no height and width). *)
Theorem join_block_errors name lower higher g :
  (∀ b1 h1 w1 c1 b2 h2 w2 c2,
     get_shape g lower = [b1; h1; w1; c1] → get_shape g higher = [b2; h2; w2; c2] →
     b1 ≠ b2 → join_block name lower higher g = Raise ValueError)
  ∧ ((length (get_shape g lower) ≠ 4 ∨ length (get_shape g higher) < 3)%nat →
     join_block name lower higher g = Raise ValueError).
Proof.
  set (g0 := {| g_nodes := g_nodes g; g_scope := name :: g_scope g |}).
  assert (tf.shape_of higher g0 = Ok (get_shape g higher, g0)) as Eshape by reflexivity.
  split.
  - intros b1 h1 w1 c1 b2 h2 w2 c2 Hlo Hhi Hne.
    apply get_shape_has_shape in Hlo. pose proof (get_shape_has_shape _ _ _ _ Hhi) as Hhi'.
    assert (grows g g0) as Hg0 by (unfold grows; reflexivity).
    destruct (wp_elim _ _ _ (wp_resize_nearest_neighbor lower h2 w2 g0 _ _ _ _
                               (has_shape_grows _ _ _ _ Hlo Hg0)))
      as (up & g1 & E1 & Hg1 & Hs1 & _).
    destruct (wp_elim _ _ _ (wp_spatial_batch_norm up (Some "normLower") _ g1 Hs1))
      as (bl & g2 & E2 & Hg2 & Hs2 & _).
    assert (has_shape g2 higher [b2; h2; w2; c2]) as Hhi2.
    { eapply has_shape_grows; [exact Hhi'|]. etrans; [exact Hg0|]. by etrans. }
    destruct (wp_elim _ _ _ (wp_spatial_batch_norm higher (Some "normHigher") _ g2 Hhi2))
      as (bh & g3 & E3 & Hg3 & Hs3 & _).
    unfold join_block.
    erewrite bind_Ok; last first.
    { unfold name_scope. fold g0. rewrite (bind_Ok _ _ _ _ _ Eshape), Hhi.
      simpl take. rewrite (bind_Ok _ _ _ _ _ E1), (bind_Ok _ _ _ _ _ E2),
        (bind_Ok _ _ _ _ _ E3). reflexivity. }
    apply (concat_channels_mismatch _ bl bh b1 h2 w2 c1 b2 h2 w2 c2).
    + exact (has_shape_grows _ _ _ _ Hs2 Hg3).
    + exact Hs3.
    + intros Heq. by injection Heq.
  - intros Hbad. unfold join_block.
    erewrite bind_Raise; [reflexivity|].
    unfold name_scope. fold g0. rewrite (bind_Ok _ _ _ _ _ Eshape).
    erewrite bind_Raise; [reflexivity|].
    apply resize_raises.
    destruct Hbad as [Hlo|Hhi]; [by left | right].
    rewrite length_take, length_drop. lia.
Qed.

Lemma join_block_errors_witness :
  join_block "join_24" 0%nat 1%nat
    (snoc_node (snoc_node empty_graph (Placeholder "4") [1; 14; 14; 8])
               (Placeholder "3") [2; 28; 28; 8])
  = Raise ValueError
  ∧ join_block "join_24" 0%nat 1%nat
      (snoc_node (snoc_node empty_graph (Placeholder "4") [14; 14; 8])
                 (Placeholder "3") [1; 28; 28; 8])
    = Raise ValueError.
Proof.
  split.
  - apply (proj1 (join_block_errors "join_24" 0%nat 1%nat
                    (snoc_node (snoc_node empty_graph (Placeholder "4") [1; 14; 14; 8])
                               (Placeholder "3") [2; 28; 28; 8]))
             1 14 14 8 2 28 28 8).
    + reflexivity.
    + reflexivity.
    + lia.
  - apply (proj2 (join_block_errors "join_24" 0%nat 1%nat
                    (snoc_node (snoc_node empty_graph (Placeholder "4") [14; 14; 8])
                               (Placeholder "3") [1; 28; 28; 8]))).
    left. vm_compute. lia.
Defined.

(** ** The leaky rectifier *)

Lemma has_shape_valid g t s : has_shape g t s → (t < length (g_nodes g))%nat.
Proof.
  unfold has_shape. intros Hs.
  destruct (g_nodes g !! t) as [n|] eqn:Hn; [|discriminate Hs].
  by apply lookup_lt_Some in Hn.
Qed.

Lemma leaky_relu_exact x alpha s g :
  has_shape g x s →
  leaky_relu x alpha g
  = Ok (S (length (g_nodes g)),
        snoc_node (snoc_node g (Mul x alpha) s) (Maximum (length (g_nodes g)) x) s).
Proof.
  intros Hx. unfold leaky_relu.
  erewrite bind_Ok; last first.
  { unfold tf.mul. erewrite bind_Ok; [|reflexivity].
    rewrite (has_shape_get_shape _ _ _ Hx). reflexivity. }
  unfold tf.maximum.
  erewrite bind_Ok; [|reflexivity]. erewrite bind_Ok; [|reflexivity].
  fold (snoc_node g (Mul x alpha) s).
  rewrite (has_shape_get_shape _ _ _ (snoc_node_has_shape g (Mul x alpha) s)).
  rewrite (has_shape_get_shape _ _ _
             (has_shape_grows _ _ _ _ Hx (snoc_node_grows g (Mul x alpha) s))).
  rewrite bool_decide_eq_true_2 by done.
  unfold add_node, snoc_node. simpl. rewrite length_app. simpl.
  by rewrite Nat.add_1_r.
Qed.

Lemma round_to_grid_mono a b : (a <= b)%Q → (round_to_grid a <= round_to_grid b)%Q.
Proof.
  intros Hab. unfold round_to_grid.
  assert (Qfloor (a * 16777216 + (1 # 2)) ≤ Qfloor (b * 16777216 + (1 # 2))) as Hfl.
  { apply Qfloor_resp_le. nra. }
  unfold Qle. cbn [Qnum Qden]. lia.
Qed.

(** X15: [leaky_relu(x, alpha)] keeps the shape and, element by element,
    never returns less than its input.  With the slope that the computation
    uses (the float of [alpha]) between 0 and 1 (the blocks use 0.01), an
    element that is not negative passes unchanged, exactly, and an element
    that is not positive becomes the rounded product of the element and the
    slope, which is not positive either.  This holds for every rounding [fl]
    that is monotone and keeps 0, as rounding to float32 is, and every
    element [v] that is a float ([fl v == v]). *)
Theorem leaky_relu_values (fl : Q → Q) x alpha d s g :
  (∀ a b, (a <= b)%Q → (fl a <= fl b)%Q) → (fl 0 == 0)%Q →
  get_shape g x = d :: s →
  ∃ y g',
    leaky_relu x alpha g = Ok (y, g')
    ∧ get_shape g' y = d :: s
    ∧ ∀ v, (fl v == v)%Q →
        ∃ r,
          elem_value fl 2 g' x v y = Some r
          ∧ (v <= r)%Q
          ∧ ((0 <= fl alpha)%Q → (fl alpha <= 1)%Q →
             ((0 <= v)%Q → (r == v)%Q)
             ∧ ((v <= 0)%Q → (r == fl (v * fl alpha))%Q ∧ (r <= 0)%Q)).
Proof.
  intros Hmono Hzero Hx. apply get_shape_has_shape in Hx.
  pose proof (has_shape_valid _ _ _ Hx) as Hvalid.
  eexists _, _. split; [by apply leaky_relu_exact|].
  set (n := length (g_nodes g)) in *.
  set (g1 := snoc_node g (Mul x alpha) (d :: s)).
  set (g2 := snoc_node g1 (Maximum n x) (d :: s)).
  assert (length (g_nodes g1) = S n) as Hlen1.
  { unfold g1, snoc_node. simpl. rewrite length_app. simpl. lia. }
  assert (op_of g2 (S n) = Some (Maximum n x)) as Hmax.
  { rewrite <- Hlen1. apply snoc_node_op_of. }
  assert (op_of g2 n = Some (Mul x alpha)) as Hmul.
  { eapply op_of_grows; [apply snoc_node_op_of | apply snoc_node_grows]. }
  split.
  { rewrite <- Hlen1. apply has_shape_get_shape, snoc_node_has_shape. }
  intros v Hv. exists (Qmax (fl (v * fl alpha)%Q) v). split.
  { cbn [elem_value]. rewrite (decide_False (P := S n = x)) by lia. rewrite Hmax.
    rewrite (decide_False (P := n = x)) by lia. rewrite Hmul.
    rewrite !(decide_True (P := x = x)) by done. reflexivity. }
  split; [apply Q.le_max_r|].
  intros H0 H1. split.
  - intros Hpos. apply Q.max_r.
    eapply Qle_trans; [apply (Hmono (v * fl alpha)%Q v); nra|].
    rewrite Hv. apply Qle_refl.
  - intros Hneg.
    assert (Qmax (fl (v * fl alpha)%Q) v == fl (v * fl alpha)%Q)%Q as Hr.
    { apply Q.max_l. eapply Qle_trans; [|apply (Hmono v (v * fl alpha)%Q); nra].
      rewrite Hv. apply Qle_refl. }
    split; [exact Hr|]. rewrite Hr.
    eapply Qle_trans; [apply (Hmono (v * fl alpha)%Q 0%Q); nra|].
    rewrite Hzero. apply Qle_refl.
Qed.

Lemma leaky_relu_values_witness :
  ∃ y g',
    leaky_relu 0%nat (1 # 100) default_inputs.2 = Ok (y, g')
    ∧ get_shape g' y = 1 :: [224; 224; 3]
    ∧ ∀ v, (round_to_grid v == v)%Q →
        ∃ r,
          elem_value round_to_grid 2 g' 0%nat v y = Some r
          ∧ (v <= r)%Q
          ∧ ((0 <= round_to_grid (1 # 100))%Q → (round_to_grid (1 # 100) <= 1)%Q →
             ((0 <= v)%Q → (r == v)%Q)
             ∧ ((v <= 0)%Q
                → (r == round_to_grid (v * round_to_grid (1 # 100)))%Q ∧ (r <= 0)%Q)).
Proof.
  apply (leaky_relu_values round_to_grid 0%nat (1 # 100) 1 [224; 224; 3] default_inputs.2).
  - exact round_to_grid_mono.
  - reflexivity.
  - vm_compute. reflexivity.
Defined.

(** ** The nodes a block adds *)

Lemma get_shape_app_r l L sc (i : nat) :
  get_shape {| g_nodes := l ++ L; g_scope := sc |} (length l + i)
  = default [] (n_shape <$> (L !! i)).
Proof.
  unfold get_shape. simpl. rewrite lookup_app_r by lia.
  by replace (length l + i - length l)%nat with i by lia.
Qed.

Lemma get_shape_app_l g L sc t s :
  has_shape g t s → get_shape {| g_nodes := g_nodes g ++ L; g_scope := sc |} t = s.
Proof.
  intros Hs. apply has_shape_get_shape. eapply has_shape_grows; [exact Hs|].
  unfold grows. simpl. by apply prefix_app_r.
Qed.

Lemma nonneg_dims_true shape : Forall (λ d, 0 ≤ d) shape → nonneg_dims shape = true.
Proof.
  intros HF. unfold nonneg_dims. apply forallb_forall. intros d Hd.
  apply list_elem_of_In in Hd. rewrite Forall_forall in HF.
  apply Z.leb_le. by apply HF.
Qed.

Lemma get_shape_snoc_new g o s : get_shape (snoc_node g o s) (length (g_nodes g)) = s.
Proof. apply has_shape_get_shape, snoc_node_has_shape. Qed.

Lemma get_shape_snoc_old g o s' t s :
  has_shape g t s → get_shape (snoc_node g o s') t = s.
Proof.
  intros Hs. apply has_shape_get_shape.
  exact (has_shape_grows _ _ _ _ Hs (snoc_node_grows g o s')).
Qed.

Lemma add_node_snoc o s g : add_node o s g = Ok (length (g_nodes g), snoc_node g o s).
Proof. reflexivity. Qed.

Lemma length_snoc_node g o s : length (g_nodes (snoc_node g o s)) = S (length (g_nodes g)).
Proof. unfold snoc_node. simpl. rewrite length_app. simpl. lia. Qed.

Lemma conv_block_exact name x k out g b h w c :
  has_shape g x [b; h; w; c] → 0 ≤ k → 0 ≤ c → 0 ≤ out → c + out ≠ 0 →
  conv_block name x k out g
  = Ok ((length (g_nodes g) + 7)%nat,
        {| g_nodes := g_nodes g
                      ++ conv_block_nodes (name :: g_scope g) (length (g_nodes g))
                                          x b h w c k out;
           g_scope := g_scope g |}).
Proof.
  intros Hx Hk Hc Hout Hsum.
  assert (nonneg_dims [k; k; c; out] = true) as Hd1.
  { apply nonneg_dims_true. repeat constructor; lia. }
  assert (nonneg_dims [out] = true) as Hd2.
  { apply nonneg_dims_true. repeat constructor; lia. }
  unfold conv_block, name_scope.
  set (g0 := {| g_nodes := g_nodes g; g_scope := name :: g_scope g |}).
  assert (has_shape g0 x [b; h; w; c]) as Hx0 by exact Hx.
  erewrite bind_Ok; [|reflexivity].
  rewrite (has_shape_get_shape _ _ _ Hx0).
  erewrite bind_Ok; [|reflexivity].
  rewrite bool_decide_eq_false_2 by lia.
  erewrite bind_Ok; [|reflexivity].
  unfold tf.random_uniform. rewrite Hd1, Hd2.
  erewrite bind_Ok; [|apply add_node_snoc].
  set (g1 := snoc_node g0 _ _).
  erewrite bind_Ok; last first.
  { unfold tf.variable. erewrite bind_Ok; [|reflexivity]. unfold g1 at 1. rewrite get_shape_snoc_new.
    apply add_node_snoc. }
  set (g2 := snoc_node g1 _ _).
  erewrite bind_Ok; [|apply add_node_snoc].
  set (g3 := snoc_node g2 _ _).
  erewrite bind_Ok; last first.
  { unfold tf.variable. erewrite bind_Ok; [|reflexivity]. unfold g3 at 1. rewrite get_shape_snoc_new.
    apply add_node_snoc. }
  set (g4 := snoc_node g3 _ _).
  assert (has_shape g4 x [b; h; w; c]) as Hx4.
  { eapply has_shape_grows; [exact Hx0|].
    etrans; [apply snoc_node_grows|]. etrans; [apply snoc_node_grows|].
    etrans; apply snoc_node_grows. }
  assert (has_shape g4 (length (g_nodes g1)) [k; k; c; out]) as Hw4.
  { eapply has_shape_grows; [apply snoc_node_has_shape|].
    etrans; apply snoc_node_grows. }
  assert (has_shape g4 (length (g_nodes g3)) [out]) as Hb4 by apply snoc_node_has_shape.
  erewrite bind_Ok; last first.
  { unfold conv2d. do 3 (erewrite bind_Ok; [|reflexivity]).
    rewrite (has_shape_get_shape _ _ _ Hx4), (has_shape_get_shape _ _ _ Hw4),
      (has_shape_get_shape _ _ _ Hb4).
    rewrite bool_decide_eq_true_2 by done. apply add_node_snoc. }
  set (g5 := snoc_node g4 _ _).
  erewrite bind_Ok; last first.
  { unfold spatial_batch_norm. erewrite bind_Ok; [|reflexivity].
    unfold g5 at 1. rewrite get_shape_snoc_new. apply add_node_snoc. }
  set (g6 := snoc_node g5 _ _).
  erewrite bind_Ok; last first.
  { apply (leaky_relu_exact _ _ [b; h; w; out]). apply snoc_node_has_shape. }
  unfold mret, state_exn_ret.
  subst g6 g5 g4 g3 g2 g1. rewrite !length_snoc_node.
  change (g_nodes g0) with (g_nodes g).
  unfold snoc_node, conv_block_nodes. cbn [g_nodes g_scope]. subst g0. cbn [g_nodes g_scope].
  rewrite <- !app_assoc. cbn [app].
  rewrite !(Nat.add_comm (length (g_nodes g))). cbn [Nat.add].
  reflexivity.
Qed.

Lemma has_shape_app_r l L sc (i : nat) s :
  n_shape <$> (L !! i) = Some s →
  has_shape {| g_nodes := l ++ L; g_scope := sc |} (length l + i) s.
Proof.
  intros Hi. unfold has_shape. simpl. rewrite lookup_app_r by lia.
  by replace (length l + i - length l)%nat with i by lia.
Qed.

Lemma op_of_app_r l L sc (i : nat) o :
  n_op <$> (L !! i) = Some o →
  op_of {| g_nodes := l ++ L; g_scope := sc |} (length l + i) = Some o.
Proof.
  intros Hi. unfold op_of. simpl. rewrite lookup_app_r by lia.
  by replace (length l + i - length l)%nat with i by lia.
Qed.

Lemma conv_chain_exact name x out g b h w c :
  has_shape g x [b; h; w; c] → 0 ≤ c → 0 < out →
  conv_chain name x out g
  = Ok ((length (g_nodes g) + 23)%nat,
        {| g_nodes := g_nodes g
                      ++ conv_chain_nodes (name :: g_scope g) (length (g_nodes g))
                                          x b h w c out;
           g_scope := g_scope g |}).
Proof.
  intros Hx Hc Hout. unfold conv_chain, name_scope.
  set (sc := name :: g_scope g). set (l := g_nodes g).
  assert (has_shape {| g_nodes := l; g_scope := sc |} x [b; h; w; c]) as Hx0 by exact Hx.
  rewrite (bind_Ok _ _ _ _ _ (conv_block_exact "layer1" x 3 out _ b h w c
                                Hx0 ltac:(lia) Hc ltac:(lia) ltac:(lia))).
  cbn [g_nodes g_scope].
  set (N1 := conv_block_nodes ("layer1" :: sc) (length l) x b h w c 3 out).
  assert (has_shape {| g_nodes := l ++ N1; g_scope := sc |} (length l + 7) [b; h; w; out])
    as Hy1 by (by apply (has_shape_app_r l N1 sc 7)).
  rewrite (bind_Ok _ _ _ _ _ (conv_block_exact "layer1" _ 3 out _ b h w out
                                Hy1 ltac:(lia) ltac:(lia) ltac:(lia) ltac:(lia))).
  cbn [g_nodes g_scope].
  assert (length (l ++ N1) = length l + 8)%nat as -> by (by rewrite length_app).
  rewrite <- !Nat.add_assoc. cbn [Nat.add].
  set (N2 := conv_block_nodes ("layer1" :: sc) (length l + 8) (length l + 7) b h w out 3 out).
  assert (has_shape {| g_nodes := (l ++ N1) ++ N2; g_scope := sc |} (length l + 15)
                    [b; h; w; out]) as Hy2.
  { rewrite <- app_assoc. by apply (has_shape_app_r l (N1 ++ N2) sc 15). }
  rewrite (bind_Ok _ _ _ _ _ (conv_block_exact "layer1" _ 1 out _ b h w out
                                Hy2 ltac:(lia) ltac:(lia) ltac:(lia) ltac:(lia))).
  cbn [g_nodes g_scope].
  assert (length ((l ++ N1) ++ N2) = length l + 16)%nat as ->
    by (by rewrite !length_app, <- Nat.add_assoc).
  rewrite <- !Nat.add_assoc. cbn [Nat.add].
  unfold mret, state_exn_ret, conv_chain_nodes. fold N1. fold N2.
  by rewrite <- !app_assoc.
Qed.

(** X16: the three blocks of a chain are all given the name ["layer1"], yet
    each reads weights and biases of its own: [conv_chain] creates six
    variables that the graph did not have and that are pairwise distinct,
    with weights [[3; 3; c; out]], [[3; 3; out; out]] and [[1; 1; out; out]]
    and biases [[out]], and the convolution of each block reads the pair
    created for it. *)
Theorem conv_chain_no_weight_sharing name x out g b h w c :
  has_shape g x [b; h; w; c] → 0 ≤ c → 0 < out →
  ∃ y g' w1 b1 w2 b2 w3 b3 conv1 block1 conv2 block2 conv3,
    conv_chain name x out g = Ok (y, g')
    ∧ NoDup [w1; b1; w2; b2; w3; b3]
    ∧ Forall (λ v, op_of g v = None) [w1; b1; w2; b2; w3; b3]
    ∧ is_variable g' w1 "weights" [3; 3; c; out] ∧ is_variable g' b1 "biases" [out]
    ∧ is_variable g' w2 "weights" [3; 3; out; out] ∧ is_variable g' b2 "biases" [out]
    ∧ is_variable g' w3 "weights" [1; 1; out; out] ∧ is_variable g' b3 "biases" [out]
    ∧ op_of g' conv1 = Some (Conv2D x w1 b1)
    ∧ op_of g' conv2 = Some (Conv2D block1 w2 b2)
    ∧ op_of g' conv3 = Some (Conv2D block2 w3 b3)
    ∧ is_conv_block g' x 3 c out block1
    ∧ is_conv_block g' block1 3 out out block2
    ∧ is_conv_block g' block2 1 out out y.
Proof.
  intros Hx Hc Hout.
  set (n := length (g_nodes g)).
  eexists (n + 23)%nat, _, (n + 1)%nat, (n + 3)%nat, (n + 8 + 1)%nat, (n + 8 + 3)%nat,
    (n + 16 + 1)%nat, (n + 16 + 3)%nat, (n + 4)%nat, (n + 7)%nat, (n + 12)%nat,
    (n + 15)%nat, (n + 20)%nat.
  split; [exact (conv_chain_exact name x out g b h w c Hx Hc Hout)|].
  split.
  { repeat (apply NoDup_cons; split; [set_unfold; lia|]). apply NoDup_nil_2. }
  split.
  { repeat (apply Forall_cons; split;
            [unfold op_of; rewrite lookup_ge_None_2 by (unfold n; lia); reflexivity|]).
    apply Forall_nil_2. }
  set (L := conv_chain_nodes (name :: g_scope g) n x b h w c out).
  set (sc := g_scope g).
  set (G := {| g_nodes := g_nodes g ++ L; g_scope := sc |}).
  assert (∀ i x' k cin,
            conv_block_nodes ("layer1" :: name :: g_scope g) (n + i) x' b h w cin k out
              `prefix_of` drop i L →
            is_conv_block G x' k cin out (n + i + 7)) as Hblock.
  { intros i x' k cin Hpre.
    set (N := conv_block_nodes ("layer1" :: name :: g_scope g) (n + i) x' b h w cin k out).
    assert (∀ j, (j < 8)%nat → L !! (i + j)%nat = N !! j) as Hl.
    { intros j Hj. destruct (lookup_lt_is_Some_2 N j Hj) as [nd Hnd].
      rewrite Hnd, <- lookup_drop. by eapply prefix_lookup_Some. }
    assert (∀ (j : nat) t o, n_op <$> (N !! j) = Some o → (j < 8)%nat → t = (n + i + j)%nat →
              op_of G t = Some o) as Hop.
    { intros j t o Hj Hlt ->. replace (n + i + j)%nat with (n + (i + j))%nat by lia.
      apply op_of_app_r. by rewrite Hl. }
    assert (∀ (j : nat) t s, n_shape <$> (N !! j) = Some s → (j < 8)%nat → t = (n + i + j)%nat →
              has_shape G t s) as Hsh.
    { intros j t s Hj Hlt ->. replace (n + i + j)%nat with (n + (i + j))%nat by lia.
      apply has_shape_app_r. by rewrite Hl. }
    exists (n + i)%nat, (n + i + 1)%nat, (n + i + 2)%nat, (n + i + 3)%nat, (n + i + 4)%nat,
      (n + i + 5)%nat, (n + i + 6)%nat.
    split; [apply (Hop 0%nat); [reflexivity | lia | lia]|].
    split; [apply (Hop 1%nat); [reflexivity | lia | lia]|].
    split; [apply (Hsh 1%nat); [reflexivity | lia | lia]|].
    split; [apply (Hop 2%nat); [reflexivity | lia | lia]|].
    split; [apply (Hop 3%nat); [reflexivity | lia | lia]|].
    split; [apply (Hsh 3%nat); [reflexivity | lia | lia]|].
    split; [apply (Hop 4%nat); [reflexivity | lia | lia]|].
    split; [apply (Hop 5%nat); [reflexivity | lia | lia]|].
    split; [apply (Hop 6%nat); [reflexivity | lia | lia]|].
    apply (Hop 7%nat); [reflexivity | lia | lia]. }
  assert (∀ (i : nat) t v name' s,
            n_op <$> (L !! i) = Some (Var v name') → n_shape <$> (L !! i) = Some s →
            t = (n + i)%nat → is_variable G t name' s) as Hvar.
  { intros i t v name' s Ho Hs ->. split; [exists v; by apply op_of_app_r|].
    by apply has_shape_app_r. }
  split; [eapply (Hvar 1%nat); [reflexivity | reflexivity | lia]|].
  split; [eapply (Hvar 3%nat); [reflexivity | reflexivity | lia]|].
  split; [eapply (Hvar 9%nat); [reflexivity | reflexivity | lia]|].
  split; [eapply (Hvar 11%nat); [reflexivity | reflexivity | lia]|].
  split; [eapply (Hvar 17%nat); [reflexivity | reflexivity | lia]|].
  split; [eapply (Hvar 19%nat); [reflexivity | reflexivity | lia]|].
  do 3 (split; [apply op_of_app_r; reflexivity|]).
  split; [|split].
  - replace (n + 7)%nat with (n + 0 + 7)%nat by lia. apply (Hblock 0%nat).
    rewrite Nat.add_0_r. by apply prefix_app_r.
  - replace (n + 15)%nat with (n + 8 + 7)%nat by lia. apply (Hblock 8%nat).
    exists (conv_block_nodes ("layer1" :: name :: g_scope g) (n + 16) (n + 15)
                             b h w out 1 out).
    reflexivity.
  - replace (n + 23)%nat with (n + 16 + 7)%nat by lia. apply (Hblock 16%nat).
    exists []. reflexivity.
Qed.

Lemma conv_chain_no_weight_sharing_witness :
  ∃ y g' w1 b1 w2 b2 w3 b3 conv1 block1 conv2 block2 conv3,
    conv_chain "chain_higher" 0%nat 8 default_inputs.2 = Ok (y, g')
    ∧ NoDup [w1; b1; w2; b2; w3; b3]
    ∧ Forall (λ v, op_of default_inputs.2 v = None) [w1; b1; w2; b2; w3; b3]
    ∧ is_variable g' w1 "weights" [3; 3; 3; 8] ∧ is_variable g' b1 "biases" [8]
    ∧ is_variable g' w2 "weights" [3; 3; 8; 8] ∧ is_variable g' b2 "biases" [8]
    ∧ is_variable g' w3 "weights" [1; 1; 8; 8] ∧ is_variable g' b3 "biases" [8]
    ∧ op_of g' conv1 = Some (Conv2D 0%nat w1 b1)
    ∧ op_of g' conv2 = Some (Conv2D block1 w2 b2)
    ∧ op_of g' conv3 = Some (Conv2D block2 w3 b3)
    ∧ is_conv_block g' 0%nat 3 3 8 block1
    ∧ is_conv_block g' block1 3 8 8 block2
    ∧ is_conv_block g' block2 1 8 8 y.
Proof.
  apply (conv_chain_no_weight_sharing "chain_higher" 0%nat 8 default_inputs.2 1 224 224 3).
  - vm_compute. reflexivity.
  - lia.
  - lia.
Defined.

(** ** The generator for any size *)

(** X17: the generator half of [__init__] is built for every non-negative
    target size [M] and batch size [B] and every positive channel step, not
    only for sizes that are multiples of 16: the five placeholders have the
    sizes [M // 2**x], the output has shape [[B; M; M; 3]], it is a block with
    a 1x1 kernel over a chain of [8 + 4 * step] channels, and 28 convolutions
    are added in all. *)
Theorem generator_any_size self g :
  0 ≤ inputDimension self → 0 ≤ batchSize self → 0 < channelStepSize self →
  ∃ noise_inputs output g',
    build_generator self g = Ok ((noise_inputs, output), g')
    ∧ grows g g'
    ∧ length noise_inputs = 5%nat
    ∧ (∀ x, 0 ≤ x < 5 →
         ∃ p, noise_inputs !! Z.to_nat (4 - x) = Some p
              ∧ get_shape g' p = [batchSize self; inputDimension self / 2 ^ x;
                                  inputDimension self / 2 ^ x; 3])
    ∧ get_shape g' output = [batchSize self; inputDimension self; inputDimension self; 3]
    ∧ (∃ final_chain,
         is_conv_block g' final_chain 1 (8 + 4 * channelStepSize self) 3 output
         ∧ get_shape g' final_chain
           = [batchSize self; inputDimension self; inputDimension self;
              8 + 4 * channelStepSize self])
    ∧ conv_count g' = (conv_count g + 28)%nat.
Proof.
  intros HM HB Hstep.
  destruct (build_generator_stages self g HM HB Hstep)
    as (phs & g1 & p & cc & agg & g2 & fc & g3 & out & g4 & _ & _ & _ & Hcc & _ & _
        & Egen & Hg & Hphs & _ & _ & Hfc & Hblock & Hout & Hn).
  subst cc. exists phs, out, g4.
  split; [exact Egen|]. split; [exact Hg|].
  split; [exact (Forall2_length _ _ _ Hphs)|]. split.
  { intros x Hx.
    pose proof (pyramid_shapes_lookup (inputDimension self) (batchSize self) k_default
                  (4 - x) ltac:(unfold k_default; lia)) as Hs.
    replace (k_default - 1 - (4 - x)) with x in Hs by (unfold k_default; lia).
    destruct (Forall2_lookup_r _ _ _ _ _ Hphs Hs) as (q & Hq & Hqs).
    exists q. split; [exact Hq | exact (has_shape_get_shape _ _ _ Hqs)]. }
  split; [exact (has_shape_get_shape _ _ _ Hout)|]. split; [|exact Hn].
  exists fc. split; [exact Hblock | exact (has_shape_get_shape _ _ _ Hfc)].
Qed.

Lemma generator_any_size_witness :
  ∃ noise_inputs output g',
    build_generator (TextureNetwork_with_dimension 225) empty_graph
      = Ok ((noise_inputs, output), g')
    ∧ grows empty_graph g'
    ∧ length noise_inputs = 5%nat
    ∧ (∀ x, 0 ≤ x < 5 →
         ∃ p, noise_inputs !! Z.to_nat (4 - x) = Some p
              ∧ get_shape g' p = [1; 225 / 2 ^ x; 225 / 2 ^ x; 3])
    ∧ get_shape g' output = [1; 225; 225; 3]
    ∧ (∃ final_chain,
         is_conv_block g' final_chain 1 40 3 output
         ∧ get_shape g' final_chain = [1; 225; 225; 40])
    ∧ conv_count g' = (conv_count empty_graph + 28)%nat.
Proof.
  apply (generator_any_size (TextureNetwork_with_dimension 225) empty_graph).
  - simpl. lia.
  - simpl. lia.
  - simpl. lia.
Defined.

(** ** A channel step that is not positive *)

Lemma conv_chain_raises_step name x step g b h w :
  has_shape g x [b; h; w; 3] → step ≤ 0 →
  conv_chain name x step g = Raise (step_error step).
Proof.
  intros Hx Hstep. unfold conv_chain, name_scope, step_error.
  set (g0 := {| g_nodes := g_nodes g; g_scope := name :: g_scope g |}).
  assert (has_shape g0 x [b; h; w; 3]) as Hx0 by exact Hx.
  assert (last (get_shape g0 x) = Some 3) as Hlast
    by (by rewrite (has_shape_get_shape _ _ _ Hx0)).
  destruct (decide (step = 0)) as [->|Hne0].
  - rewrite decide_True by (by left).
    rewrite (bind_Ok _ _ _ _ _ (conv_block_exact "layer1" x 3 0 g0 b h w 3
                                  Hx0 ltac:(lia) ltac:(lia) ltac:(lia) ltac:(lia))).
    erewrite bind_Raise; [reflexivity|].
    apply (conv_block_zero_division _ _ _ _ _ 0); [|reflexivity].
    set (N1 := conv_block_nodes _ _ _ _ _ _ _ _ _).
    by rewrite (has_shape_get_shape _ _ _ (has_shape_app_r (g_nodes g0) N1 _ 7 [b; h; w; 0]
                                             eq_refl)).
  - destruct (decide (step = -3)) as [->|Hne3].
    + rewrite decide_True by (by right).
      erewrite bind_Raise; [reflexivity|].
      by apply (conv_block_zero_division _ _ _ _ _ 3).
    + rewrite decide_False by lia.
      erewrite bind_Raise; [reflexivity|].
      apply (conv_block_negative _ _ _ _ _ 3); [exact Hlast | lia | lia].
Qed.

Lemma generator_raises_step self g :
  0 ≤ inputDimension self → 0 ≤ batchSize self → channelStepSize self ≤ 0 →
  build_generator self g = Raise (step_error (channelStepSize self)).
Proof.
  intros HM HB Hstep.
  destruct (wp_elim _ _ _ (input_pyramid_shapes "noise" _ _ k_default g HM HB))
    as (phs & g1 & E1 & Hg1 & Hphs & Hn1).
  rewrite pyramid_shapes_default in Hphs.
  destruct phs as [|p4 [|p3 [|p2 [|p1 [|p0 [|]]]]]];
    try (apply Forall2_length in Hphs; discriminate Hphs).
  repeat match goal with
         | H : Forall2 _ (_ :: _) (_ :: _) |- _ => apply Forall2_cons in H as [? H]
         end.
  unfold build_generator. rewrite (bind_Ok _ _ _ _ _ E1).
  erewrite bind_Ok; [|reflexivity].
  erewrite bind_Raise; [reflexivity|].
  cbn [drop level_loop]. erewrite bind_Raise; [reflexivity|].
  unfold level_body.
  destruct (wp_elim _ _ _ (conv_chain_spec ("chain_lower_" +:+ pretty 8) p4 8 g1 _ _ _ _
                             ltac:(eassumption) ltac:(lia) ltac:(lia)))
    as (lo & g2 & E2 & Hg2 & _).
  rewrite (bind_Ok _ _ _ _ _ E2).
  erewrite bind_Raise; [reflexivity|].
  eapply conv_chain_raises_step; [|exact Hstep].
  eapply has_shape_grows; [eassumption | exact Hg2].
Qed.

(** X18: with a channel step that is not positive, [__init__] builds nothing:
    the second chain of the first level ("chain_higher", over a 3-channel
    noise frame) raises.  A step of -3 gives a [ZeroDivisionError] in its
    first block (3 + (-3) channels), every other negative step a [ValueError]
    for the negative size of the weights, and a step of 0 a
    [ZeroDivisionError] in its second block (0 input and 0 output channels;
    the first block, with no output channel, is built). *)
Theorem init_needs_positive_step self style_img :
  0 ≤ inputDimension self → 0 ≤ batchSize self → channelStepSize self ≤ 0 →
  TextureNetwork_init self style_img
  = Raise (if decide (channelStepSize self = 0 ∨ channelStepSize self = -3)
           then ZeroDivisionError else ValueError).
Proof.
  intros HM HB Hstep. unfold TextureNetwork_init.
  erewrite bind_Raise; [reflexivity|].
  exact (generator_raises_step self empty_graph HM HB Hstep).
Qed.

Lemma init_needs_positive_step_witness :
  TextureNetwork_init (TextureNetwork_with_step 0) blank_style_img
  = Raise (if decide (channelStepSize (TextureNetwork_with_step 0) = 0
                      ∨ channelStepSize (TextureNetwork_with_step 0) = -3)
           then ZeroDivisionError else ValueError).
Proof.
  apply (init_needs_positive_step (TextureNetwork_with_step 0) blank_style_img).
  - simpl. lia.
  - simpl. lia.
  - simpl. lia.
Defined.
